(** * Z80 assembler driver (z80_assembler.cpp): a shallow embedding

    The translation unit z80_assembler.cpp holds the global assembler state
    (PC, RAM, minPC, maxPC, LineNo, LineBuf, ...), the fatal-error exit
    [Error], the address check [checkPC], the listing renderer
    [listOneLine] and the driver [main].  The tokenizer, the expression
    evaluator, the symbol table and the instruction encoder live in other
    translation units; the driver is therefore embedded over arbitrary
    [InitSymTab], [TokenizeLine] and [CompileLine], and a separate module
    gives a model of those units written from the specification.

    Integers of the program are embedded as [Z]; C strings as [string]
    (the characters before the terminating NUL); the 64K byte array as a
    [list Z] read and updated by index.  Diagnostics sent to stderr ([MSG],
    the banner, the messages before [return 1]) are not part of the
    observable state modelled here; standard output, the exit status and
    the files written are. *)

From Stdlib Require Import ZArith String Ascii List Lia Bool.
From stdpp Require Import base list strings pretty relations.
Import ListNotations.

Open Scope string_scope.
Open Scope list_scope.
Open Scope Z_scope.

(** ** Data model *)

(** Modelled from the spec: the declaration of the fixup record (the
    element type of a symbol's [recalc] chain) is in z80_assembler.h, which
    is not part of the sources; its fields follow the specification's data
    model (location, width, encoding, constantOffset). *)
Inductive Encoding : Type :=
| Absolute
| LowByte
| HighByte
| SignedRelativeFrom (address : Z).

Record Fixup : Type := mkFixup {
  location : Z;
  width : Z;
  encoding : Encoding;
  constantOffset : Z
}.

Inductive Kind : Type := Label | Constant.

(** Modelled from the spec: [struct Symbol] is declared in z80_assembler.h.
    [main] reads the members [name], [val], [type], [recalc] and [next];
    [s_defined] and [s_kind] come from the specification's data model.  A
    bucket chain ([next]) is a list of symbols. *)
Record Symbol : Type := mkSymbol {
  s_name : string;
  s_val : Z;
  s_type : Z;
  s_defined : bool;
  s_kind : Kind;
  s_recalc : list Fixup
}.

(** Modelled from the spec: the token buffer filled by [TokenizeLine] and
    consumed by [CompileLine] (label, mnemonic, raw operand texts). *)
Record Tokens : Type := mkTokens {
  t_label : option string;
  t_mnemonic : option string;
  t_operands : list string
}.

(** An open stdio stream on a file being written: its name and the text
    written so far. *)
Record FILE : Type := mkFILE { fname : string; fdata : string }.

(** What a finished file holds.  The Intel-HEX writer (kk_ihex_write.h) is
    an external library: a hex file is represented by the start address and
    the bytes handed to it. *)
Inductive content : Type :=
| Text (s : string)
| Bytes (b : list Z)
| IHex (start : Z) (b : list Z).

Definition RAMSIZE : Z := 0x10000.

(** The global variables of the program together with what the process has
    shown so far: text on standard output and the files it has closed. *)
Record AsmState : Type := mkState {
  PC : Z;
  nextPC : Z;
  RAM : list Z;
  minPC : Z;
  maxPC : Z;
  listing : bool;
  lstfile : option FILE;
  verboseMode : Z;
  LineNo : Z;
  LineBuf : string;
  reachedEnd : bool;
  SymTab : list (list Symbol);
  Cmd : Tokens;
  stdout : string;
  disk : list (string * content)
}.

Definition set_PC (v : Z) (st : AsmState) : AsmState :=
  mkState v (nextPC st) (RAM st) (minPC st) (maxPC st) (listing st)
    (lstfile st) (verboseMode st) (LineNo st) (LineBuf st) (reachedEnd st)
    (SymTab st) (Cmd st) (stdout st) (disk st).

Definition set_nextPC (v : Z) (st : AsmState) : AsmState :=
  mkState (PC st) v (RAM st) (minPC st) (maxPC st) (listing st)
    (lstfile st) (verboseMode st) (LineNo st) (LineBuf st) (reachedEnd st)
    (SymTab st) (Cmd st) (stdout st) (disk st).

Definition set_RAM (v : list Z) (st : AsmState) : AsmState :=
  mkState (PC st) (nextPC st) v (minPC st) (maxPC st) (listing st)
    (lstfile st) (verboseMode st) (LineNo st) (LineBuf st) (reachedEnd st)
    (SymTab st) (Cmd st) (stdout st) (disk st).

Definition set_minPC (v : Z) (st : AsmState) : AsmState :=
  mkState (PC st) (nextPC st) (RAM st) v (maxPC st) (listing st)
    (lstfile st) (verboseMode st) (LineNo st) (LineBuf st) (reachedEnd st)
    (SymTab st) (Cmd st) (stdout st) (disk st).

Definition set_maxPC (v : Z) (st : AsmState) : AsmState :=
  mkState (PC st) (nextPC st) (RAM st) (minPC st) v (listing st)
    (lstfile st) (verboseMode st) (LineNo st) (LineBuf st) (reachedEnd st)
    (SymTab st) (Cmd st) (stdout st) (disk st).

Definition set_lstfile (v : option FILE) (st : AsmState) : AsmState :=
  mkState (PC st) (nextPC st) (RAM st) (minPC st) (maxPC st) (listing st)
    v (verboseMode st) (LineNo st) (LineBuf st) (reachedEnd st)
    (SymTab st) (Cmd st) (stdout st) (disk st).

Definition set_LineNo (v : Z) (st : AsmState) : AsmState :=
  mkState (PC st) (nextPC st) (RAM st) (minPC st) (maxPC st) (listing st)
    (lstfile st) (verboseMode st) v (LineBuf st) (reachedEnd st)
    (SymTab st) (Cmd st) (stdout st) (disk st).

Definition set_LineBuf (v : string) (st : AsmState) : AsmState :=
  mkState (PC st) (nextPC st) (RAM st) (minPC st) (maxPC st) (listing st)
    (lstfile st) (verboseMode st) (LineNo st) v (reachedEnd st)
    (SymTab st) (Cmd st) (stdout st) (disk st).

Definition set_reachedEnd (v : bool) (st : AsmState) : AsmState :=
  mkState (PC st) (nextPC st) (RAM st) (minPC st) (maxPC st) (listing st)
    (lstfile st) (verboseMode st) (LineNo st) (LineBuf st) v
    (SymTab st) (Cmd st) (stdout st) (disk st).

Definition set_SymTab (v : list (list Symbol)) (st : AsmState) : AsmState :=
  mkState (PC st) (nextPC st) (RAM st) (minPC st) (maxPC st) (listing st)
    (lstfile st) (verboseMode st) (LineNo st) (LineBuf st) (reachedEnd st)
    v (Cmd st) (stdout st) (disk st).

Definition set_Cmd (v : Tokens) (st : AsmState) : AsmState :=
  mkState (PC st) (nextPC st) (RAM st) (minPC st) (maxPC st) (listing st)
    (lstfile st) (verboseMode st) (LineNo st) (LineBuf st) (reachedEnd st)
    (SymTab st) v (stdout st) (disk st).

Definition set_stdout (v : string) (st : AsmState) : AsmState :=
  mkState (PC st) (nextPC st) (RAM st) (minPC st) (maxPC st) (listing st)
    (lstfile st) (verboseMode st) (LineNo st) (LineBuf st) (reachedEnd st)
    (SymTab st) (Cmd st) v (disk st).

Definition set_disk (v : list (string * content)) (st : AsmState) : AsmState :=
  mkState (PC st) (nextPC st) (RAM st) (minPC st) (maxPC st) (listing st)
    (lstfile st) (verboseMode st) (LineNo st) (LineBuf st) (reachedEnd st)
    (SymTab st) (Cmd st) (stdout st) v.

(** ** Control: normal return, process exit, undefined behaviour *)

(** A call either returns ([Ok]), ends the process with an exit status
    ([Exit], carrying the state the process leaves behind), has no
    behaviour defined by the language ([Undef]: an access outside a
    buffer), or never comes back ([Loop]). *)
Inductive outcome (A : Type) : Type :=
| Ok (a : A)
| Exit (code : Z) (w : AsmState)
| Undef
| Loop.

Arguments Ok {A} a.
Arguments Exit {A} code w.
Arguments Undef {A}.
Arguments Loop {A}.

#[global] Instance outcome_bind : MBind outcome :=
  fun A B (k : A -> outcome B) (m : outcome A) =>
    match m with
    | Ok a => k a
    | Exit c w => Exit c w
    | Undef => Undef
    | Loop => Loop
    end.

#[global] Instance outcome_ret : MRet outcome := fun A a => Ok a.

(** ** stdio *)

Definition printf (s : string) (st : AsmState) : AsmState :=
  set_stdout (stdout st +:+ s) st.

Definition nl : string := String "010"%char "".

Definition puts (s : string) (st : AsmState) : AsmState :=
  printf (s +:+ nl) st.

(** [fclose(lstfile)]: the text written so far becomes the file. *)
Definition fclose_lst (st : AsmState) : AsmState :=
  match lstfile st with
  | Some f => set_lstfile None (set_disk (disk st ++ [(fname f, Text (fdata f))]) st)
  | None => st
  end.

(** [exit(code)], and [return code] from [main]: open streams are flushed
    and closed, then the process ends. *)
Definition exit {A : Type} (code : Z) (st : AsmState) : outcome A :=
  Exit code (fclose_lst st).

(** [isspace] in the C locale. *)
Definition isspace (c : ascii) : bool :=
  let n := nat_of_ascii c in
  ((n =? 32) || ((9 <=? n) && (n <=? 13)))%nat.

Fixpoint skip_space (s : string) : string :=
  match s with
  | String c r => if isspace c then skip_space r else s
  | EmptyString => s
  end.

Fixpoint pad_left (c : ascii) (w : nat) (s : string) : string :=
  match w with
  | O => s
  | S w' => String c (pad_left c w' s)
  end.

(** [%*s] with field width [w]: right-justified, blank padded. *)
Definition fmt_s (w : Z) (s : string) : string :=
  pad_left " "%char (Z.to_nat w - String.length s) s.

Definition hexdigit (d : Z) : ascii :=
  match String.get (Z.to_nat d) "0123456789ABCDEF" with
  | Some c => c
  | None => "0"%char
  end.

Fixpoint hexdigits (fuel : nat) (n : Z) (acc : string) : string :=
  match fuel with
  | O => acc
  | S f => if n =? 0 then acc
           else hexdigits f (n / 16) (String (hexdigit (n mod 16)) acc)
  end.

(** [%04X], [%4.4X], [%02X], [%2.2X] applied to an unsigned value below
    2^32: upper-case hexadecimal with at least [w] digits. *)
Definition fmt_X (w : nat) (n : Z) : string :=
  let d := hexdigits 8 n "" in
  pad_left "0"%char (w - String.length d) d.

(** ** Error: print fatal error message and exit *)

Definition Error {A : Type} (s : string) (st : AsmState) : outcome A :=
  let st1 := printf ("Error in line " +:+ pretty (LineNo st) +:+ ": " +:+ s +:+ nl) st in
  let p := skip_space (LineBuf st1) in
  let st2 := puts p st1 in
  exit 1 st2.

(** ** checkPC *)

Definition checkPC (pc : Z) (st : AsmState) : outcome AsmState :=
  if RAMSIZE <=? pc then Error "Address overflow -> exit" st
  else
    let st1 := if pc <? minPC st then set_minPC pc st else st in
    let st2 := if maxPC st1 <? pc then set_maxPC pc st1 else st1 in
    Ok st2.

(** A run seen through its writes: [checkPC] on each written address in
    turn. *)
Fixpoint checkPCs (ws : list Z) (st : AsmState) : outcome AsmState :=
  match ws with
  | [] => Ok st
  | a :: r => st1 ← checkPC a st; checkPCs r st1
  end.

(** The state [checkPC] returns for an address that passes. *)
Definition touch (pc : Z) (st : AsmState) : AsmState :=
  set_maxPC (Z.max (maxPC st) pc) (set_minPC (Z.min (minPC st) pc) st).

Definition is_open (f : option FILE) : bool :=
  match f with Some _ => true | None => false end.

(** ** list: formatted output to the listing file, when one is open

    (The function is called [list] in the source; the name is taken by the
    list type here.) *)
Definition list_ (s : string) (st : AsmState) : AsmState :=
  match lstfile st with
  | Some f => set_lstfile (Some (mkFILE (fname f) (fdata f +:+ s))) st
  | None => st
  end.

(** ** listOneLine *)

Definition u16 (z : Z) : Z := z mod 0x10000.
Definition u32 (z : Z) : Z := z mod 0x100000000.

(** The [while ( adr < lastPC )] loop.  [adr] is a 16-bit variable, so the
    loop visits at most 0x10000 different addresses before it repeats one;
    a run that uses up that many iterations never leaves the loop
    ([Loop]), which happens when [lastPC] is 0x10000 or more. *)
Fixpoint listLoop (fuel : nat) (firstPC lastPC endOp lastRow textLen : Z)
    (oneLine : string) (adr : Z) (st : AsmState) : outcome AsmState :=
  if adr <? lastPC then
    match fuel with
    | O => Loop
    | S fuel' =>
      let row := u32 (adr - firstPC) / 4 in
      let col := u32 (adr - firstPC) mod 4 in
      if (row <? (if lastRow <? 8 then 8 - 2 else 8 - 3)) || (lastRow - 2 <? row) then
        match RAM st !! Z.to_nat adr with
        | None => Undef
        | Some b =>
          let st1 := if col =? 0 then list_ (fmt_X 4 adr +:+ "   ") st else st in
          let st2 := list_ (" " +:+ fmt_X 2 b) st1 in
          let st3 :=
            if adr =? endOp then
              list_ (fmt_s (5 + 3 * (3 - col) + textLen) oneLine +:+ nl) st2
            else if (col =? 3) || (adr =? u32 (lastPC - 1)) then list_ nl st2
            else st2 in
          listLoop fuel' firstPC lastPC endOp lastRow textLen oneLine (u16 (adr + 1)) st3
        end
      else
        let st1 := if row =? 8 - 3 then list_ ("..." +:+ nl) st else st in
        listLoop fuel' firstPC lastPC endOp lastRow textLen oneLine (u16 (adr + 4)) st1
    end
  else Ok st.

Definition listOneLine (firstPC lastPC : Z) (oneLine : string) (st : AsmState)
    : outcome AsmState :=
  let codeLen := u16 (lastPC - firstPC) in
  let textLen := Z.of_nat (String.length oneLine) in
  if codeLen =? 0 then
    if negb (textLen =? 0) then Ok (list_ (fmt_s (24 + textLen) oneLine +:+ nl) st)
    else Ok (list_ nl st)
  else
    let adr := u16 firstPC in
    let endOp := u16 (if lastPC <? u32 (firstPC + 4) then u32 (lastPC - 1)
                      else u32 (firstPC + 3)) in
    let lastRow := (codeLen - 1) / 4 in
    listLoop (Z.to_nat (RAMSIZE + 1)) firstPC lastPC endOp lastRow textLen oneLine adr st.

(** ** Reading the source file *)

Definition is_nl (c : ascii) : bool := (nat_of_ascii c =? 10)%nat.
Definition is_nul (c : ascii) : bool := (nat_of_ascii c =? 0)%nat.

(** One [fgets( buf, n, f )] on the unread text [inp]: [None] at end of
    file, otherwise the characters stored (at most [n - 1], ending after
    the first newline) and the text left unread. *)
Fixpoint fgets_from (k : nat) (inp : string) : string * string :=
  match k, inp with
  | S k', String c r =>
      if is_nl c then (String c "", r)
      else let '(l, rest) := fgets_from k' r in (String c l, rest)
  | _, _ => ("", inp)
  end.

Definition fgets (n : nat) (inp : string) : option (string * string) :=
  match inp with
  | EmptyString => None
  | _ => Some (fgets_from (n - 1) inp)
  end.

(** The strings that successive calls of [fgets] with a buffer of size [n]
    return on a file holding [inp], by recursion on the text; [k] is the
    room left for the line being read.  ([fgets_all_unfold] relates it to
    [fgets].) *)
Fixpoint fgets_all (n k : nat) (inp : string) : list string :=
  match inp with
  | EmptyString => []
  | String c r =>
      if is_nl c || (k =? 1)%nat then String c "" :: fgets_all n (n - 1) r
      else match fgets_all n (k - 1) r with
           | [] => [String c ""]
           | l :: ls => String c l :: ls
           end
  end.

(** The buffer seen as a C string: the characters before the first NUL. *)
Fixpoint c_str (s : string) : string :=
  match s with
  | String c r => if is_nul c then "" else String c (c_str r)
  | EmptyString => ""
  end.

(** [*( oneLine + strlen( oneLine ) - 1 ) = 0]: the last character of the
    string is overwritten by the terminator.  On an empty string the store
    is in front of the buffer ([None]). *)
Fixpoint chop (s : string) : option string :=
  match s with
  | EmptyString => None
  | String c EmptyString => Some ""
  | String c r => match chop r with
                  | Some r' => Some (String c r')
                  | None => None
                  end
  end.

(** ** File names *)

(** [basename]: the part after the last slash. *)
Fixpoint basename (s : string) : string :=
  match s with
  | EmptyString => ""
  | String c r =>
      if (nat_of_ascii c =? 47)%nat then basename r
      else if existsb (fun d => (nat_of_ascii d =? 47)%nat) (list_ascii_of_string r)
           then basename r else s
  end.

Definition strlen (s : string) : Z := Z.of_nat (String.length s).

(** The suffix test of [main]: [inputfilename + fnamelen - 4] compared
    with the four source extensions. *)
Definition has_src_ext (name : string) : bool :=
  let ext := String.substring (String.length name - 4) 4 name in
  String.eqb ext ".asm" || String.eqb ext ".ASM" ||
  String.eqb ext ".z80" || String.eqb ext ".Z80".

(** [strncpy( outputfilename + fnamelen - 4, ext, ... )] on the
    zero-initialised name buffer holding the C string [buf]: the string the
    buffer holds afterwards.  With [fnamelen < 4] the destination lies in
    front of the buffer. *)
Definition set_ext (buf : string) (fnamelen : nat) (ext : string) : outcome string :=
  if (fnamelen <? 4)%nat then Undef
  else
    let pos := (fnamelen - 4)%nat in
    if (pos <=? String.length buf)%nat then Ok (String.substring 0 pos buf +:+ ext)
    else Ok buf.

(** The operating system: what opening the input file gives, which files
    can be created, and the bytes found in the 256 bytes allocated behind
    the 64K of [RAM], which [memset] does not reach. *)
Record Env : Type := mkEnv {
  infile : option string;
  writable : string -> bool;
  guard : list Z
}.

Definition fopen_w (e : Env) (name : string) : bool :=
  negb (String.eqb name "") && writable e name.

(** The command line after option parsing (the locals [bin], [cArray],
    [hex], [offset], [fill], [inputfilename] of [main], and the values
    given to the globals [listing] and [verboseMode]).  [offset] is -1
    without [-o] and the argument masked with 0xFFFF otherwise; [fill] is
    masked with 0xFF. *)
Record Options : Type := mkOptions {
  bin : bool;
  cArray : bool;
  hex : bool;
  opt_listing : bool;
  opt_verbose : Z;
  offset : Z;
  fill : Z;
  inputfilename : string
}.

Definition set_offset (v : Z) (o : Options) : Options :=
  mkOptions (bin o) (cArray o) (hex o) (opt_listing o) (opt_verbose o) v (fill o)
    (inputfilename o).

(** The globals as the program starts: static initialisers of the source
    ([minPC = RAMSIZE], [maxPC = 0], [listing = false], [verboseMode = 0]),
    zero for the rest. *)
Definition init_state : AsmState :=
  mkState 0 0 [] RAMSIZE 0 false None 0 0 "" false [] (mkTokens None None []) "" [].

Definition set_listing (v : bool) (st : AsmState) : AsmState :=
  mkState (PC st) (nextPC st) (RAM st) (minPC st) (maxPC st) v
    (lstfile st) (verboseMode st) (LineNo st) (LineBuf st) (reachedEnd st)
    (SymTab st) (Cmd st) (stdout st) (disk st).

Definition set_verboseMode (v : Z) (st : AsmState) : AsmState :=
  mkState (PC st) (nextPC st) (RAM st) (minPC st) (maxPC st) (listing st)
    (lstfile st) v (LineNo st) (LineBuf st) (reachedEnd st)
    (SymTab st) (Cmd st) (stdout st) (disk st).

(** ** The cross reference at the end of the listing *)

Definition xref_symbol (s : Symbol) (st : AsmState) : AsmState :=
  match s_recalc s with
  | _ :: _ => list_ ("----    " +:+ s_name s +:+ " is undefined!" +:+ nl) st
  | [] =>
      if s_type s =? 0 then
        list_ (fmt_X 4 (u32 (s_val s)) +:+ fmt_s (20 + strlen (s_name s)) (s_name s) +:+ nl) st
      else st
  end.

Definition cross_reference (st : AsmState) : AsmState :=
  let st1 := list_ (nl +:+ "Cross reference" +:+ nl +:+ nl) st in
  let st2 := fold_left (fun acc bucket => fold_left (fun acc' s => xref_symbol s acc') bucket acc)
                       (take 256 (SymTab st1)) st1 in
  fclose_lst st2.

(** ** Writing the output files *)

(** The [size] bytes at [RAM + start]; reading past the allocated block is
    undefined. *)
Definition ram_range (start size : Z) (st : AsmState) : outcome (list Z) :=
  if start + size <=? Z.of_nat (length (RAM st))
  then Ok (take (Z.to_nat size) (drop (Z.to_nat start) (RAM st)))
  else Undef.

(** The separators of the C array: 16 values per line. *)
Fixpoint c_array_body (i : Z) (size : Z) (bytes : list Z) : string :=
  match bytes with
  | [] => ""
  | b :: r =>
      "0x" +:+ fmt_X 2 b +:+
      (if i =? size - 1 then nl +:+ "};" +:+ nl +:+ nl +:+ "#endif" +:+ nl
       else if Z.land i (16 - 1) =? 16 - 1 then "," +:+ nl +:+ "  "
       else ", ") +:+
      c_array_body (i + 1) size r
  end.

Definition c_array_text (bn : string) (start size : Z) (bytes : list Z) : string :=
  "#ifndef INCLUDE_" +:+ bn +:+ "_H" +:+ nl +:+ "#define INCLUDE_" +:+ bn +:+ "_H" +:+ nl +:+ nl +:+
  "const uint16_t " +:+ bn +:+ "Addr = 0x" +:+ fmt_X 4 start +:+ ";" +:+ nl +:+
  "const uint8_t " +:+ bn +:+ "[] = {" +:+ nl +:+ "  " +:+
  c_array_body 0 size bytes.

Definition write_file (name : string) (c : content) (st : AsmState) : AsmState :=
  set_disk (disk st ++ [(name, c)]) st.

(** The block of [main] guarded by [if ( *outputfilename )]: binary (or
    CP/M com), Intel hex and C array files, in this order. *)
Definition emit_files (o : Options) (e : Env) (outputfilename : string)
    (st : AsmState) : outcome AsmState :=
  let start := if offset o <? 0 then minPC st else offset o in
  let size := if offset o <? 0 then u32 (maxPC st + 1 - minPC st)
              else u32 (maxPC st + 1 - offset o) in
  let com := start =? 0x100 in
  let fnamelen := String.length outputfilename in
  '(name1, st1) ←
    (if bin o then
       name ← set_ext outputfilename fnamelen (if com then ".com" else ".bin");
       if fopen_w e name then
         bytes ← ram_range start size st;
         Ok (name, write_file name (Bytes bytes) st)
       else exit 1 st
     else Ok (outputfilename, st));
  '(name2, st2) ←
    (if hex o then
       name ← set_ext name1 fnamelen ".hex";
       if fopen_w e name then
         bytes ← ram_range start size st1;
         Ok (name, write_file name (IHex start bytes) st1)
       else exit 1 st1
     else Ok (name1, st1));
  if cArray o then
    name ← set_ext name2 fnamelen ".h";
    if fopen_w e name then
      let bn := basename (String.substring 0 (fnamelen - 4) name) in
      bytes ← ram_range start size st2;
      Ok (write_file name (Text (c_array_text bn start size bytes)) st2)
    else exit 1 st2
  else Ok st2.

(** ** The driver *)

Section Driver.

(** [MAXLINELENGTH] is defined in z80_assembler.h (the buffer holds at
    least one character and the terminator); [InitSymTab],
    [TokenizeLine] and [CompileLine] are defined in other translation
    units.  They work on the globals, may end the process through
    [Error], and have no access to the locals of [main]. *)
Variable MAXLINELENGTH : nat.
Variable InitSymTab : AsmState -> outcome AsmState.
Variable TokenizeLine : string -> AsmState -> outcome AsmState.
Variable CompileLine : AsmState -> outcome AsmState.

(** The body of the [while ( !reachedEnd )] loop for the string [l] that
    [fgets] has stored in [LineBuf]; [oneLine] points to [LineBuf]. *)
Definition do_line (l : string) (st : AsmState) : outcome AsmState :=
  let prevPC := PC st in
  match chop (c_str l) with
  | None => Undef
  | Some oneLine =>
      let st0 := set_LineBuf oneLine st in
      st1 ← TokenizeLine (LineBuf st0) st0;
      st2 ← CompileLine st1;
      st3 ← (if is_open (lstfile st2) then listOneLine prevPC (PC st2) (LineBuf st2) st2
             else Ok st2);
      Ok (set_LineNo (LineNo st3 + 1) st3)
  end.

(** The loop itself, over the strings the remaining calls of [fgets]
    would return; an empty list is the end of the file. *)
Fixpoint main_loop (lines : list string) (st : AsmState) : outcome AsmState :=
  if reachedEnd st then Ok st
  else match lines with
       | [] => Ok st
       | l :: rest => st' ← do_line l st; main_loop rest st'
       end.

(** The report of the memory range, made with [-l] or [-v]. *)
Definition report_range (st : AsmState) : outcome AsmState :=
  if listing st || negb (verboseMode st =? 0) then
    if minPC st <=? maxPC st then
      Ok (printf (" Using memory range [0x" +:+ fmt_X 4 (minPC st) +:+ "...0x" +:+
                  fmt_X 4 (maxPC st) +:+ "]" +:+ nl) st)
    else exit 1 (printf (" No data created" +:+ nl) st)
  else Ok st.

(** The first part of [main], from the point where the options have
    been read up to the end of the cross reference: the name left in
    [outputfilename] and the globals. *)
Definition assembly (o : Options) (e : Env) : outcome (string * AsmState) :=
  let g := set_verboseMode (opt_verbose o) (set_listing (opt_listing o) init_state) in
  match infile e with
  | None => exit 1 g
  | Some text =>
      st ← InitSymTab (set_LineNo 1 g);
      let st := set_PC 0 (set_RAM (replicate (Z.to_nat RAMSIZE) (fill o) ++ guard e) st) in
      let fnamelen := String.length (inputfilename o) in
      let outputfilename :=
        if (cArray o || bin o || hex o || listing st) &&
           (4 <? strlen (basename (inputfilename o))) &&
           has_src_ext (inputfilename o)
        then inputfilename o else "" in
      '(outputfilename, st) ←
        (if listing st && negb (fnamelen =? 0)%nat then
           name ← set_ext outputfilename fnamelen ".lst";
           if fopen_w e name then Ok (name, set_lstfile (Some (mkFILE name "")) st)
           else exit 1 st
         else Ok (outputfilename, st));
      st ← main_loop (fgets_all MAXLINELENGTH (MAXLINELENGTH - 1) text) st;
      let st := if is_open (lstfile st) then cross_reference st else st in
      Ok (outputfilename, st)
  end.

(** [main]: the assembly, the report of the memory range, the output
    files. *)
Definition main (o : Options) (e : Env) : outcome AsmState :=
  '(outputfilename, st) ← assembly o e;
  st ← report_range st;
  if negb (String.eqb outputfilename "") then
    st ← emit_files o e outputfilename st;
    exit 0 st
  else exit 0 st.

(** ** The driver as a state machine

    The second description of the loop, after the words of the
    specification: [Reading -> (Tokenize -> Encode)* -> End].  A
    configuration is the phase, the lines not yet read and the globals;
    [Tokenize] and [Encode] remember the address at which the line
    began. *)
Inductive phase : Type :=
| Reading
| Tokenize (prevPC : Z)
| Encode (prevPC : Z)
| End.

Definition config : Type := phase * list string * AsmState.

Inductive sm_step : config -> config -> Prop :=
| sm_signal ls st :
    reachedEnd st = true ->
    sm_step (Reading, ls, st) (End, ls, st)
| sm_eof st :
    reachedEnd st = false ->
    sm_step (Reading, [], st) (End, [], st)
| sm_read l ls st t :
    reachedEnd st = false ->
    chop (c_str l) = Some t ->
    sm_step (Reading, l :: ls, st) (Tokenize (PC st), ls, set_LineBuf t st)
| sm_tokenize p ls st st1 :
    TokenizeLine (LineBuf st) st = Ok st1 ->
    sm_step (Tokenize p, ls, st) (Encode p, ls, st1)
| sm_encode p ls st st2 st3 :
    CompileLine st = Ok st2 ->
    (if is_open (lstfile st2) then listOneLine p (PC st2) (LineBuf st2) st2
     else Ok st2) = Ok st3 ->
    sm_step (Encode p, ls, st) (Reading, ls, set_LineNo (LineNo st3 + 1) st3).

End Driver.

(** ** The command line

    The first part of [main]: the loop over [argv[1]] .. [argv[argc -
    1]].  The arguments are C strings (no NUL inside). *)

Definition is_slash (c : ascii) : bool :=
  (nat_of_ascii c =? 47)%nat || (nat_of_ascii c =? 92)%nat.

(** The loop of [usage]: [progname] is moved behind every slash or
    backslash met in [fullpath]. *)
Fixpoint progname_from (progname fullpath : string) : string :=
  match fullpath with
  | EmptyString => progname
  | String c r => if is_slash c then progname_from r r else progname_from progname r
  end.

Definition usage (fullpath : string) (st : AsmState) : AsmState :=
  printf ("Usage: " +:+ progname_from fullpath fullpath +:+
          " [-b] [-i] [-fXX] [-l] [-oXXXX] [-v] INFILE" +:+ nl +:+
          "  -b       create binary output file" +:+ nl +:+
          "  -c       create C array output file" +:+ nl +:+
          "  -i       create intel hex output file" +:+ nl +:+
          "  -fXX     fill ram with byte XX (default: 00)" +:+ nl +:+
          "  -l       create listing file" +:+ nl +:+
          "  -oXXXX   offset address = 0x0000 .. 0xFFFF" +:+ nl +:+
          "  -v       increase verbosity" +:+ nl) st.

(** The locals of [main] that the options set.  [result] has no
    initialiser: [None] until the first [sscanf]. *)
Record Locals : Type := mkLocals {
  l_bin : bool;
  l_cArray : bool;
  l_hex : bool;
  l_offset : Z;
  l_fill : Z;
  l_result : option Z;
  l_inputfilename : option string
}.

Definition init_locals : Locals := mkLocals false false false (-1) 0 None None.

Definition set_l_bin (l : Locals) : Locals :=
  mkLocals true (l_cArray l) (l_hex l) (l_offset l) (l_fill l) (l_result l)
    (l_inputfilename l).

Definition set_l_cArray (l : Locals) : Locals :=
  mkLocals (l_bin l) true (l_hex l) (l_offset l) (l_fill l) (l_result l)
    (l_inputfilename l).

Definition set_l_hex (l : Locals) : Locals :=
  mkLocals (l_bin l) (l_cArray l) true (l_offset l) (l_fill l) (l_result l)
    (l_inputfilename l).

Definition set_l_fill (r : option Z) (v : Z) (l : Locals) : Locals :=
  mkLocals (l_bin l) (l_cArray l) (l_hex l) (l_offset l) v r (l_inputfilename l).

Definition set_l_offset (r : option Z) (v : Z) (l : Locals) : Locals :=
  mkLocals (l_bin l) (l_cArray l) (l_hex l) v (l_fill l) r (l_inputfilename l).

Definition set_l_inputfilename (name : string) (l : Locals) : Locals :=
  mkLocals (l_bin l) (l_cArray l) (l_hex l) (l_offset l) (l_fill l) (l_result l)
    (Some name).

Section CommandLine.

(** [sscanf( s, "%x", &v )] of the C library: the value returned (1, 0 or
    [EOF]) and the value stored in [v], if one is stored. *)
Variable sscanf_x : string -> Z * option Z.

(** The two [sscanf] calls of [-f] and of [-o]: on what follows the
    option character when there is something, else on the next argument
    when there is one, else no call at all.  Gives [result], the variable
    scanned into (from [old]), and whether the next argument is used
    up. *)
Definition option_value (tail : string) (next : option string) (result : option Z)
    (old : Z) : option Z * Z * bool :=
  match tail with
  | String _ _ =>
      let '(r, v) := sscanf_x tail in (Some r, default old v, false)
  | EmptyString =>
      match next with
      | Some a => let '(r, v) := sscanf_x a in (Some r, default old v, true)
      | None => (result, old, false)
      end
  end.

(** The [switch] on [argv[i][++j]] and the test for one more option
    character behind it, repeated as long as the loop stays in the
    argument: [group] is what follows [argv[i][j]], [next] is [argv[i +
    1]].  Returns the locals, the globals and whether [i] has been
    moved to the next argument. *)
Fixpoint option_group (argv0 : string) (group : string) (next : option string)
    (l : Locals) (st : AsmState) : outcome (Locals * AsmState * bool) :=
  match group with
  | EmptyString => exit 1 (usage argv0 st)
  | String c tail =>
      let more (l' : Locals) (st' : AsmState) :=
        match tail with
        | EmptyString => Ok (l', st', false)
        | String _ _ => option_group argv0 tail next l' st'
        end in
      if (c =? "b")%char then more (set_l_bin l) st
      else if (c =? "c")%char then more (set_l_cArray l) st
      else if (c =? "i")%char then more (set_l_hex l) st
      else if (c =? "f")%char then
        let '(result, fill, used) := option_value tail next (l_result l) (l_fill l) in
        match result with
        | None => Undef
        | Some r =>
            if r =? 0 then exit 1 st
            else Ok (set_l_fill result (Z.land fill 0x00FF) l, st, used)
        end
      else if (c =? "l")%char then more l (set_listing true st)
      else if (c =? "o")%char then
        let '(result, offset, used) := option_value tail next (l_result l) (l_offset l) in
        match result with
        | None => Undef
        | Some r =>
            if r =? 0 then exit 1 st
            else Ok (set_l_offset result (Z.land offset 0xFFFF) l, st, used)
        end
      else if (c =? "v")%char then more l (set_verboseMode (verboseMode st + 1) st)
      else exit 1 (usage argv0 st)
  end.

(** The [for] loop over the arguments [args] = [argv[i]], [argv[i + 1]],
    ... *)
Fixpoint parse_args (argv0 : string) (args : list string) (l : Locals) (st : AsmState)
    : outcome (Locals * AsmState) :=
  match args with
  | [] => Ok (l, st)
  | a :: rest =>
      let plain :=
        match l_inputfilename l with
        | None => parse_args argv0 rest (set_l_inputfilename a l) st
        | Some _ => exit 1 (usage argv0 st)
        end in
      match a with
      | EmptyString => plain
      | String c group =>
          if (c =? "-")%char then
            match option_group argv0 group (head rest) l st with
            | Ok (l', st', used) =>
                match rest with
                | [] => Ok (l', st')
                | _ :: rest' =>
                    if used then parse_args argv0 rest' l' st'
                    else parse_args argv0 rest l' st'
                end
            | Exit code w => Exit code w
            | Undef => Undef
            | Loop => Loop
            end
          else plain
      end
  end.

(** The options as they stand when the input file is opened. *)
Definition read_options (argv0 : string) (args : list string) : outcome Options :=
  '(l, st) ← parse_args argv0 args init_locals init_state;
  match l_inputfilename l with
  | None => exit 1 (usage argv0 st)
  | Some name =>
      Ok (mkOptions (l_bin l) (l_cArray l) (l_hex l) (listing st) (verboseMode st)
                    (l_offset l) (l_fill l) name)
  end.

End CommandLine.

(** * The assembly engine, modelled from the specification

    Modelled from the spec: the tokenizer, the expression evaluator, the
    symbol table and the encoder ([TokenizeLine], [CompileLine],
    [InitSymTab] and what they call) are not part of the sources at hand.
    This module models them from the specification (its sections 3 and
    4), on the state and with the [Error] and [checkPC] of the driver
    above.  The texts of the error messages are not given by the
    specification. *)
Module SpecModel.

Section Engine.

(** The hash function of the 256-bucket table is not given by the
    specification. *)
Variable hash : string -> nat.

(** ** Symbol table *)

Definition bucket_of (name : string) : nat := (hash name mod 256)%nat.

Fixpoint find_sym (name : string) (b : list Symbol) : option Symbol :=
  match b with
  | [] => None
  | s :: r => if String.eqb (s_name s) name then Some s else find_sym name r
  end.

Definition lookup_sym (name : string) (tab : list (list Symbol)) : option Symbol :=
  match tab !! bucket_of name with
  | Some b => find_sym name b
  | None => None
  end.

(** Replace the entry of the same name, or append a new one to the
    chain (per-bucket definition order). *)
Fixpoint put_sym (s : Symbol) (b : list Symbol) : list Symbol :=
  match b with
  | [] => [s]
  | x :: r => if String.eqb (s_name x) (s_name s) then s :: r else x :: put_sym s r
  end.

Definition store_sym (s : Symbol) (tab : list (list Symbol)) : list (list Symbol) :=
  alter (put_sym s) (bucket_of (s_name s)) tab.

(** Modelled from the spec: InitSymTab, an empty table of 256 buckets. *)
Definition InitSymTab (st : AsmState) : outcome AsmState :=
  Ok (set_SymTab (replicate 256 []) st).

(** Modelled from the spec: lookupOrCreate returns the existing entry or
    creates an undefined placeholder. *)
Definition lookupOrCreate (name : string) (st : AsmState) : Symbol * AsmState :=
  match lookup_sym name (SymTab st) with
  | Some s => (s, st)
  | None =>
      let s := mkSymbol name 0 0 false Label [] in
      (s, set_SymTab (store_sym s (SymTab st)) st)
  end.

(** ** Memory image *)

(** Modelled from the spec: every written address passes through the
    bounds check, then the byte is stored. *)
Definition poke (a b : Z) (st : AsmState) : outcome AsmState :=
  st1 ← checkPC a st;
  Ok (set_RAM (<[Z.to_nat a := b]> (RAM st1)) st1).

Fixpoint poke_bytes (a : Z) (bs : list Z) (st : AsmState) : outcome AsmState :=
  match bs with
  | [] => Ok st
  | b :: r => st1 ← poke a b st; poke_bytes (a + 1) r st1
  end.

(** Modelled from the spec: emission at the cursor, which advances. *)
Definition emit (b : Z) (st : AsmState) : outcome AsmState :=
  st1 ← poke (PC st) b st;
  Ok (set_PC (PC st1 + 1) st1).

Fixpoint emit_bytes (bs : list Z) (st : AsmState) : outcome AsmState :=
  match bs with
  | [] => Ok st
  | b :: r => st1 ← emit b st; emit_bytes r st1
  end.

(** ** Fixups *)

(** Modelled from the spec: the bytes that encode the value [v] for a
    fixup: the constant offset is added, a relative displacement is taken
    against the stored address and must lie in -128..127. *)
Definition encode_value (f : Fixup) (v : Z) (st : AsmState) : outcome (list Z) :=
  let x := v + constantOffset f in
  match encoding f with
  | Absolute =>
      Ok (if width f =? 1 then [x mod 256] else [x mod 256; (x / 256) mod 256])
  | LowByte => Ok [x mod 256]
  | HighByte => Ok [(x / 256) mod 256]
  | SignedRelativeFrom a =>
      let d := x - a in
      if (-128 <=? d) && (d <=? 127) then Ok [d mod 256]
      else Error "Relative jump out of range" st
  end.

Definition apply_fixup (v : Z) (f : Fixup) (st : AsmState) : outcome AsmState :=
  bs ← encode_value f v st;
  poke_bytes (location f) bs st.

Fixpoint drain (v : Z) (fs : list Fixup) (st : AsmState) : outcome AsmState :=
  match fs with
  | [] => Ok st
  | f :: r => st1 ← apply_fixup v f st; drain v r st1
  end.

Definition is_label (k : Kind) : bool :=
  match k with Label => true | Constant => false end.

(** Modelled from the spec: define.  A second definition of a label is
    fatal, a constant is overwritten; the pending fixups are drained in
    order and the list is cleared. *)
Definition define (name : string) (value : Z) (kind : Kind) (st : AsmState)
    : outcome AsmState :=
  let '(s, st1) := lookupOrCreate name st in
  if is_label kind && s_defined s then Error "Duplicate label" st1
  else
    let st2 := set_SymTab
                 (store_sym (mkSymbol name value (s_type s) true kind (s_recalc s))
                            (SymTab st1)) st1 in
    st3 ← drain value (s_recalc s) st2;
    Ok (set_SymTab
          (store_sym (mkSymbol name value (s_type s) true kind []) (SymTab st3)) st3).

(** Modelled from the spec: addFixup appends to the pending list of the
    named symbol. *)
Definition addFixup (name : string) (f : Fixup) (st : AsmState) : AsmState :=
  let '(s, st1) := lookupOrCreate name st in
  set_SymTab
    (store_sym (mkSymbol name (s_val s) (s_type s) (s_defined s) (s_kind s)
                         (s_recalc s ++ [f]))
               (SymTab st1)) st1.

(** ** Expressions

    Modelled from the spec: the expression evaluator.  The part of the
    expression language modelled is: sums and differences of decimal and
    [0x] hexadecimal literals, the current address [$] and symbols. *)

Inductive expr : Type :=
| ENum (n : Z)
| ECur
| ESym (s : string)
| EAdd (a b : expr)
| ESub (a b : expr).

Inductive value : Type :=
| Resolved (v : Z)
| Unresolved (symbolName : string) (constantOffset : Z).

Definition digit_val (c : ascii) : option Z :=
  let n := nat_of_ascii c in
  if ((48 <=? n) && (n <=? 57))%nat then Some (Z.of_nat (n - 48)) else None.

Definition hex_val (c : ascii) : option Z :=
  let n := nat_of_ascii c in
  if ((48 <=? n) && (n <=? 57))%nat then Some (Z.of_nat (n - 48))
  else if ((65 <=? n) && (n <=? 70))%nat then Some (Z.of_nat (n - 55))
  else if ((97 <=? n) && (n <=? 102))%nat then Some (Z.of_nat (n - 87))
  else None.

Definition is_alpha (c : ascii) : bool :=
  let n := nat_of_ascii c in
  (((65 <=? n) && (n <=? 90)) || ((97 <=? n) && (n <=? 122)) || (n =? 95))%nat.

Definition is_ident_char (c : ascii) : bool :=
  is_alpha c || match digit_val c with Some _ => true | None => false end.

Fixpoint read_number (base : Z) (dv : ascii -> option Z) (acc : Z) (s : string)
    : Z * string :=
  match s with
  | String c r =>
      match dv c with
      | Some d => read_number base dv (acc * base + d) r
      | None => (acc, s)
      end
  | EmptyString => (acc, s)
  end.

Fixpoint read_ident (s : string) : string * string :=
  match s with
  | String c r =>
      if is_ident_char c then let '(i, rest) := read_ident r in (String c i, rest)
      else ("", s)
  | EmptyString => ("", s)
  end.

Definition parse_term (s : string) : option (expr * string) :=
  match skip_space s with
  | String c r =>
      if Ascii.eqb c "$" then Some (ECur, r)
      else if is_alpha c then
        let '(i, rest) := read_ident (String c r) in Some (ESym i, rest)
      else match digit_val c, r with
           | Some 0, String x (String h r') =>
               if (Ascii.eqb x "x" || Ascii.eqb x "X") &&
                  match hex_val h with Some _ => true | None => false end
               then let '(n, rest) := read_number 16 hex_val 0 (String h r') in
                    Some (ENum n, rest)
               else let '(n, rest) := read_number 10 digit_val 0 (String c r) in
                    Some (ENum n, rest)
           | Some _, _ =>
               let '(n, rest) := read_number 10 digit_val 0 (String c r) in
               Some (ENum n, rest)
           | None, _ => None
           end
  | EmptyString => None
  end.

Fixpoint parse_sum (fuel : nat) (lhs : expr) (s : string) : option expr :=
  match skip_space s with
  | EmptyString => Some lhs
  | String c r =>
      match fuel with
      | O => None
      | S fuel' =>
          if Ascii.eqb c "+" then
            match parse_term r with
            | Some (t, rest) => parse_sum fuel' (EAdd lhs t) rest
            | None => None
            end
          else if Ascii.eqb c "-" then
            match parse_term r with
            | Some (t, rest) => parse_sum fuel' (ESub lhs t) rest
            | None => None
            end
          else None
      end
  end.

Definition parse_expr (s : string) : option expr :=
  match parse_term s with
  | Some (t, rest) => parse_sum (String.length rest) t rest
  | None => None
  end.

(** Modelled from the spec: a defined symbol is replaced by its value, an
    undefined one makes the expression [Unresolved] with the sum of the
    constant terms; two undefined symbols in one expression are fatal. *)
Fixpoint eval_expr (e : expr) (st : AsmState) : outcome (value * AsmState) :=
  match e with
  | ENum n => Ok (Resolved n, st)
  | ECur => Ok (Resolved (PC st), st)
  | ESym name =>
      let '(s, st1) := lookupOrCreate name st in
      if s_defined s then Ok (Resolved (s_val s), st1)
      else Ok (Unresolved name 0, st1)
  | EAdd a b =>
      '(va, st1) ← eval_expr a st;
      '(vb, st2) ← eval_expr b st1;
      match va, vb with
      | Resolved x, Resolved y => Ok (Resolved (x + y), st2)
      | Resolved x, Unresolved n o => Ok (Unresolved n (o + x), st2)
      | Unresolved n o, Resolved y => Ok (Unresolved n (o + y), st2)
      | Unresolved _ _, Unresolved _ _ => Error "Too many undefined symbols" st2
      end
  | ESub a b =>
      '(va, st1) ← eval_expr a st;
      '(vb, st2) ← eval_expr b st1;
      match va, vb with
      | Resolved x, Resolved y => Ok (Resolved (x - y), st2)
      | Unresolved n o, Resolved y => Ok (Unresolved n (o - y), st2)
      | _, Unresolved _ _ => Error "Too many undefined symbols" st2
      end
  end.

Definition evaluate (text : string) (st : AsmState) : outcome (value * AsmState) :=
  match parse_expr text with
  | Some e => eval_expr e st
  | None => Error "Syntax error" st
  end.

(** ** Tokenizer *)

Fixpoint strip_comment (s : string) : string :=
  match s with
  | String c r => if Ascii.eqb c ";" then "" else String c (strip_comment r)
  | EmptyString => ""
  end.

Definition rtrim (s : string) : string := String.rev (skip_space (String.rev s)).
Definition trim (s : string) : string := rtrim (skip_space s).

Definition is_quote (c : ascii) : bool := (nat_of_ascii c =? 34)%nat.

(** Modelled from the spec: splitting at the commas outside parentheses
    and string literals;
    [cur] holds the operand being read, reversed.  An unterminated string
    literal gives [None]. *)
Fixpoint split_operands (depth : nat) (inq : bool) (cur : string) (s : string)
    : option (list string) :=
  match s with
  | EmptyString => if inq then None else Some [String.rev cur]
  | String c r =>
      if inq then split_operands depth (negb (is_quote c)) (String c cur) r
      else if is_quote c then split_operands depth true (String c cur) r
      else if Ascii.eqb c "(" then split_operands (S depth) false (String c cur) r
      else if Ascii.eqb c ")" then split_operands (Nat.pred depth) false (String c cur) r
      else if Ascii.eqb c "," && (depth =? 0)%nat then
        match split_operands 0 false "" r with
        | Some l => Some (String.rev cur :: l)
        | None => None
        end
      else split_operands depth false (String c cur) r
  end.

Definition read_name (s : string) : string * string :=
  match s with
  | String c _ => if is_alpha c then read_ident s else ("", s)
  | EmptyString => ("", s)
  end.

(** Modelled from the spec: tokenize.  The comment is stripped, an
    identifier immediately followed by a colon is the label, the next
    identifier is the mnemonic, and the rest is split into operands;
    [None] is a syntax error. *)
Definition tokenize (line : string) : option Tokens :=
  let s := skip_space (rtrim (strip_comment line)) in
  let '(label, s1) :=
    match read_name s with
    | (String c i, String colon r) =>
        if Ascii.eqb colon ":" then (Some (String c i), skip_space r) else (None, s)
    | _ => (None, s)
    end in
  match read_name s1 with
  | (EmptyString, _) =>
      if String.eqb s1 "" then Some (mkTokens label None []) else None
  | (m, rest) =>
      let ops := trim rest in
      if String.eqb ops "" then Some (mkTokens label (Some m) [])
      else match split_operands 0 false "" ops with
           | Some l =>
               let l' := map trim l in
               if existsb (String.eqb "") l' then None
               else Some (mkTokens label (Some m) l')
           | None => None
           end
  end.

(** Modelled from the spec: TokenizeLine leaves the tokens of the line in
    the token buffer; a malformed line is fatal. *)
Definition TokenizeLine (line : string) (st : AsmState) : outcome AsmState :=
  match tokenize line with
  | Some t => Ok (set_Cmd t st)
  | None => Error "Syntax error" st
  end.

(** ** Encoder *)

(** How the operand slot of a table entry is encoded. *)
Inductive slot : Type := Imm8 | Abs16 | Rel8.

(** A table entry: mnemonic, operand shape ([Some r] is the register
    operand [r], [None] the slot that carries a value), fixed opcode
    bytes, and the encoding of the slot. *)
Record opentry : Type := mkOp {
  op_mnemonic : string;
  op_shape : list (option string);
  op_bytes : list Z;
  op_slot : option slot
}.

(** Modelled from the spec: the opcode table is not reproduced by the
    specification; these entries are taken from the Z80 instruction set
    ([JP nn] = C3, [LD A,n] = 3E as in the specification's examples). *)
Definition optable : list opentry :=
  [ mkOp "NOP" [] [0x00] None;
    mkOp "HALT" [] [0x76] None;
    mkOp "RET" [] [0xC9] None;
    mkOp "JP" [None] [0xC3] (Some Abs16);
    mkOp "CALL" [None] [0xCD] (Some Abs16);
    mkOp "JR" [None] [0x18] (Some Rel8);
    mkOp "DJNZ" [None] [0x10] (Some Rel8);
    mkOp "LD" [Some "A"; None] [0x3E] (Some Imm8) ].

Fixpoint shape_matches (shape : list (option string)) (ops : list string) : bool :=
  match shape, ops with
  | [], [] => true
  | Some r :: sh, o :: os => String.eqb r o && shape_matches sh os
  | None :: sh, _ :: os => shape_matches sh os
  | _, _ => false
  end.

(** The operand text standing in the value slot. *)
Fixpoint slot_operand (shape : list (option string)) (ops : list string) : option string :=
  match shape, ops with
  | None :: _, o :: _ => Some o
  | Some _ :: sh, _ :: os => slot_operand sh os
  | _, _ => None
  end.

Fixpoint find_op (m : string) (ops : list string) (tab : list opentry) : option opentry :=
  match tab with
  | [] => None
  | e :: r =>
      if String.eqb (op_mnemonic e) m && shape_matches (op_shape e) ops then Some e
      else find_op m ops r
  end.

Definition slot_width (k : slot) : Z :=
  match k with Abs16 => 2 | Imm8 | Rel8 => 1 end.

Definition slot_encoding (k : slot) (after : Z) : Encoding :=
  match k with
  | Imm8 | Abs16 => Absolute
  | Rel8 => SignedRelativeFrom after
  end.

(** Modelled from the spec: emission of an operand value at the cursor:
    the encoded bytes of a resolved value; for an unresolved one a zero
    placeholder, and a fixup registered for its location. *)
Definition emit_value (w : Z) (enc : Encoding) (v : value) (st : AsmState)
    : outcome AsmState :=
  match v with
  | Resolved x =>
      bs ← encode_value (mkFixup (PC st) w enc 0) x st;
      emit_bytes bs st
  | Unresolved name off =>
      st1 ← emit_bytes (replicate (Z.to_nat w) 0) st;
      Ok (addFixup name (mkFixup (PC st) w enc off) st1)
  end.

Definition emit_operand (w : Z) (enc : Encoding) (text : string) (st : AsmState)
    : outcome AsmState :=
  '(v, st1) ← evaluate text st;
  emit_value w enc v st1.

(** Modelled from the spec: an instruction: opcode bytes first, then the
    operand bytes; [nextPC] is the address after the instruction. *)
Definition encode_instr (e : opentry) (ops : list string) (st : AsmState)
    : outcome AsmState :=
  match op_slot e, slot_operand (op_shape e) ops with
  | Some k, Some text =>
      let after := PC st + Z.of_nat (length (op_bytes e)) + slot_width k in
      '(v, st1) ← evaluate text (set_nextPC after st);
      st2 ← emit_bytes (op_bytes e) st1;
      emit_value (slot_width k) (slot_encoding k (nextPC st2)) v st2
  | _, _ =>
      emit_bytes (op_bytes e)
                 (set_nextPC (PC st + Z.of_nat (length (op_bytes e))) st)
  end.

Fixpoint emit_operands (w : Z) (ops : list string) (st : AsmState) : outcome AsmState :=
  match ops with
  | [] => Ok st
  | o :: r => st1 ← emit_operand w Absolute o st; emit_operands w r st1
  end.

(** The characters between the quotes of a string literal. *)
Definition string_literal (s : string) : option string :=
  match s with
  | String q r =>
      if is_quote q then
        match String.rev r with
        | String q' body => if is_quote q' then Some (String.rev body) else None
        | EmptyString => None
        end
      else None
  | EmptyString => None
  end.

(** Modelled from the spec: the directives [ORG], [EQU], [DEFB], [DEFW],
    [DEFM] and [END]; [None] for any other mnemonic. *)
Definition directive (m : string) (t : Tokens) (st : AsmState)
    : option (outcome AsmState) :=
  if String.eqb m "ORG" then
    Some match t_operands t with
         | [text] =>
             '(v, st1) ← evaluate text st;
             match v with
             | Resolved x => Ok (set_PC (u32 x) st1)
             | Unresolved _ _ => Error "Undefined symbol in ORG" st1
             end
         | _ => Error "Syntax error" st
         end
  else if String.eqb m "EQU" then
    Some match t_label t, t_operands t with
         | Some l, [text] =>
             '(v, st1) ← evaluate text st;
             match v with
             | Resolved x => define l x Constant st1
             | Unresolved _ _ => Error "Undefined symbol in EQU" st1
             end
         | _, _ => Error "Syntax error" st
         end
  else if String.eqb m "DEFB" then Some (emit_operands 1 (t_operands t) st)
  else if String.eqb m "DEFW" then Some (emit_operands 2 (t_operands t) st)
  else if String.eqb m "DEFM" then
    Some match t_operands t with
         | [text] =>
             match string_literal text with
             | Some body =>
                 emit_bytes (map (fun c => Z.of_nat (nat_of_ascii c))
                                 (list_ascii_of_string body)) st
             | None => Error "Syntax error" st
             end
         | _ => Error "Syntax error" st
         end
  else if String.eqb m "END" then Some (Ok (set_reachedEnd true st))
  else None.

(** Modelled from the spec: encode.  A label is defined at the cursor
    before the mnemonic is processed (on an [EQU] line it is the name of
    the constant instead); then the directive or the instruction. *)
Definition encode (t : Tokens) (st : AsmState) : outcome AsmState :=
  let is_equ := match t_mnemonic t with
                | Some m => String.eqb m "EQU"
                | None => false
                end in
  st1 ← match t_label t with
        | Some l => if is_equ then Ok st else define l (PC st) Label st
        | None => Ok st
        end;
  match t_mnemonic t with
  | None => Ok st1
  | Some m =>
      match directive m t st1 with
      | Some r => r
      | None =>
          match find_op m (t_operands t) optable with
          | Some e => encode_instr e (t_operands t) st1
          | None => Error "Syntax error" st1
          end
      end
  end.

(** Modelled from the spec: CompileLine encodes the tokens of the current
    line. *)
Definition CompileLine (st : AsmState) : outcome AsmState := encode (Cmd st) st.

(** Modelled from the spec: finalize, the end-of-assembly enumeration of
    the symbol table for the cross reference: bucket order, then order
    within the bucket; a symbol with pending fixups is undefined
    ([None]). *)
Definition finalize (st : AsmState) : list (string * option Z) :=
  map (fun s => (s_name s, match s_recalc s with
                           | [] => Some (s_val s)
                           | _ :: _ => None
                           end))
      (concat (SymTab st)).

(** The assembler: the driver run over this engine. *)
Definition assemble (MAXLINELENGTH : nat) (o : Options) (e : Env) : outcome AsmState :=
  main MAXLINELENGTH InitSymTab TokenizeLine CompileLine o e.

End Engine.

(** A hash function to run examples with: the sum of the character
  codes. *)
Fixpoint char_sum (s : string) : nat :=
match s with
| String c r => (nat_of_ascii c + char_sum r)%nat
| EmptyString => O
end.

(** A source text from its lines, each ended by a newline. *)
Fixpoint source (ls : list string) : string :=
match ls with
| [] => ""
| l :: r => l +:+ nl +:+ source r
end.

(** Signed reading of a byte. *)
Definition signed8 (b : Z) : Z := if b <? 128 then b else b - 256.

End SpecModel.

(** ** Notions used in the statements *)

(** The invariant for the addresses [ws] written so far. *)
Definition range_inv (ws : list Z) (st : AsmState) : Prop :=
  match ws with
  | [] => minPC st = RAMSIZE /\ maxPC st = 0
  | _ :: _ =>
      minPC st ∈ ws /\ maxPC st ∈ ws /\ forall a, a ∈ ws -> minPC st <= a <= maxPC st
  end.

(** The memory image with its touched range. *)
Definition image (st : AsmState) : list Z * Z * Z := (RAM st, minPC st, maxPC st).

(** A call that leaves the memory image as it is in [st], however it
    ends. *)
Definition keeps_image (st : AsmState) (r : outcome AsmState) : Prop :=
  match r with
  | Ok st' => image st' = image st
  | Exit _ w => image w = image st
  | Undef | Loop => True
  end.

(** The line of the cross reference for a symbol. *)
Definition xref_text (s : Symbol) : string :=
  match s_recalc s with
  | _ :: _ => "----    " +:+ s_name s +:+ " is undefined!" +:+ nl
  | [] =>
      if s_type s =? 0 then
        fmt_X 4 (u32 (s_val s)) +:+ fmt_s (20 + strlen (s_name s)) (s_name s) +:+ nl
      else ""
  end.

Fixpoint xref_texts (l : list Symbol) : string :=
  match l with
  | [] => ""
  | s :: r => xref_text s +:+ xref_texts r
  end.

(** Options and environment of the example runs: listing on, no output
    file asked for, every file can be created. *)
Definition listing_run (name : string) : Options :=
  mkOptions false false false true 0 (-1) 0 name.

Definition file_system (text : string) : Env :=
  mkEnv (Some text) (fun _ => true) (replicate 256 0).

(** The statements of the forward-reference and relative-branch
    properties: a jump to [LABEL], the line defining [LABEL], a relative
    branch to [TARGET], the line defining [TARGET], and the entry created
    for a name on its first use. *)
Definition jp_label : Tokens := mkTokens None (Some "JP") ["LABEL"].
Definition label_def : Tokens := mkTokens (Some "LABEL") None [].
Definition branch (m : string) : Tokens := mkTokens None (Some m) ["TARGET"].
Definition target_def : Tokens := mkTokens (Some "TARGET") None [].
Definition fresh (name : string) : Symbol := mkSymbol name 0 0 false Label [].

Definition quiet_run (name : string) : Options :=
  mkOptions false false false false 0 (-1) 0 name.

Definition binary_run (name : string) : Options :=
  mkOptions true false false false 0 (-1) 0 name.

(** The state in which the loop of [main] starts on an engine with an
    empty symbol table and a fill byte of zero. *)
Definition blank_state : AsmState :=
  mkState 0 0 (replicate (Z.to_nat RAMSIZE) 0) RAMSIZE 0 false None 0 1 "" false
    (replicate 256 []) (mkTokens None None []) "" [].

(** [TARGET] already defined at 0x20, for a branch assembled at 0. *)
Definition target_known : AsmState :=
  set_SymTab
    (SpecModel.store_sym SpecModel.char_sum (mkSymbol "TARGET" 0x20 0 true Label [])
                         (replicate 256 []))
    blank_state.

(** The globals when the second line of a listed source turns out to
    overflow the address space. *)
Definition at_overflow : AsmState :=
  set_LineBuf "  DEFB 1, 2  "
    (set_LineNo 2
       (set_lstfile (Some (mkFILE "prog.lst" ("0000    00               NOP" +:+ nl)))
          blank_state)).

(** The globals at the end of a listed assembly in which [MISSING] was
    used at address 0 and never defined. *)
Definition missing_symbol : Symbol :=
  mkSymbol "MISSING" 0 0 false Label [mkFixup 1 2 Absolute 0].

Definition missing_pending : AsmState :=
  set_SymTab [[missing_symbol]] (set_lstfile (Some (mkFILE "prog.lst" "")) blank_state).

Definition no_newline (s : string) : bool :=
  forallb (fun c => negb (is_nl c)) (list_ascii_of_string s).

(** ** Further notions used in the statements *)

(** [st'] is [st] but for text appended to the open listing file. *)
Definition only_listing (st st' : AsmState) : Prop :=
  exists t, st' = list_ t st.

(** The first address of the output range ([start] in [main]): minPC, or
    the offset when one was given. *)
Definition range_start (o : Options) (st : AsmState) : Z :=
  if offset o <? 0 then minPC st else offset o.

(** The name of the binary file: the output name with its last four
    characters replaced. *)
Definition binary_name (o : Options) (name : string) (st : AsmState) : string :=
  String.substring 0 (String.length name - 4) name +:+
  (if range_start o st =? 0x100 then ".com" else ".bin").

(** The data bytes of a listing row: a blank and two hexadecimal digits
    each. *)
Fixpoint hex_bytes (bs : list Z) : string :=
  match bs with
  | [] => ""
  | b :: r => " " +:+ fmt_X 2 b +:+ hex_bytes r
  end.

(** The globals after [LD HL,0x1234] and [RET] have been assembled at
    address 0, with a listing file open and nothing listed yet. *)
Definition listing_open : AsmState :=
  mkState 4 4 [0x21; 0x34; 0x12; 0xC9; 0; 0; 0; 0] 0 3 true
    (Some (mkFILE "prog.lst" "")) 0 1 "" false
    (replicate 256 []) (mkTokens None None []) "" [].

(** The option characters without a value. *)
Definition simple_flag (c : ascii) : bool :=
  (c =? "b")%char || (c =? "c")%char || (c =? "i")%char || (c =? "l")%char ||
  (c =? "v")%char.

Fixpoint simple_flags (g : string) : bool :=
  match g with
  | EmptyString => true
  | String c r => simple_flag c && simple_flags r
  end.

Fixpoint no_slash (s : string) : bool :=
  match s with
  | EmptyString => true
  | String c r => negb (is_slash c) && no_slash r
  end.

(** What the options leave in [fill] and [offset]. *)
Definition in_range (l : Locals) : Prop :=
  0 <= l_fill l <= 0xFF /\ (l_offset l = -1 \/ 0 <= l_offset l <= 0xFFFF).

(** A reading of [sscanf( s, "%x", &v )] to run examples with: the
    hexadecimal digits at the start of [s]; [EOF] on the empty string. *)
Definition hexval (c : ascii) : option Z :=
  let n := Z.of_nat (nat_of_ascii c) in
  if (48 <=? n) && (n <=? 57) then Some (n - 48)
  else if (65 <=? n) && (n <=? 70) then Some (n - 55)
  else if (97 <=? n) && (n <=? 102) then Some (n - 87)
  else None.

Fixpoint scan_digits (s : string) (acc : option Z) : option Z :=
  match s with
  | EmptyString => acc
  | String c r =>
      match hexval c with
      | Some d => scan_digits r (Some (16 * default 0 acc + d))
      | None => acc
      end
  end.

Definition scan_hex (s : string) : Z * option Z :=
  match s with
  | EmptyString => (-1, None)
  | _ => match scan_digits s None with
         | Some v => (1, Some v)
         | None => (0, None)
         end
  end.

(** * Properties *)

(** ** Basic facts about the state and the control type *)

Lemma bind_Ok {A B : Type} (a : A) (k : A -> outcome B) : (Ok a ≫= k) = k a.
Proof. reflexivity. Qed.

Lemma bind_Exit {A B : Type} (c : Z) (w : AsmState) (k : A -> outcome B) :
  (Exit c w ≫= k) = Exit c w.
Proof. reflexivity. Qed.

Lemma bind_Ok_inv {A B : Type} (m : outcome A) (k : A -> outcome B) (b : B) :
  (m ≫= k) = Ok b -> exists a, m = Ok a /\ k a = Ok b.
Proof. destruct m; simpl; intros H; try discriminate. eauto. Qed.

Lemma append_cons (x : ascii) (a b : string) : String x a +:+ b = String x (a +:+ b).
Proof. reflexivity. Qed.

Lemma append_assoc (a b c : string) : (a +:+ b) +:+ c = a +:+ b +:+ c.
Proof.
  induction a as [|x a IH]; [reflexivity|].
  rewrite !append_cons. now rewrite IH.
Qed.

Lemma append_nil_r (a : string) : a +:+ "" = a.
Proof.
  induction a as [|x a IH]; [reflexivity|].
  rewrite append_cons. now rewrite IH.
Qed.

Lemma checkPC_ok (pc : Z) (st : AsmState) :
  pc < RAMSIZE -> checkPC pc st = Ok (touch pc st).
Proof.
  intros Hpc. unfold checkPC, touch.
  destruct (Z.leb_spec RAMSIZE pc) as [Hge|_]; [lia|].
  destruct st as [pc0 npc ram mn mx li lf vm ln lb re sy cm so dk]; simpl.
  destruct (Z.ltb_spec pc mn) as [H1|H1]; simpl;
    destruct (Z.ltb_spec mx pc) as [H2|H2]; simpl;
    unfold set_minPC, set_maxPC; simpl; f_equal; f_equal; lia.
Qed.

Lemma checkPC_overflow (pc : Z) (st : AsmState) :
  RAMSIZE <= pc -> checkPC pc st = Error "Address overflow -> exit" st.
Proof.
  intros Hpc. unfold checkPC.
  destruct (Z.leb_spec RAMSIZE pc) as [_|Hlt]; [reflexivity | lia].
Qed.

(** The report and the state left by [Error]. *)
Lemma Error_exit {A : Type} (s : string) (st : AsmState) :
  @Error A s st =
  Exit 1 (fclose_lst
            (printf ("Error in line " +:+ pretty (LineNo st) +:+ ": " +:+ s +:+ nl +:+
                     skip_space (LineBuf st) +:+ nl) st)).
Proof.
  unfold Error, exit, puts, printf. destruct st; simpl.
  unfold set_stdout; simpl. rewrite !append_assoc. reflexivity.
Qed.

(** ** C1: the address check *)

(** C1. [checkPC] on an address [pc] (unsigned): at 0x10000 or above the
    run is ended with exit status 1 after the report "Address overflow ->
    exit" with the line number and the line, and neither the memory image
    nor the touched range is changed; below 0x10000 the call returns,
    [minPC] has become the minimum of its old value and [pc], [maxPC] the
    maximum, and nothing else of the memory image or the cursor has
    changed. *)
Theorem checkPC_bounds (st : AsmState) (pc : Z) (Hpc : 0 <= pc) :
  (RAMSIZE <= pc ->
   exists w, checkPC pc st = Exit 1 w /\
     stdout w = stdout st +:+ "Error in line " +:+ pretty (LineNo st) +:+
                ": Address overflow -> exit" +:+ nl +:+ skip_space (LineBuf st) +:+ nl /\
     RAM w = RAM st /\ minPC w = minPC st /\ maxPC w = maxPC st) /\
  (pc < RAMSIZE ->
   exists st', checkPC pc st = Ok st' /\
     minPC st' = Z.min (minPC st) pc /\ maxPC st' = Z.max (maxPC st) pc /\
     RAM st' = RAM st /\ PC st' = PC st /\ stdout st' = stdout st).
Proof.
  split; intros H.
  - rewrite checkPC_overflow by assumption. rewrite Error_exit.
    eexists; split; [reflexivity|].
    unfold fclose_lst, printf; destruct st as [? ? ? ? ? ? [f|] ? ? ? ? ? ? ? ?]; simpl;
      repeat split; reflexivity.
  - rewrite checkPC_ok by assumption. eexists; split; [reflexivity|].
    destruct st; simpl. repeat split; reflexivity.
Qed.

Lemma checkPC_bounds_witness :
  (exists w, checkPC 0x10000 init_state = Exit 1 w /\ minPC w = 0x10000 /\ maxPC w = 0) /\
  (exists st', checkPC 0x1234 init_state = Ok st' /\ minPC st' = 0x1234 /\ maxPC st' = 0x1234).
Proof.
  split.
  - destruct (checkPC_bounds init_state 0x10000 ltac:(lia)) as [H _].
    destruct (H ltac:(unfold RAMSIZE; lia)) as (w & Hw & _ & _ & Hmin & Hmax).
    exists w. repeat split; assumption.
  - destruct (checkPC_bounds init_state 0x1234 ltac:(lia)) as [_ H].
    destruct (H ltac:(unfold RAMSIZE; lia)) as (s & Hs & Hmin & Hmax & _).
    exists s. repeat split; assumption.
Defined.

(** ** C6: the touched range *)

Lemma checkPC_Ok_inv (pc : Z) (st st' : AsmState) :
  checkPC pc st = Ok st' -> pc < RAMSIZE /\ st' = touch pc st.
Proof.
  intros H. destruct (Z.lt_ge_cases pc RAMSIZE) as [Hlt|Hge].
  - rewrite checkPC_ok in H by assumption. split; [assumption | congruence].
  - rewrite checkPC_overflow, Error_exit in H by assumption. discriminate.
Qed.

(** A sequence of writes is accepted exactly when every address is below
    [RAMSIZE]; the state is then the one obtained by widening the range
    with each address. *)
Lemma checkPCs_total (ws : list Z) (st : AsmState) :
  Forall (fun a => a < RAMSIZE) ws ->
  checkPCs ws st = Ok (fold_left (fun s a => touch a s) ws st).
Proof.
  intros H. revert st. induction H as [|a ws Ha _ IH]; intros st; simpl.
  - reflexivity.
  - rewrite checkPC_ok by assumption. rewrite bind_Ok. apply IH.
Qed.

Lemma range_inv_step (ws : list Z) (a : Z) (st : AsmState) :
  0 <= a < RAMSIZE -> range_inv ws st -> range_inv (ws ++ [a]) (touch a st).
Proof.
  intros Ha Hinv. destruct ws as [|b ws]; simpl in Hinv; unfold range_inv; cbn [app].
  - destruct Hinv as [Hmin Hmax].
    assert (Emin : minPC (touch a st) = a) by (destruct st; simpl in *; lia).
    assert (Emax : maxPC (touch a st) = a) by (destruct st; simpl in *; lia).
    rewrite Emin, Emax. split; [|split; [|intros x H; split]].
    + apply list_elem_of_singleton; reflexivity.
    + apply list_elem_of_singleton; reflexivity.
    + apply list_elem_of_singleton in H; lia.
    + apply list_elem_of_singleton in H; lia.
  - destruct Hinv as (Hmin & Hmax & Hall).
    assert (Emin : minPC (touch a st) = Z.min (minPC st) a) by (destruct st; reflexivity).
    assert (Emax : maxPC (touch a st) = Z.max (maxPC st) a) by (destruct st; reflexivity).
    rewrite Emin, Emax.
    change (b :: ws ++ [a]) with ((b :: ws) ++ [a]).
    split; [|split; [|intros x H; split]].
    + apply elem_of_app. destruct (Z.min_spec (minPC st) a) as [[_ E]|[_ E]]; rewrite E.
      * left; assumption.
      * right; apply list_elem_of_singleton; reflexivity.
    + apply elem_of_app. destruct (Z.max_spec (maxPC st) a) as [[_ E]|[_ E]]; rewrite E.
      * right; apply list_elem_of_singleton; reflexivity.
      * left; assumption.
    + apply elem_of_app in H as [H|H].
      * specialize (Hall _ H). lia.
      * apply list_elem_of_singleton in H. lia.
    + apply elem_of_app in H as [H|H].
      * specialize (Hall _ H). lia.
      * apply list_elem_of_singleton in H. lia.
Qed.

Lemma range_inv_run (ws pre : list Z) (st0 st : AsmState) :
  range_inv pre st0 ->
  Forall (fun a => 0 <= a) ws ->
  checkPCs ws st0 = Ok st ->
  range_inv (pre ++ ws) st.
Proof.
  revert pre st0. induction ws as [|a ws IH]; intros pre st0 Hinv Hnn Hrun; simpl in Hrun.
  - rewrite app_nil_r. congruence.
  - apply bind_Ok_inv in Hrun as (st1 & H1 & Hrest).
    apply checkPC_Ok_inv in H1 as [Hlt ->].
    inversion Hnn as [|? ? Ha Hnn']; subst.
    replace (pre ++ a :: ws) with ((pre ++ [a]) ++ ws) by (rewrite <- app_assoc; reflexivity).
    eapply IH; [ | eassumption | eassumption].
    apply range_inv_step; [lia | assumption].
Qed.

(** C6. Starting from [minPC = 0x10000] and [maxPC = 0], after the
    addresses [ws] have been written (each one through [checkPC]),
    [minPC] is the smallest and [maxPC] the largest address written, and
    [minPC > maxPC] holds exactly when nothing has been written. *)
Theorem touched_range_invariant (st0 st : AsmState) (ws : list Z)
    (Hmin : minPC st0 = RAMSIZE) (Hmax : maxPC st0 = 0)
    (Hnn : Forall (fun a => 0 <= a) ws)
    (Hrun : checkPCs ws st0 = Ok st) :
  (forall a, a ∈ ws -> minPC st <= a <= maxPC st) /\
  (ws <> [] -> minPC st ∈ ws /\ maxPC st ∈ ws) /\
  (minPC st > maxPC st <-> ws = []).
Proof.
  assert (Hinv : range_inv ws st).
  { apply (range_inv_run ws [] st0 st); [split; assumption | assumption | assumption]. }
  destruct ws as [|b ws]; simpl in Hinv.
  - destruct Hinv as [E1 E2]. split; [|split; [|split]].
    + intros a Ha. apply elem_of_nil in Ha. contradiction.
    + intros Hne. contradiction Hne; reflexivity.
    + reflexivity.
    + intros _. rewrite E1, E2. unfold RAMSIZE. lia.
  - destruct Hinv as (H1 & H2 & Hall). split; [|split; [|split]].
    + exact Hall.
    + intros _. split; assumption.
    + intros Hgt. specialize (Hall _ H1). lia.
    + discriminate.
Qed.

Lemma touched_range_invariant_witness :
  exists st, checkPCs [0x8001; 0x8000; 0x8002] init_state = Ok st /\
    (forall a, a ∈ [0x8001; 0x8000; 0x8002] -> minPC st <= a <= maxPC st) /\
    ([0x8001; 0x8000; 0x8002] <> [] ->
     minPC st ∈ [0x8001; 0x8000; 0x8002] /\ maxPC st ∈ [0x8001; 0x8000; 0x8002]) /\
    (minPC st > maxPC st <-> [0x8001; 0x8000; 0x8002] = []).
Proof.
  assert (Hrun : checkPCs [0x8001; 0x8000; 0x8002] init_state =
                 Ok (fold_left (fun s a => touch a s) [0x8001; 0x8000; 0x8002] init_state)).
  { apply checkPCs_total. repeat constructor. }
  eexists. split; [exact Hrun|].
  apply (touched_range_invariant init_state _ [0x8001; 0x8000; 0x8002]
           eq_refl eq_refl ltac:(repeat constructor; lia) Hrun).
Defined.

(** ** The driver loop *)

Section DriverProperties.

Variable MAXLINELENGTH : nat.
Variable InitSymTab : AsmState -> outcome AsmState.
Variable TokenizeLine : string -> AsmState -> outcome AsmState.
Variable CompileLine : AsmState -> outcome AsmState.

#[local] Abbreviation line := (do_line TokenizeLine CompileLine).
#[local] Abbreviation loop := (main_loop TokenizeLine CompileLine).
#[local] Abbreviation step := (sm_step TokenizeLine CompileLine).
#[local] Abbreviation front := (assembly MAXLINELENGTH InitSymTab TokenizeLine CompileLine).
#[local] Abbreviation run := (main MAXLINELENGTH InitSymTab TokenizeLine CompileLine).

Lemma main_loop_signalled (lines : list string) (st : AsmState) :
  reachedEnd st = true -> loop lines st = Ok st.
Proof. intros H. destruct lines; simpl; rewrite H; reflexivity. Qed.

Lemma main_loop_nil (st : AsmState) : loop [] st = Ok st.
Proof. simpl. destruct (reachedEnd st); reflexivity. Qed.

Lemma main_loop_cons (l : string) (rest : list string) (st : AsmState) :
  reachedEnd st = false ->
  loop (l :: rest) st = (line l st ≫= loop rest).
Proof. intros H. simpl. rewrite H. reflexivity. Qed.

(** What one turn of the loop computes, in terms of its parts. *)
Lemma do_line_Ok_inv (l : string) (st st' : AsmState) :
  line l st = Ok st' ->
  exists t st1 st2 st3,
    chop (c_str l) = Some t /\
    TokenizeLine t (set_LineBuf t st) = Ok st1 /\
    CompileLine st1 = Ok st2 /\
    (if is_open (lstfile st2) then listOneLine (PC st) (PC st2) (LineBuf st2) st2
     else Ok st2) = Ok st3 /\
    st' = set_LineNo (LineNo st3 + 1) st3.
Proof.
  unfold do_line. intros H.
  destruct (chop (c_str l)) as [t|]; [|discriminate].
  apply bind_Ok_inv in H as (st1 & H1 & H).
  apply bind_Ok_inv in H as (st2 & H2 & H).
  apply bind_Ok_inv in H as (st3 & H3 & H).
  exists t, st1, st2, st3.
  split; [reflexivity|]. split; [exact H1|]. split; [exact H2|].
  split; [exact H3|]. congruence.
Qed.

Lemma do_line_path (l : string) (ls : list string) (st st' : AsmState) :
  reachedEnd st = false ->
  line l st = Ok st' ->
  rtc step (Reading, l :: ls, st) (Reading, ls, st').
Proof.
  intros Hre H. apply do_line_Ok_inv in H as (t & st1 & st2 & st3 & Hc & H1 & H2 & H3 & ->).
  eapply rtc_l; [apply sm_read; eassumption|].
  eapply rtc_l.
  { apply sm_tokenize. exact H1. }
  eapply rtc_l; [eapply sm_encode; eassumption|].
  apply rtc_refl.
Qed.

Lemma main_loop_path (lines : list string) (st st' : AsmState) :
  loop lines st = Ok st' ->
  exists rest, rtc step (Reading, lines, st) (End, rest, st').
Proof.
  revert st. induction lines as [|l ls IH]; intros st H.
  - rewrite main_loop_nil in H. injection H as <-.
    exists []. apply rtc_once.
    destruct (reachedEnd st) eqn:E; [apply sm_signal | apply sm_eof]; assumption.
  - destruct (reachedEnd st) eqn:E.
    + rewrite main_loop_signalled in H by assumption. injection H as <-.
      exists (l :: ls). apply rtc_once, sm_signal; assumption.
    + rewrite main_loop_cons in H by assumption.
      apply bind_Ok_inv in H as (st1 & H1 & H2).
      destruct (IH _ H2) as [rest Hrest]. exists rest.
      etrans; [apply do_line_path; eassumption | exact Hrest].
Qed.

Lemma sm_End_final (ls : list string) (s : AsmState) (c : config) :
  ~ step (End, ls, s) c.
Proof. intros H. inversion H. Qed.

Lemma sm_End_rtc (ls : list string) (s : AsmState) (c : config) :
  rtc step (End, ls, s) c -> c = (End, ls, s).
Proof.
  intros H. inversion H as [|? y ? Hstep _]; subst; [reflexivity|].
  exfalso. eapply sm_End_final; eassumption.
Qed.

Lemma path_main_loop (lines rest : list string) (st st' : AsmState) :
  rtc step (Reading, lines, st) (End, rest, st') ->
  loop lines st = Ok st'.
Proof.
  revert st. induction lines as [|l ls IH]; intros st H.
  - rewrite main_loop_nil.
    inversion H as [|? y ? Hstep Hrtc]; subst.
    inversion Hstep; subst; apply sm_End_rtc in Hrtc; congruence.
  - inversion H as [|? y ? Hstep Hrtc]; subst.
    inversion Hstep as [? ? Hre|? Hre|? ? ? t Hre Hchop| |]; subst.
    + apply sm_End_rtc in Hrtc. injection Hrtc as -> ->.
      apply main_loop_signalled; assumption.
    + inversion Hrtc as [|? y1 ? Hs1 Hr1]; subst.
      inversion Hs1 as [| | |? ? ? st1 Htok|]; subst.
      inversion Hr1 as [|? y2 ? Hs2 Hr2]; subst.
      inversion Hs2 as [| | | |? ? ? st2 st3 Hcomp Hlist]; subst.
      rewrite main_loop_cons by assumption.
      unfold do_line. rewrite Hchop.
      replace (LineBuf (set_LineBuf t st)) with t in * by (destruct st; reflexivity).
      rewrite Htok, bind_Ok, Hcomp, bind_Ok.
      replace (PC (set_LineBuf t st)) with (PC st) in Hlist by (destruct st; reflexivity).
      rewrite Hlist, !bind_Ok.
      apply IH. exact Hr2.
Qed.

Lemma main_loop_stops (lines more : list string) (st st' : AsmState) :
  loop lines st = Ok st' ->
  reachedEnd st' = true ->
  loop (lines ++ more) st = Ok st'.
Proof.
  revert st. induction lines as [|l ls IH]; intros st H Hend.
  - rewrite main_loop_nil in H. injection H as <-.
    apply main_loop_signalled; assumption.
  - destruct (reachedEnd st) eqn:E.
    + rewrite main_loop_signalled in * by assumption. assumption.
    + change ((l :: ls) ++ more) with (l :: (ls ++ more)).
      rewrite main_loop_cons in * by assumption.
      apply bind_Ok_inv in H as (st1 & H1 & H2).
      rewrite H1, bind_Ok. apply IH; assumption.
Qed.

(** C7. The loop of [main] is the state machine
    [Reading -> (Tokenize -> Encode)* -> End]: it returns a state exactly
    when the machine has a path from [Reading] on the lines of the file
    to [End] with that state, each line going through [Tokenize] and
    [Encode] before the next one is read; [End] has no successor; and
    once a run over [lines] has ended with [reachedEnd] set, any further
    lines in the file change nothing. *)
Theorem driver_state_machine (lines : list string) (st st' : AsmState) :
  (loop lines st = Ok st' <->
   exists rest, rtc step (Reading, lines, st) (End, rest, st')) /\
  (forall ls s c, ~ step (End, ls, s) c) /\
  (loop lines st = Ok st' -> reachedEnd st' = true ->
   forall more, loop (lines ++ more) st = Ok st').
Proof.
  split; [split|split].
  - apply main_loop_path.
  - intros [rest H]. eapply path_main_loop; eassumption.
  - apply sm_End_final.
  - intros H Hend more. apply main_loop_stops; assumption.
Qed.

(** ** C9: the end-of-line marker *)

Lemma c_str_snoc_inv (body : string) (c : ascii) :
  c_str (body +:+ String c "") = body +:+ String c "" -> c_str body = body.
Proof.
  induction body as [|x body IH]; [reflexivity|].
  rewrite !append_cons. simpl. destruct (is_nul x); [discriminate|].
  intros H. injection H as H. now rewrite IH.
Qed.

Lemma chop_snoc (body : string) (c : ascii) : chop (body +:+ String c "") = Some body.
Proof.
  induction body as [|x body IH]; [reflexivity|].
  rewrite !append_cons. simpl. rewrite IH.
  destruct (body +:+ String c "") eqn:E; [|reflexivity].
  destruct body; discriminate.
Qed.

Lemma fgets_from_whole (k : nat) (s : string) :
  no_newline s = true -> (String.length s <= k)%nat -> fgets_from k s = (s, "").
Proof.
  revert k. induction s as [|x s IH]; intros k Hnl Hlen.
  - destruct k; reflexivity.
  - destruct k as [|k]; [simpl in Hlen; lia|].
    unfold no_newline in Hnl. simpl in Hnl. apply andb_true_iff in Hnl as [Hx Hs].
    simpl. apply negb_true_iff in Hx. rewrite Hx.
    rewrite IH; [reflexivity | exact Hs | simpl in Hlen; lia].
Qed.

(** [fgets_all] lists what the successive calls of [fgets] return. *)
Lemma fgets_all_room (n k : nat) (inp : string) :
  (1 <= k)%nat ->
  fgets_all n k inp =
  match inp with
  | EmptyString => []
  | _ => let '(l, rest) := fgets_from k inp in l :: fgets_all n (n - 1) rest
  end.
Proof.
  revert k. induction inp as [|c r IH]; intros k Hk; [reflexivity|].
  destruct k as [|k]; [lia|].
  cbn [fgets_all fgets_from]. destruct (is_nl c); [reflexivity|].
  destruct k as [|k].
  - cbn. destruct r; reflexivity.
  - replace (false || (S (S k) =? 1)%nat) with false by reflexivity.
    replace (S (S k) - 1)%nat with (S k) by lia. rewrite IH by lia.
    destruct r as [|c' r']; [reflexivity|].
    destruct (fgets_from (S k) (String c' r')) as [l rest]. reflexivity.
Qed.

Lemma fgets_all_unfold (n : nat) (inp : string) :
  (2 <= n)%nat ->
  fgets_all n (n - 1) inp =
  match fgets n inp with
  | None => []
  | Some (l, rest) => l :: fgets_all n (n - 1) rest
  end.
Proof.
  intros Hn. rewrite fgets_all_room by lia.
  destruct inp as [|c r]; [reflexivity|]. unfold fgets.
  destruct (fgets_from (n - 1) (String c r)) as [l rest]. reflexivity.
Qed.

(** C9. For a string [body] followed by one more character [c] that
    [fgets] has returned (no NUL inside), the loop body overwrites [c]:
    [TokenizeLine] is given [body], [LineBuf] holds [body], whatever [c]
    is.  A last line of the file that has no newline is returned whole by
    [fgets], so it is its own last character that is lost. *)
Theorem last_character_overwritten (body : string) (c : ascii) (st : AsmState)
    (Hnul : c_str (body +:+ String c "") = body +:+ String c "") :
  line (body +:+ String c "") st =
    (st1 ← TokenizeLine body (set_LineBuf body st);
     st2 ← CompileLine st1;
     st3 ← (if is_open (lstfile st2)
            then listOneLine (PC st) (PC st2) (LineBuf st2) st2 else Ok st2);
     Ok (set_LineNo (LineNo st3 + 1) st3)) /\
  LineBuf (set_LineBuf body st) = body /\
  (no_newline (body +:+ String c "") = true ->
   (String.length (body +:+ String c "") < MAXLINELENGTH)%nat ->
   fgets MAXLINELENGTH (body +:+ String c "") = Some (body +:+ String c "", "")).
Proof.
  split; [|split].
  - unfold do_line. rewrite Hnul, chop_snoc. reflexivity.
  - destruct st; reflexivity.
  - intros Hnl Hlen. unfold fgets.
    destruct (body +:+ String c "") eqn:E; [destruct body; discriminate|].
    rewrite <- E in *. rewrite fgets_from_whole; [reflexivity | exact Hnl | lia].
Qed.

(** ** C8, C10 and the end of a run *)

Lemma keeps_image_refl (st : AsmState) : keeps_image st (Ok st).
Proof. reflexivity. Qed.

Lemma image_fclose_lst (st : AsmState) : image (fclose_lst st) = image st.
Proof. unfold fclose_lst. destruct st as [? ? ? ? ? ? [f|] ? ? ? ? ? ? ? ?]; reflexivity. Qed.

Lemma image_printf (s : string) (st : AsmState) : image (printf s st) = image st.
Proof. destruct st; reflexivity. Qed.

Lemma image_write_file (n : string) (c : content) (st : AsmState) :
  image (write_file n c st) = image st.
Proof. destruct st; reflexivity. Qed.

Lemma keeps_image_exit (c : Z) (st : AsmState) : keeps_image st (exit c st).
Proof. simpl. apply image_fclose_lst. Qed.

Lemma keeps_image_bind (st : AsmState) (m : outcome AsmState)
    (k : AsmState -> outcome AsmState) :
  keeps_image st m ->
  (forall st', image st' = image st -> keeps_image st' (k st')) ->
  keeps_image st (m ≫= k).
Proof.
  intros Hm Hk. destruct m as [s|c w| |]; simpl in *; try exact I; try exact Hm.
  specialize (Hk s Hm). destruct (k s); simpl in *; try exact I; congruence.
Qed.

Lemma report_range_keeps (st : AsmState) : keeps_image st (report_range st).
Proof.
  unfold report_range.
  destruct (listing st || negb (verboseMode st =? 0)); [|reflexivity].
  destruct (minPC st <=? maxPC st); simpl.
  - apply image_printf.
  - rewrite image_fclose_lst. apply image_printf.
Qed.

Lemma set_ext_cases (buf : string) (n : nat) (ext : string) :
  set_ext buf n ext = Undef \/ exists s, set_ext buf n ext = Ok s.
Proof.
  unfold set_ext. destruct (n <? 4)%nat; [left; reflexivity|].
  right. destruct (_ <=? _)%nat; eauto.
Qed.

Lemma emit_files_keeps (o : Options) (e : Env) (name : string) (st : AsmState) :
  keeps_image st (emit_files o e name st).
Proof.
  unfold emit_files.
  set (start := if offset o <? 0 then minPC st else offset o).
  set (size := if offset o <? 0 then u32 (maxPC st + 1 - minPC st)
               else u32 (maxPC st + 1 - offset o)).
  assert (H1 : match
             (if bin o then
                name0 ← set_ext name (String.length name)
                          (if start =? 0x100 then ".com" else ".bin");
                if fopen_w e name0 then
                  bytes ← ram_range start size st;
                  Ok (name0, write_file name0 (Bytes bytes) st)
                else exit 1 st
              else Ok (name, st))
           with
           | Ok (_, s) => image s = image st
           | Exit _ w => image w = image st
           | _ => True
           end).
  { destruct (bin o); [|reflexivity].
    destruct (set_ext_cases name (String.length name)
                (if start =? 0x100 then ".com" else ".bin")) as [->|[n0 ->]];
      simpl; [exact I|].
    destruct (fopen_w e n0); simpl; [|apply image_fclose_lst].
    unfold ram_range. destruct (_ <=? _); simpl; [|exact I]. apply image_write_file. }
  destruct (if bin o then _ else _) as [[n1 s1]|c w| |]; simpl; try exact I; try exact H1.
  assert (H2 : match
             (if hex o then
                name0 ← set_ext n1 (String.length name) ".hex";
                if fopen_w e name0 then
                  bytes ← ram_range start size s1;
                  Ok (name0, write_file name0 (IHex start bytes) s1)
                else exit 1 s1
              else Ok (n1, s1))
           with
           | Ok (_, s) => image s = image st
           | Exit _ w => image w = image st
           | _ => True
           end).
  { destruct (hex o); [|exact H1].
    destruct (set_ext_cases n1 (String.length name) ".hex") as [->|[n0 ->]];
      simpl; [exact I|].
    destruct (fopen_w e n0); simpl; [|rewrite image_fclose_lst; exact H1].
    unfold ram_range. destruct (_ <=? _); simpl; [|exact I].
    rewrite image_write_file. exact H1. }
  destruct (if hex o then _ else _) as [[n2 s2]|c w| |]; simpl; try exact I; try exact H2.
  destruct (cArray o); [|exact H2].
  destruct (set_ext_cases n2 (String.length name) ".h") as [->|[n0 ->]];
    simpl; [exact I|].
  destruct (fopen_w e n0); simpl; [|rewrite image_fclose_lst; exact H2].
  unfold ram_range. destruct (_ <=? _); simpl; [|exact I].
  rewrite image_write_file. exact H2.
Qed.

(** How a run of [main] ends, in terms of its first part. *)
Lemma main_after_assembly (o : Options) (e : Env) :
  match front o e with
  | Ok (name, st) => keeps_image st (run o e)
  | Exit c w => run o e = Exit c w
  | Undef => run o e = Undef
  | Loop => run o e = Loop
  end.
Proof.
  unfold main. destruct (front o e) as [[name st]|c w| |]; try reflexivity.
  rewrite bind_Ok.
  apply keeps_image_bind; [apply report_range_keeps|].
  intros st' Hst'.
  destruct (negb (String.eqb name "")).
  - assert (H := emit_files_keeps o e name st').
    destruct (emit_files o e name st') as [s|c w| |]; simpl in *; try exact I; try exact H.
    rewrite image_fclose_lst. exact H.
  - apply keeps_image_exit.
Qed.

Lemma assembly_offset (o : Options) (e : Env) (k : Z) :
  front (set_offset k o) e = front o e.
Proof. reflexivity. Qed.

(** C8. Two runs that differ only in the offset have the same assembly
    part, with the same outcome and the same state at its end; and when
    both runs end, they leave the same bytes in the memory image and the
    same [minPC] and [maxPC]. *)
Theorem offset_noninterference (o : Options) (e : Env) (k1 k2 : Z) :
  front (set_offset k1 o) e = front (set_offset k2 o) e /\
  (forall c1 w1 c2 w2,
      run (set_offset k1 o) e = Exit c1 w1 ->
      run (set_offset k2 o) e = Exit c2 w2 ->
      RAM w1 = RAM w2 /\ minPC w1 = minPC w2 /\ maxPC w1 = maxPC w2).
Proof.
  split; [rewrite !assembly_offset; reflexivity|].
  intros c1 w1 c2 w2 H1 H2.
  assert (A1 := main_after_assembly (set_offset k1 o) e).
  assert (A2 := main_after_assembly (set_offset k2 o) e).
  rewrite assembly_offset in A1, A2.
  destruct (front o e) as [[name st]|c w| |].
  - rewrite H1 in A1. rewrite H2 in A2. simpl in A1, A2.
    unfold image in A1, A2.
    assert (E : (RAM w1, minPC w1, maxPC w1) = (RAM w2, minPC w2, maxPC w2)) by congruence.
    injection E as -> -> ->. repeat split; reflexivity.
  - assert (E : @Exit AsmState c1 w1 = Exit c2 w2) by congruence.
    injection E as -> ->. repeat split; reflexivity.
  - congruence.
  - congruence.
Qed.

(** C10. When the assembly has come to its end without a byte written
    ([minPC > maxPC]) and listing or verbose mode is on, the run prints
    " No data created" and ends with exit status 1; no output file is
    written: the files are those present at the end of the assembly (the
    listing, when there is one). *)
Theorem no_data_created (o : Options) (e : Env) (name : string) (st : AsmState)
    (Hasm : front o e = Ok (name, st))
    (Hmode : listing st = true \/ verboseMode st <> 0)
    (Hempty : minPC st > maxPC st) :
  exists w, run o e = Exit 1 w /\
    stdout w = stdout st +:+ " No data created" +:+ nl /\
    disk w = disk (fclose_lst st) /\
    image w = image st.
Proof.
  unfold main. rewrite Hasm, bind_Ok. unfold report_range.
  assert (E1 : listing st || negb (verboseMode st =? 0) = true).
  { destruct Hmode as [->|Hv]; [reflexivity|].
    apply orb_true_iff. right. apply negb_true_iff. apply Z.eqb_neq. exact Hv. }
  rewrite E1.
  destruct (Z.leb_spec (minPC st) (maxPC st)) as [Hle|_]; [lia|].
  eexists. split; [reflexivity|].
  unfold fclose_lst, printf, image.
  destruct st as [? ? ? ? ? ? [f|] ? ? ? ? ? ? ? ?]; simpl; repeat split; reflexivity.
Qed.

(** ** C4: fatal errors *)

Lemma main_loop_fatal (pre : list string) (l : string) (rest : list string)
    (st st0 : AsmState) (c : Z) (w : AsmState) :
  loop pre st = Ok st0 ->
  reachedEnd st0 = false ->
  line l st0 = Exit c w ->
  loop (pre ++ l :: rest) st = Exit c w.
Proof.
  revert st. induction pre as [|p pre IH]; intros st Hpre Hre Hl.
  - rewrite main_loop_nil in Hpre. injection Hpre as ->.
    simpl app. rewrite main_loop_cons by assumption. rewrite Hl. reflexivity.
  - destruct (reachedEnd st) eqn:E.
    + rewrite main_loop_signalled in Hpre by assumption. congruence.
    + change ((p :: pre) ++ l :: rest) with (p :: (pre ++ l :: rest)).
      rewrite main_loop_cons in * by assumption.
      apply bind_Ok_inv in Hpre as (st1 & H1 & H2).
      rewrite H1, bind_Ok. apply IH; assumption.
Qed.

(** C4 (amended). A fatal error reported through [Error]: [Error]
    prints the line number and the current line from its first non-blank
    character on (blanks at its end are kept), and ends the process with
    exit status 1; the only file it leaves is the listing file, when one
    is open, with what has been listed so far.  An exit in the tokenizer
    or the encoder ends the loop at that line, and an exit during the
    assembly is the end of [main]: no binary, hex or C array file is
    written.  An input file that cannot be opened is not reported through
    [Error]: [main] returns 1 before anything is read, nothing is printed
    on standard output (no line number, no line) and no file exists. *)
Theorem fatal_error_report (s : string) (st : AsmState) :
  (exists w, @Error AsmState s st = Exit 1 w /\
     stdout w = stdout st +:+ "Error in line " +:+ pretty (LineNo st) +:+ ": " +:+ s +:+ nl +:+
                skip_space (LineBuf st) +:+ nl /\
     disk w = disk st ++ match lstfile st with
                         | Some f => [(fname f, Text (fdata f))]
                         | None => []
                         end /\
     image w = image st) /\
  (forall pre l rest st0 st1 c w,
      loop pre st0 = Ok st1 -> reachedEnd st1 = false -> line l st1 = Exit c w ->
      loop (pre ++ l :: rest) st0 = Exit c w) /\
  (forall o e c w, front o e = Exit c w -> run o e = Exit c w) /\
  (forall o e, infile e = None ->
     exists w, run o e = Exit 1 w /\ stdout w = "" /\ disk w = [] /\ lstfile w = None).
Proof.
  split; [|split; [|split]].
  - rewrite Error_exit. eexists. split; [reflexivity|].
    unfold fclose_lst, printf, image.
    destruct st as [? ? ? ? ? ? [f|] ? ? ? ? ? ? ? ?]; simpl; repeat split;
      try reflexivity; rewrite app_nil_r; reflexivity.
  - intros. eapply main_loop_fatal; eassumption.
  - intros o e c w H. unfold main. rewrite H. reflexivity.
  - intros o e H. unfold main, assembly. rewrite H.
    eexists. split; [reflexivity|]. repeat split.
Qed.

End DriverProperties.

(** ** The cross reference *)

Lemma list__open (t : string) (st : AsmState) (f : FILE) :
  lstfile st = Some f ->
  list_ t st = set_lstfile (Some (mkFILE (fname f) (fdata f +:+ t))) st.
Proof. intros H. unfold list_. rewrite H. reflexivity. Qed.

Lemma xref_symbol_text (s : Symbol) (st : AsmState) (f : FILE) :
  lstfile st = Some f ->
  xref_symbol s st = set_lstfile (Some (mkFILE (fname f) (fdata f +:+ xref_text s))) st.
Proof.
  intros H. unfold xref_symbol, xref_text.
  destruct (s_recalc s); [destruct (s_type s =? 0)|]; try (apply list__open; assumption).
  rewrite append_nil_r. destruct st, f; simpl in *. subst. reflexivity.
Qed.

Lemma xref_fold_text (l : list Symbol) (st : AsmState) (f : FILE) :
  lstfile st = Some f ->
  fold_left (fun acc s => xref_symbol s acc) l st =
  set_lstfile (Some (mkFILE (fname f) (fdata f +:+ xref_texts l))) st.
Proof.
  revert st f. induction l as [|s l IH]; intros st f H; simpl.
  - rewrite append_nil_r. destruct st, f; simpl in *. subst. reflexivity.
  - rewrite (xref_symbol_text s st f H).
    rewrite (IH _ (mkFILE (fname f) (fdata f +:+ xref_text s))) by (destruct st; reflexivity).
    simpl. rewrite append_assoc. destruct st; reflexivity.
Qed.

Lemma fold_buckets (bs : list (list Symbol)) (st : AsmState) :
  fold_left (fun acc bucket => fold_left (fun acc' s => xref_symbol s acc') bucket acc) bs st =
  fold_left (fun acc s => xref_symbol s acc) (concat bs) st.
Proof.
  revert st. induction bs as [|b bs IH]; intros st; simpl; [reflexivity|].
  rewrite fold_left_app. apply IH.
Qed.

Lemma xref_texts_app (l1 l2 : list Symbol) :
  xref_texts (l1 ++ l2) = xref_texts l1 +:+ xref_texts l2.
Proof.
  induction l1 as [|s l1 IH]; simpl; [reflexivity|].
  rewrite IH, append_assoc. reflexivity.
Qed.

(** The listing file that [main] closes after the cross reference. *)
Lemma cross_reference_disk (st : AsmState) (f : FILE) :
  lstfile st = Some f ->
  disk (cross_reference st) =
  disk st ++ [(fname f, Text (fdata f +:+ nl +:+ "Cross reference" +:+ nl +:+ nl +:+
                              xref_texts (concat (take 256 (SymTab st)))))].
Proof.
  intros H. unfold cross_reference.
  rewrite (list__open _ st f H).
  replace (SymTab (set_lstfile _ st)) with (SymTab st) by (destruct st; reflexivity).
  rewrite fold_buckets.
  rewrite (xref_fold_text _ _ (mkFILE (fname f) (fdata f +:+ nl +:+ "Cross reference" +:+ nl +:+ nl)))
    by (destruct st; reflexivity).
  unfold fclose_lst. destruct st; simpl. rewrite !append_assoc. reflexivity.
Qed.

Lemma cross_reference_image (st : AsmState) : image (cross_reference st) = image st.
Proof.
  unfold cross_reference. rewrite image_fclose_lst, fold_buckets.
  assert (Hl : forall t s, image (list_ t s) = image s).
  { intros t s. unfold list_. destruct s as [? ? ? ? ? ? [f|] ? ? ? ? ? ? ? ?]; reflexivity. }
  assert (Hx : forall l s, image (fold_left (fun acc x => xref_symbol x acc) l s) = image s).
  { induction l as [|x l IH]; intros s; simpl; [reflexivity|].
    rewrite IH. unfold xref_symbol.
    destruct (s_recalc x); [destruct (s_type x =? 0)|]; try apply Hl. reflexivity. }
  rewrite Hx. apply Hl.
Qed.

(** ** The modelled engine *)

Section EngineProperties.

Import SpecModel.

Variable hash : string -> nat.

#[local] Abbreviation lookup := (lookup_sym hash).
#[local] Abbreviation store := (store_sym hash).
#[local] Abbreviation enc := (encode hash).
#[local] Abbreviation def := (define hash).

Lemma find_put_sym (s : Symbol) (b : list Symbol) :
  find_sym (s_name s) (put_sym s b) = Some s.
Proof.
  induction b as [|x b IH]; simpl.
  - rewrite String.eqb_refl. reflexivity.
  - destruct (String.eqb (s_name x) (s_name s)) eqn:E; simpl.
    + rewrite String.eqb_refl. reflexivity.
    + rewrite E. exact IH.
Qed.

Lemma bucket_lt (name : string) (tab : list (list Symbol)) :
  length tab = 256%nat -> (bucket_of hash name < length tab)%nat.
Proof. intros ->. unfold bucket_of. apply Nat.mod_upper_bound. lia. Qed.

Lemma lookup_store (s : Symbol) (tab : list (list Symbol)) :
  length tab = 256%nat -> lookup (s_name s) (store s tab) = Some s.
Proof.
  intros Hlen. unfold lookup_sym, store_sym.
  destruct (lookup_lt_is_Some_2 tab (bucket_of hash (s_name s)) (bucket_lt _ _ Hlen)) as [b Hb].
  rewrite list_lookup_alter_eq, Hb. simpl. apply find_put_sym.
Qed.

Lemma length_store (s : Symbol) (tab : list (list Symbol)) :
  length (store s tab) = length tab.
Proof. unfold store_sym. apply length_alter. Qed.

Lemma poke_ok (a b : Z) (st : AsmState) :
  a < RAMSIZE ->
  poke a b st = Ok (set_RAM (<[Z.to_nat a := b]> (RAM st)) (touch a st)).
Proof.
  intros Ha. unfold poke. rewrite checkPC_ok by assumption.
  rewrite bind_Ok. destruct st; reflexivity.
Qed.

Lemma emit_ok (b : Z) (st : AsmState) :
  PC st < RAMSIZE ->
  emit b st = Ok (set_PC (PC st + 1)
                    (set_RAM (<[Z.to_nat (PC st) := b]> (RAM st)) (touch (PC st) st))).
Proof.
  intros Ha. unfold emit. rewrite poke_ok by assumption.
  rewrite bind_Ok. destruct st; reflexivity.
Qed.

(** *** Forward references *)

Lemma encode_label_only (l : string) (st : AsmState) :
  enc (mkTokens (Some l) None []) st = def l (PC st) Label st.
Proof.
  unfold encode. cbn [t_label t_mnemonic].
  destruct (define hash l (PC st) Label st); reflexivity.
Qed.

Lemma evaluate_symbol_LABEL (st : AsmState) :
  evaluate hash "LABEL" st = eval_expr hash (ESym "LABEL") st.
Proof. reflexivity. Qed.

Lemma evaluate_symbol_TARGET (st : AsmState) :
  evaluate hash "TARGET" st = eval_expr hash (ESym "TARGET") st.
Proof. reflexivity. Qed.

Lemma jp_forward (st : AsmState) (X : Z) :
  length (SymTab st) = 256%nat ->
  lookup "LABEL" (SymTab st) = None ->
  0 <= X -> X + 2 < RAMSIZE ->
  exists s, enc jp_label (set_PC X st) = Ok s /\
    RAM s = <[Z.to_nat (X + 2) := 0]>
              (<[Z.to_nat (X + 1) := 0]> (<[Z.to_nat X := 0xC3]> (RAM st))) /\
    PC s = X + 3 /\
    SymTab s = store (mkSymbol "LABEL" 0 0 false Label [mkFixup (X + 1) 2 Absolute 0])
                 (store (fresh "LABEL") (SymTab st)).
Proof.
  intros Hlen Hfresh HX0 HX2.
  unfold encode. cbn. rewrite evaluate_symbol_LABEL. cbn [eval_expr]. unfold lookupOrCreate.
  cbn [SymTab set_nextPC set_PC]. rewrite Hfresh. cbn.
  rewrite emit_ok by (cbn; lia). cbn.
  change (Z.to_nat 2) with 2%nat. cbn [replicate emit_bytes].
  rewrite emit_ok by (cbn; lia). cbn.
  rewrite emit_ok by (cbn; lia). cbn.
  unfold addFixup, lookupOrCreate.
  cbn [SymTab set_PC set_RAM touch set_maxPC set_minPC set_SymTab].
  rewrite (lookup_store (mkSymbol "LABEL" 0 0 false Label [])) by assumption.
  cbn. eexists. split; [reflexivity|]. cbn.
  replace (X + 1 + 1 + 1) with (X + 3) by lia. replace (X + 1 + 1) with (X + 2) by lia.
  repeat split; reflexivity.
Qed.

Lemma define_pending (name : string) (v : Z) (st : AsmState) (s : Symbol) :
  lookup name (SymTab st) = Some s ->
  s_defined s = false ->
  def name v Label st =
  (st3 ← drain v (s_recalc s)
          (set_SymTab (store (mkSymbol name v (s_type s) true Label (s_recalc s))
                             (SymTab st)) st);
   Ok (set_SymTab (store (mkSymbol name v (s_type s) true Label []) (SymTab st3)) st3)).
Proof.
  intros Hl Hd. unfold define, lookupOrCreate. rewrite Hl. rewrite Hd. reflexivity.
Qed.

Lemma define_fresh (name : string) (v : Z) (st : AsmState) :
  lookup name (SymTab st) = None ->
  exists s, def name v Label st = Ok s /\ RAM s = RAM st /\
    SymTab s = store (mkSymbol name v 0 true Label [])
                 (store (mkSymbol name v 0 true Label []) (store (fresh name) (SymTab st))).
Proof.
  intros Hl. unfold define, lookupOrCreate. rewrite Hl. cbn.
  eexists; split; [reflexivity|]. split; destruct st; reflexivity.
Qed.

Lemma jp_backward (st : AsmState) (X : Z) (s : Symbol) :
  lookup "LABEL" (SymTab st) = Some s ->
  s_defined s = true ->
  0 <= X -> X + 2 < RAMSIZE ->
  exists s', enc jp_label (set_PC X st) = Ok s' /\
    RAM s' = <[Z.to_nat (X + 2) := s_val s / 256 mod 256]>
               (<[Z.to_nat (X + 1) := s_val s mod 256]> (<[Z.to_nat X := 0xC3]> (RAM st))) /\
    PC s' = X + 3.
Proof.
  intros Hl Hd HX0 HX2.
  unfold encode. cbn. rewrite evaluate_symbol_LABEL. cbn [eval_expr]. unfold lookupOrCreate.
  cbn [SymTab set_nextPC set_PC]. rewrite Hl. rewrite Hd. cbn.
  rewrite emit_ok by (cbn; lia). cbn.
  rewrite emit_ok by (cbn; lia). cbn.
  rewrite emit_ok by (cbn; lia). cbn.
  eexists. split; [reflexivity|]. cbn.
  replace (X + 1 + 1 + 1) with (X + 3) by lia. replace (X + 1 + 1) with (X + 2) by lia.
  rewrite Z.add_0_r.
  repeat split; reflexivity.
Qed.

(** C2. With [LABEL] not yet in the table, a jump [JP LABEL] assembled
    at address [X] and the definition of [LABEL] at address [A] leave the
    same bytes in the memory image in either order: the opcode 0xC3 at
    [X], then the low and the high byte of [A]. *)
Theorem forward_reference_order (st : AsmState) (X A : Z)
    (Htab : length (SymTab st) = 256%nat)
    (Hfresh : lookup "LABEL" (SymTab st) = None)
    (Hram : RAMSIZE <= Z.of_nat (length (RAM st)))
    (HX : 0 <= X /\ X + 2 < RAMSIZE)
    (HA : 0 <= A < RAMSIZE) :
  exists s1 s2,
    (st1 ← enc jp_label (set_PC X st); enc label_def (set_PC A st1)) = Ok s1 /\
    (st1 ← enc label_def (set_PC A st); enc jp_label (set_PC X st1)) = Ok s2 /\
    RAM s1 = RAM s2 /\
    RAM s1 !! Z.to_nat X = Some 0xC3 /\
    RAM s1 !! Z.to_nat (X + 1) = Some (A mod 256) /\
    RAM s1 !! Z.to_nat (X + 2) = Some (A / 256 mod 256).
Proof.
  destruct HX as [HX0 HX2].
  destruct (jp_forward st X Htab Hfresh HX0 HX2) as (f1 & Ef1 & Rf1 & Pf1 & Sf1).
  rewrite Ef1, bind_Ok. unfold label_def. rewrite encode_label_only.
  assert (Lf1 : lookup "LABEL" (SymTab (set_PC A f1)) =
                Some (mkSymbol "LABEL" 0 0 false Label [mkFixup (X + 1) 2 Absolute 0])).
  { replace (SymTab (set_PC A f1)) with (SymTab f1) by (destruct f1; reflexivity).
    rewrite Sf1.
    apply (lookup_store (mkSymbol "LABEL" 0 0 false Label [mkFixup (X + 1) 2 Absolute 0])).
    rewrite length_store. exact Htab. }
  rewrite (define_pending _ _ _ _ Lf1 eq_refl).
  cbn [s_recalc s_type drain]. unfold apply_fixup, encode_value.
  cbn [encoding width location constantOffset Z.eqb Pos.eqb].
  rewrite !bind_Ok. cbn [poke_bytes].
  rewrite poke_ok by lia. rewrite bind_Ok.
  rewrite poke_ok by lia. rewrite !bind_Ok.
  assert (Hfresh' : lookup "LABEL" (SymTab (set_PC A st)) = None)
    by (destruct st; exact Hfresh).
  destruct (define_fresh "LABEL" A (set_PC A st) Hfresh') as (b1 & Eb1 & Rb1 & Sb1).
  rewrite encode_label_only.
  replace (PC (set_PC A st)) with A by (destruct st; reflexivity).
  replace (PC (set_PC A f1)) with A by (destruct f1; reflexivity).
  rewrite Eb1, bind_Ok.
  assert (Lb1 : lookup "LABEL" (SymTab b1) = Some (mkSymbol "LABEL" A 0 true Label [])).
  { rewrite Sb1. apply (lookup_store (mkSymbol "LABEL" A 0 true Label [])).
    rewrite !length_store. destruct st; exact Htab. }
  destruct (jp_backward b1 X _ Lb1 eq_refl HX0 HX2) as (b2 & Eb2 & Rb2 & Pb2).
  rewrite Eb2.
  eexists. eexists. split; [reflexivity|]. split; [reflexivity|].
  cbn [RAM set_SymTab set_RAM touch set_maxPC set_minPC set_PC].
  replace (RAM (set_PC A f1)) with (RAM f1) by (destruct f1; reflexivity).
  rewrite Rf1, Rb2, Rb1. cbn [s_val].
  replace (RAM (set_PC A st)) with (RAM st) by (destruct st; reflexivity).
  replace (A + 0) with A by lia.
  replace (X + 1 + 1) with (X + 2) by lia.
  assert (Hne : Z.to_nat (X + 1) <> Z.to_nat (X + 2)) by lia.
  assert (Hne0 : Z.to_nat X <> Z.to_nat (X + 1)) by lia.
  assert (Hne2 : Z.to_nat X <> Z.to_nat (X + 2)) by lia.
  assert (Hlen : (Z.to_nat (X + 2) < length (RAM st))%nat) by lia.
  assert (Hsame :
    <[Z.to_nat (X + 2) := A / 256 mod 256]>
      (<[Z.to_nat (X + 1) := A mod 256]>
         (<[Z.to_nat (X + 2) := 0]>
            (<[Z.to_nat (X + 1) := 0]> (<[Z.to_nat X := 195]> (RAM st))))) =
    <[Z.to_nat (X + 2) := A / 256 mod 256]>
      (<[Z.to_nat (X + 1) := A mod 256]> (<[Z.to_nat X := 195]> (RAM st)))).
  { rewrite (list_insert_insert_ne _ (Z.to_nat (X + 1)) (Z.to_nat (X + 2))) by exact Hne.
    rewrite !list_insert_insert_eq. reflexivity. }
  rewrite Hsame. split; [reflexivity|].
  split; [|split].
  - rewrite list_lookup_insert_ne by (intros E; apply Hne2; symmetry; exact E).
    rewrite list_lookup_insert_ne by (intros E; apply Hne0; symmetry; exact E).
    apply list_lookup_insert_eq. lia.
  - rewrite list_lookup_insert_ne by (intros E; apply Hne; symmetry; exact E).
    apply list_lookup_insert_eq. rewrite length_insert. lia.
  - apply list_lookup_insert_eq. rewrite !length_insert. lia.
Qed.

(** *** Relative branches *)

Lemma signed8_mod (d : Z) : -128 <= d <= 127 -> signed8 (d mod 256) = d /\ 0 <= d mod 256 < 256.
Proof.
  intros Hd. unfold signed8.
  destruct (Z.ltb_spec (d mod 256) 128); Z.div_mod_to_equations; lia.
Qed.

Lemma in_range_true (d : Z) : -128 <= d <= 127 -> (-128 <=? d) && (d <=? 127) = true.
Proof. intros H. apply andb_true_iff. split; apply Z.leb_le; lia. Qed.

Lemma in_range_false (d : Z) : d < -128 \/ 127 < d -> (-128 <=? d) && (d <=? 127) = false.
Proof.
  intros H. apply andb_false_iff.
  destruct H; [left | right]; apply Z.leb_gt; lia.
Qed.

Ltac branch_start :=
  unfold encode; cbn; rewrite evaluate_symbol_TARGET; cbn [eval_expr];
  unfold lookupOrCreate; cbn [SymTab set_nextPC].

(** A relative branch to a defined target. *)
Lemma branch_resolved (m : string) (st : AsmState) (s : Symbol) :
  m = "JR" \/ m = "DJNZ" ->
  lookup "TARGET" (SymTab st) = Some s ->
  s_defined s = true ->
  0 <= PC st -> PC st + 1 < RAMSIZE ->
  (-128 <= s_val s - (PC st + 2) <= 127 ->
   exists st', enc (branch m) st = Ok st' /\ PC st' = PC st + 2 /\
     RAM st' = <[Z.to_nat (PC st + 1) := (s_val s - (PC st + 2)) mod 256]>
                 (<[Z.to_nat (PC st) := if String.eqb m "JR" then 0x18 else 0x10]> (RAM st))) /\
  (s_val s - (PC st + 2) < -128 \/ 127 < s_val s - (PC st + 2) ->
   exists w, enc (branch m) st = Exit 1 w).
Proof.
  intros Hm Hl Hd H0 H1.
  split; intros Hr; destruct Hm as [-> | ->]; branch_start; rewrite Hl, Hd; cbn;
    rewrite emit_ok by (cbn; lia); cbn;
    replace (s_val s + 0 - (PC st + Z.of_nat 1 + 1)) with (s_val s - (PC st + 2)) by lia.
  1-2: rewrite in_range_true by exact Hr; cbn;
       rewrite emit_ok by (cbn; lia); cbn;
       eexists; split; [reflexivity|]; cbn; split; [lia | reflexivity].
  1-2: rewrite in_range_false by exact Hr; rewrite Error_exit; cbn;
       eexists; reflexivity.
Qed.

(** A relative branch to a name not yet in the table: placeholder and
    fixup. *)
Lemma branch_unresolved (m : string) (st : AsmState) :
  m = "JR" \/ m = "DJNZ" ->
  length (SymTab st) = 256%nat ->
  lookup "TARGET" (SymTab st) = None ->
  0 <= PC st -> PC st + 1 < RAMSIZE ->
  exists st1, enc (branch m) st = Ok st1 /\ PC st1 = PC st + 2 /\
    RAM st1 = <[Z.to_nat (PC st + 1) := 0]>
                (<[Z.to_nat (PC st) := if String.eqb m "JR" then 0x18 else 0x10]> (RAM st)) /\
    SymTab st1 =
      store (mkSymbol "TARGET" 0 0 false Label
               [mkFixup (PC st + 1) 1 (SignedRelativeFrom (PC st + 2)) 0])
            (store (fresh "TARGET") (SymTab st)).
Proof.
  intros Hm Hlen Hl H0 H1.
  destruct Hm as [-> | ->]; branch_start; rewrite Hl; cbn;
    rewrite emit_ok by (cbn; lia); cbn;
    change (Z.to_nat 1) with 1%nat; cbn [replicate emit_bytes];
    rewrite emit_ok by (cbn; lia); cbn;
    unfold addFixup, lookupOrCreate;
    cbn [SymTab set_PC set_RAM touch set_maxPC set_minPC set_SymTab set_nextPC];
    rewrite (lookup_store (mkSymbol "TARGET" 0 0 false Label [])) by assumption;
    cbn; eexists; (split; [reflexivity|]); cbn;
    replace (PC st + Z.of_nat 1 + 1) with (PC st + 2) by lia;
    (split; [lia|]); split; reflexivity.
Qed.

(** The definition of a name with one pending relative fixup. *)
Lemma define_relative (st : AsmState) (name : string) (s : Symbol) (loc after off t : Z) :
  lookup name (SymTab st) = Some s ->
  s_defined s = false ->
  s_recalc s = [mkFixup loc 1 (SignedRelativeFrom after) off] ->
  loc < RAMSIZE ->
  (-128 <= t + off - after <= 127 ->
   exists st2, def name t Label st = Ok st2 /\
     RAM st2 = <[Z.to_nat loc := (t + off - after) mod 256]> (RAM st)) /\
  (t + off - after < -128 \/ 127 < t + off - after ->
   exists w, def name t Label st = Exit 1 w).
Proof.
  intros Hl Hd Hrec Hloc.
  rewrite (define_pending _ _ _ _ Hl Hd). rewrite Hrec.
  cbn [drain]. unfold apply_fixup, encode_value.
  cbn [encoding width location constantOffset].
  split; intros Hr.
  - rewrite in_range_true by exact Hr. rewrite !bind_Ok. cbn [poke_bytes].
    rewrite poke_ok by exact Hloc. rewrite !bind_Ok.
    eexists. split; [reflexivity|]. destruct st; reflexivity.
  - rewrite in_range_false by exact Hr. rewrite Error_exit.
    eexists. reflexivity.
Qed.

(** C3. A relative branch ([JR], [DJNZ]) at address [PC] to [TARGET].
    With [TARGET] defined, the displacement byte stored after the opcode
    is the target minus the address after the instruction ([PC + 2]),
    read as a signed byte, when that difference lies in -128..127, and
    the run is ended with exit status 1 otherwise.  With [TARGET] not
    yet known, a zero placeholder is stored, and the same holds at the
    line that defines [TARGET] at address [t]. *)
Theorem relative_branch_displacement (m : string) (st : AsmState)
    (Hm : m = "JR" \/ m = "DJNZ")
    (Htab : length (SymTab st) = 256%nat)
    (Hpc : 0 <= PC st /\ PC st + 1 < RAMSIZE)
    (Hram : RAMSIZE <= Z.of_nat (length (RAM st))) :
  (forall s, lookup "TARGET" (SymTab st) = Some s -> s_defined s = true ->
     (-128 <= s_val s - (PC st + 2) <= 127 ->
      exists st' b, enc (branch m) st = Ok st' /\ PC st' = PC st + 2 /\
        RAM st' !! Z.to_nat (PC st + 1) = Some b /\ 0 <= b < 256 /\
        signed8 b = s_val s - (PC st + 2)) /\
     (s_val s - (PC st + 2) < -128 \/ 127 < s_val s - (PC st + 2) ->
      exists w, enc (branch m) st = Exit 1 w)) /\
  (lookup "TARGET" (SymTab st) = None ->
   exists st1, enc (branch m) st = Ok st1 /\ PC st1 = PC st + 2 /\
     RAM st1 !! Z.to_nat (PC st + 1) = Some 0 /\
     forall t,
       (-128 <= t - (PC st + 2) <= 127 ->
        exists st2 b, enc target_def (set_PC t st1) = Ok st2 /\
          RAM st2 !! Z.to_nat (PC st + 1) = Some b /\ 0 <= b < 256 /\
          signed8 b = t - (PC st + 2)) /\
       (t - (PC st + 2) < -128 \/ 127 < t - (PC st + 2) ->
        exists w, enc target_def (set_PC t st1) = Exit 1 w)).
Proof.
  destruct Hpc as [H0 H1]. split.
  - intros s Hl Hd.
    destruct (branch_resolved m st s Hm Hl Hd H0 H1) as [Hin Hout]. split.
    + intros Hr. destruct (Hin Hr) as (st' & E & P & R).
      destruct (signed8_mod _ Hr) as [Hs Hb].
      exists st', ((s_val s - (PC st + 2)) mod 256).
      split; [exact E|]. split; [exact P|]. split; [|split; assumption].
      rewrite R. apply list_lookup_insert_eq. rewrite length_insert. lia.
    + exact Hout.
  - intros Hl.
    destruct (branch_unresolved m st Hm Htab Hl H0 H1) as (st1 & E & P & R & S).
    exists st1. split; [exact E|]. split; [exact P|]. split.
    { rewrite R. apply list_lookup_insert_eq. rewrite length_insert. lia. }
    intros t. unfold target_def. rewrite encode_label_only.
    replace (PC (set_PC t st1)) with t by (destruct st1; reflexivity).
    assert (L1 : lookup "TARGET" (SymTab (set_PC t st1)) =
                 Some (mkSymbol "TARGET" 0 0 false Label
                         [mkFixup (PC st + 1) 1 (SignedRelativeFrom (PC st + 2)) 0])).
    { replace (SymTab (set_PC t st1)) with (SymTab st1) by (destruct st1; reflexivity).
      rewrite S.
      apply (lookup_store (mkSymbol "TARGET" 0 0 false Label
                             [mkFixup (PC st + 1) 1 (SignedRelativeFrom (PC st + 2)) 0])).
      rewrite length_store. exact Htab. }
    destruct (define_relative (set_PC t st1) "TARGET" _ (PC st + 1) (PC st + 2) 0 t
                L1 eq_refl eq_refl H1) as [Hin Hout].
    replace (t + 0 - (PC st + 2)) with (t - (PC st + 2)) in Hin, Hout by lia.
    split.
    + intros Hr. destruct (Hin Hr) as (st2 & E2 & R2).
      destruct (signed8_mod _ Hr) as [Hs Hb].
      exists st2, ((t - (PC st + 2)) mod 256).
      split; [exact E2|]. split; [|split; assumption].
      rewrite R2.
      replace (RAM (set_PC t st1)) with (RAM st1) by (destruct st1; reflexivity).
      rewrite R. apply list_lookup_insert_eq. rewrite !length_insert. lia.
    + exact Hout.
Qed.

End EngineProperties.

(** ** C5: symbols left unresolved *)

Lemma xref_texts_split (l1 l2 : list Symbol) (s : Symbol) :
  xref_texts (l1 ++ s :: l2) = xref_texts l1 +:+ xref_text s +:+ xref_texts l2.
Proof. rewrite xref_texts_app. reflexivity. Qed.

(** C5. Unresolved symbols do not end the run.  The cross reference is
    written whatever the symbols are and holds the line "---- name is
    undefined!" for every symbol of the table that still has pending
    fixups; it leaves the memory image and the touched range as they are,
    and so does all of [main] after the assembly, so a placeholder byte
    stays as it is.  [JP MISSING] with [MISSING] never defined completes
    with exit status 0, leaves 0xC3 0x00 0x00 at the address of the
    instruction, and [MISSING] is reported as undefined. *)
Theorem unresolved_symbols_nonfatal :
  (forall (st : AsmState) (f : FILE) (s : Symbol),
      lstfile st = Some f ->
      In s (concat (take 256 (SymTab st))) ->
      s_recalc s <> [] ->
      exists pre post,
        disk (cross_reference st) =
        disk st ++ [(fname f, Text (pre +:+ "----    " +:+ s_name s +:+ " is undefined!" +:+ nl +:+
                                    post))]) /\
  (forall st, image (cross_reference st) = image st) /\
  (forall n init tok comp o e name st,
      assembly n init tok comp o e = Ok (name, st) ->
      keeps_image st (main n init tok comp o e)) /\
  (exists w,
      SpecModel.assemble SpecModel.char_sum 256 (listing_run "prog.asm")
        (file_system (SpecModel.source ["  JP MISSING"])) = Exit 0 w /\
      take 3 (RAM w) = [0xC3; 0; 0] /\ minPC w = 0 /\ maxPC w = 2 /\
      SpecModel.finalize w = [("MISSING", None)] /\
      disk w = [("prog.lst",
                 Text ("0000    C3 00 00          JP MISSING" +:+ nl +:+ nl +:+
                       "Cross reference" +:+ nl +:+ nl +:+
                       "----    MISSING is undefined!" +:+ nl))]).
Proof.
  split; [|split; [|split]].
  - intros st f s Hf Hin Hrec.
    rewrite (cross_reference_disk st f Hf).
    apply in_split in Hin as (l1 & l2 & ->).
    rewrite xref_texts_split.
    exists (fdata f +:+ nl +:+ "Cross reference" +:+ nl +:+ nl +:+ xref_texts l1), (xref_texts l2).
    unfold xref_text. destruct (s_recalc s) as [|x r]; [contradiction Hrec; reflexivity|].
    rewrite !append_assoc. reflexivity.
  - apply cross_reference_image.
  - intros n init tok comp o e name st Hasm.
    assert (H := main_after_assembly n init tok comp o e).
    rewrite Hasm in H. exact H.
  - assert (H : match SpecModel.assemble SpecModel.char_sum 256 (listing_run "prog.asm")
                      (file_system (SpecModel.source ["  JP MISSING"])) with
               | Exit c w =>
                   c = 0 /\ take 3 (RAM w) = [0xC3; 0; 0] /\ minPC w = 0 /\ maxPC w = 2 /\
                   SpecModel.finalize w = [("MISSING", None)] /\
                   disk w = [("prog.lst",
                              Text ("0000    C3 00 00          JP MISSING" +:+ nl +:+ nl +:+
                                    "Cross reference" +:+ nl +:+ nl +:+
                                    "----    MISSING is undefined!" +:+ nl))]
               | _ => False
               end).
    { vm_compute. repeat split; reflexivity. }
    revert H.
    generalize (SpecModel.assemble SpecModel.char_sum 256 (listing_run "prog.asm")
                  (file_system (SpecModel.source ["  JP MISSING"]))).
    intros r H. destruct r as [|c w| |]; try contradiction.
    destruct H as [-> H]. exists w. split; [reflexivity | exact H].
Qed.

Lemma unresolved_symbols_nonfatal_witness :
  exists pre post,
    disk (cross_reference missing_pending) =
    [("prog.lst", Text (pre +:+ "----    MISSING is undefined!" +:+ nl +:+ post))].
Proof.
  destruct unresolved_symbols_nonfatal as (H & _ & _ & _).
  destruct (H missing_pending (mkFILE "prog.lst" "") missing_symbol eq_refl
              (or_introl eq_refl) ltac:(discriminate)) as (pre & post & E).
  exists pre, post. exact E.
Defined.

(** ** The properties at work on the modelled assembler *)

Lemma checkPC_writes_example :
  match SpecModel.assemble SpecModel.char_sum 256 (quiet_run "prog.asm")
          (file_system (SpecModel.source ["  ORG 0x8000"; "  LD A, 5"])) with
  | Exit c w =>
      c = 0 /\ RAM w !! Z.to_nat 0x8000 = Some 0x3E /\ RAM w !! Z.to_nat 0x8001 = Some 0x05 /\
      minPC w = 0x8000 /\ maxPC w = 0x8001
  | _ => False
  end.
Proof. vm_compute. repeat split; reflexivity. Qed.

(** The same statements in both orders, as source texts. *)
Lemma jump_before_label_example :
  match SpecModel.assemble SpecModel.char_sum 256 (quiet_run "prog.asm")
          (file_system (SpecModel.source ["  JP LABEL"; "  ORG 0x1234"; "LABEL:"])),
        SpecModel.assemble SpecModel.char_sum 256 (quiet_run "prog.asm")
          (file_system (SpecModel.source ["  ORG 0x1234"; "LABEL:"; "  ORG 0"; "  JP LABEL"])) with
  | Exit c1 w1, Exit c2 w2 =>
      c1 = 0 /\ c2 = 0 /\ take 3 (RAM w1) = [0xC3; 0x34; 0x12] /\
      take 3 (RAM w2) = [0xC3; 0x34; 0x12]
  | _, _ => False
  end.
Proof. vm_compute. repeat split; reflexivity. Qed.

Lemma blank_state_RAM : RAMSIZE <= Z.of_nat (length (RAM blank_state)).
Proof.
  change (RAM blank_state) with (replicate (Z.to_nat RAMSIZE) 0).
  rewrite length_replicate. unfold RAMSIZE. lia.
Qed.

Lemma forward_reference_order_witness :
  exists s1 s2,
    (st1 ← SpecModel.encode SpecModel.char_sum jp_label (set_PC 0x100 blank_state);
     SpecModel.encode SpecModel.char_sum label_def (set_PC 0x1234 st1)) = Ok s1 /\
    (st1 ← SpecModel.encode SpecModel.char_sum label_def (set_PC 0x1234 blank_state);
     SpecModel.encode SpecModel.char_sum jp_label (set_PC 0x100 st1)) = Ok s2 /\
    RAM s1 = RAM s2 /\
    RAM s1 !! Z.to_nat 0x100 = Some 0xC3 /\
    RAM s1 !! Z.to_nat (0x100 + 1) = Some (0x1234 mod 256) /\
    RAM s1 !! Z.to_nat (0x100 + 2) = Some (0x1234 / 256 mod 256).
Proof.
  apply (forward_reference_order SpecModel.char_sum blank_state 0x100 0x1234).
  - reflexivity.
  - vm_compute. reflexivity.
  - exact blank_state_RAM.
  - unfold RAMSIZE. lia.
  - unfold RAMSIZE. lia.
Defined.

Lemma relative_branch_displacement_witness :
  (exists st' b,
      SpecModel.encode SpecModel.char_sum (branch "JR") target_known = Ok st' /\
      PC st' = 2 /\ RAM st' !! 1%nat = Some b /\ 0 <= b < 256 /\
      SpecModel.signed8 b = 0x20 - 2) /\
  (exists st1,
      SpecModel.encode SpecModel.char_sum (branch "DJNZ") blank_state = Ok st1 /\
      (exists st2 b,
          SpecModel.encode SpecModel.char_sum target_def (set_PC (-0x7E) st1) = Ok st2 /\
          RAM st2 !! 1%nat = Some b /\ 0 <= b < 256 /\ SpecModel.signed8 b = -0x80) /\
      (exists w, SpecModel.encode SpecModel.char_sum target_def (set_PC 0x82 st1) = Exit 1 w)).
Proof.
  split.
  - destruct (relative_branch_displacement SpecModel.char_sum "JR" target_known
                (or_introl eq_refl) eq_refl
                ltac:(unfold RAMSIZE; simpl; lia) blank_state_RAM) as [Hres _].
    destruct (Hres (mkSymbol "TARGET" 0x20 0 true Label [])
                ltac:(vm_compute; reflexivity) eq_refl) as [Hin _].
    destruct (Hin ltac:(simpl; lia)) as (st' & b & E & P & R & Hb & Hs).
    exists st', b. repeat split; try assumption; lia.
  - destruct (relative_branch_displacement SpecModel.char_sum "DJNZ" blank_state
                (or_intror eq_refl) eq_refl
                ltac:(unfold RAMSIZE; simpl; lia) blank_state_RAM) as [_ Hun].
    destruct (Hun ltac:(vm_compute; reflexivity)) as (st1 & E & _ & _ & Hdef).
    exists st1. split; [exact E|]. split.
    + destruct (Hdef (-0x7E)) as [Hin _].
      destruct (Hin ltac:(simpl; lia)) as (st2 & b & E2 & R & Hb & Hs).
      exists st2, b. repeat split; try assumption; lia.
    + destruct (Hdef 0x82) as [_ Hout].
      apply Hout. right. simpl. lia.
Defined.

Lemma driver_state_machine_witness :
  exists st',
    main_loop SpecModel.TokenizeLine (SpecModel.CompileLine SpecModel.char_sum)
      ["  NOP" +:+ nl; "  END" +:+ nl] blank_state = Ok st' /\
    reachedEnd st' = true /\
    main_loop SpecModel.TokenizeLine (SpecModel.CompileLine SpecModel.char_sum)
      (["  NOP" +:+ nl; "  END" +:+ nl] ++ ["  no statement !" +:+ nl]) blank_state = Ok st' /\
    exists rest,
      rtc (sm_step SpecModel.TokenizeLine (SpecModel.CompileLine SpecModel.char_sum))
          (Reading, ["  NOP" +:+ nl; "  END" +:+ nl], blank_state) (End, rest, st').
Proof.
  remember (main_loop SpecModel.TokenizeLine (SpecModel.CompileLine SpecModel.char_sum)
              ["  NOP" +:+ nl; "  END" +:+ nl] blank_state) as r eqn:E.
  assert (H : match r with
              | Ok s => reachedEnd s = true
              | _ => False
              end) by (subst r; vm_compute; reflexivity).
  symmetry in E. destruct r as [s| | |]; try contradiction.
  destruct (driver_state_machine SpecModel.TokenizeLine
              (SpecModel.CompileLine SpecModel.char_sum)
              ["  NOP" +:+ nl; "  END" +:+ nl] blank_state s) as (Hiff & _ & Hstop).
  exists s. split; [reflexivity|]. split; [exact H|].
  split; [apply Hstop; [exact E | exact H] | apply Hiff; exact E].
Defined.

(** With [END] the run completes and the line after it is never looked
    at; without it the same line is a syntax error. *)
Lemma end_directive_example :
  match SpecModel.assemble SpecModel.char_sum 256 (quiet_run "prog.asm")
          (file_system (SpecModel.source ["  NOP"; "  END"; "  no statement !"])),
        SpecModel.assemble SpecModel.char_sum 256 (quiet_run "prog.asm")
          (file_system (SpecModel.source ["  NOP"; "  no statement !"])) with
  | Exit c1 w1, Exit c2 w2 =>
      c1 = 0 /\ LineNo w1 = 3 /\ stdout w1 = "" /\
      c2 = 1 /\ stdout w2 = "Error in line 2: Syntax error" +:+ nl +:+ "no statement !" +:+ nl
  | _, _ => False
  end.
Proof. vm_compute. repeat split; reflexivity. Qed.

Lemma offset_noninterference_witness :
  exists c1 w1 c2 w2,
    SpecModel.assemble SpecModel.char_sum 256 (set_offset (-1) (binary_run "prog.asm"))
      (file_system (SpecModel.source ["  NOP"; "  NOP"; "  RET"])) = Exit c1 w1 /\
    SpecModel.assemble SpecModel.char_sum 256 (set_offset 1 (binary_run "prog.asm"))
      (file_system (SpecModel.source ["  NOP"; "  NOP"; "  RET"])) = Exit c2 w2 /\
    disk w1 = [("prog.bin", Bytes [0; 0; 0xC9])] /\
    disk w2 = [("prog.bin", Bytes [0; 0xC9])] /\
    RAM w1 = RAM w2 /\ minPC w1 = minPC w2 /\ maxPC w1 = maxPC w2.
Proof.
  assert (Hsame := offset_noninterference 256 SpecModel.InitSymTab SpecModel.TokenizeLine
              (SpecModel.CompileLine SpecModel.char_sum) (binary_run "prog.asm")
              (file_system (SpecModel.source ["  NOP"; "  NOP"; "  RET"])) (-1) 1).
  apply proj2 in Hsame.
  change (main 256 SpecModel.InitSymTab SpecModel.TokenizeLine
            (SpecModel.CompileLine SpecModel.char_sum))
    with (SpecModel.assemble SpecModel.char_sum 256) in Hsame.
  remember (SpecModel.assemble SpecModel.char_sum 256 (set_offset (-1) (binary_run "prog.asm"))
              (file_system (SpecModel.source ["  NOP"; "  NOP"; "  RET"]))) as r1 eqn:E1.
  remember (SpecModel.assemble SpecModel.char_sum 256 (set_offset 1 (binary_run "prog.asm"))
              (file_system (SpecModel.source ["  NOP"; "  NOP"; "  RET"]))) as r2 eqn:E2.
  assert (H1 : match r1 with
               | Exit _ w => disk w = [("prog.bin", Bytes [0; 0; 0xC9])]
               | _ => False
               end) by (subst r1; vm_compute; reflexivity).
  assert (H2 : match r2 with
               | Exit _ w => disk w = [("prog.bin", Bytes [0; 0xC9])]
               | _ => False
               end) by (subst r2; vm_compute; reflexivity).
  destruct r1 as [|c1 w1| |]; try contradiction.
  destruct r2 as [|c2 w2| |]; try contradiction.
  exists c1, w1, c2, w2.
  split; [reflexivity|]. split; [reflexivity|]. split; [exact H1|]. split; [exact H2|].
  exact (Hsame c1 w1 c2 w2 eq_refl eq_refl).
Defined.

Lemma last_character_overwritten_witness :
  fgets 256 "  NOP" = Some ("  NOP", "") /\
  LineBuf (set_LineBuf "  NO" blank_state) = "  NO" /\
  do_line SpecModel.TokenizeLine (SpecModel.CompileLine SpecModel.char_sum) "  NOP" blank_state =
    (st1 ← SpecModel.TokenizeLine "  NO" (set_LineBuf "  NO" blank_state);
     st2 ← SpecModel.CompileLine SpecModel.char_sum st1;
     st3 ← (if is_open (lstfile st2)
            then listOneLine (PC blank_state) (PC st2) (LineBuf st2) st2 else Ok st2);
     Ok (set_LineNo (LineNo st3 + 1) st3)).
Proof.
  destruct (last_character_overwritten 256 SpecModel.TokenizeLine
              (SpecModel.CompileLine SpecModel.char_sum) "  NO" "P"%char blank_state eq_refl)
    as (Hline & Hbuf & Hread).
  split; [|split].
  - apply Hread; [reflexivity | simpl; lia].
  - exact Hbuf.
  - exact Hline.
Defined.

(** A last line without a newline: [NOP] is tokenized as [NO]. *)
Lemma unterminated_last_line_example :
  match SpecModel.assemble SpecModel.char_sum 256 (quiet_run "prog.asm")
          (file_system ("  NOP" +:+ nl +:+ "  NOP")),
        SpecModel.assemble SpecModel.char_sum 256 (quiet_run "prog.asm")
          (file_system ("  NOP" +:+ nl +:+ "  NOP" +:+ nl)) with
  | Exit c1 w1, Exit c2 w2 =>
      c1 = 1 /\ stdout w1 = "Error in line 2: Syntax error" +:+ nl +:+ "NO" +:+ nl /\
      c2 = 0 /\ maxPC w2 = 1
  | _, _ => False
  end.
Proof. vm_compute. repeat split; reflexivity. Qed.

Lemma no_data_created_witness :
  exists name st w,
    assembly 256 SpecModel.InitSymTab SpecModel.TokenizeLine
      (SpecModel.CompileLine SpecModel.char_sum) (listing_run "prog.asm")
      (file_system (SpecModel.source ["; nothing to assemble"])) = Ok (name, st) /\
    listing st = true /\ minPC st > maxPC st /\
    main 256 SpecModel.InitSymTab SpecModel.TokenizeLine
      (SpecModel.CompileLine SpecModel.char_sum) (listing_run "prog.asm")
      (file_system (SpecModel.source ["; nothing to assemble"])) = Exit 1 w /\
    stdout w = stdout st +:+ " No data created" +:+ nl /\
    disk w = disk (fclose_lst st) /\
    image w = image st.
Proof.
  assert (Hthm := no_data_created 256 SpecModel.InitSymTab SpecModel.TokenizeLine
              (SpecModel.CompileLine SpecModel.char_sum) (listing_run "prog.asm")
              (file_system (SpecModel.source ["; nothing to assemble"]))).
  remember (assembly 256 SpecModel.InitSymTab SpecModel.TokenizeLine
              (SpecModel.CompileLine SpecModel.char_sum) (listing_run "prog.asm")
              (file_system (SpecModel.source ["; nothing to assemble"]))) as r eqn:E.
  assert (H : match r with
              | Ok (_, s) => listing s = true /\ minPC s > maxPC s
              | _ => False
              end) by (subst r; vm_compute; split; reflexivity).
  destruct r as [[name st]| | |]; try contradiction.
  destruct H as [Hl He].
  destruct (Hthm name st eq_refl (or_introl Hl) He) as (w & Hw).
  exists name, st, w. split; [reflexivity|]. split; [exact Hl|]. split; [exact He|].
  exact Hw.
Defined.

(** The same run, observed: the message, the exit status and the only
    file there is, the listing. *)
Lemma empty_source_example :
  match SpecModel.assemble SpecModel.char_sum 256 (listing_run "prog.asm")
          (file_system (SpecModel.source ["; nothing to assemble"])) with
  | Exit c w =>
      c = 1 /\ stdout w = " No data created" +:+ nl /\
      disk w = [("prog.lst",
                 Text ("                        ; nothing to assemble" +:+ nl +:+ nl +:+
                       "Cross reference" +:+ nl +:+ nl))]
  | _ => False
  end.
Proof. vm_compute. repeat split; reflexivity. Qed.

Lemma fatal_error_report_witness :
  (exists w,
     @Error AsmState "Address overflow -> exit" at_overflow = Exit 1 w /\
     stdout w = "Error in line 2: Address overflow -> exit" +:+ nl +:+ "DEFB 1, 2  " +:+ nl /\
     disk w = [("prog.lst", Text ("0000    00               NOP" +:+ nl))]) /\
  (exists w,
     SpecModel.assemble SpecModel.char_sum 256 (listing_run "prog.asm")
       (mkEnv None (fun _ => true) []) = Exit 1 w /\
     stdout w = "" /\ disk w = []).
Proof.
  destruct (fatal_error_report 256 SpecModel.InitSymTab SpecModel.TokenizeLine
              (SpecModel.CompileLine SpecModel.char_sum)
              "Address overflow -> exit" at_overflow)
    as ((w & E & Hs & Hd & _) & _ & _ & Hin).
  split.
  - exists w. split; [exact E|]. split.
    + rewrite Hs. reflexivity.
    + rewrite Hd. reflexivity.
  - destruct (Hin (listing_run "prog.asm") (mkEnv None (fun _ => true) []) eq_refl)
      as (w' & E' & Hs' & Hd' & _).
    exists w'. split; [exact E'|]. split; [exact Hs' | exact Hd'].
Defined.

(** C4, as stated, fails: a source whose second line runs over the end of
    the address space, assembled with a listing.  The line is reported
    with its trailing blanks, which is not the trimmed line, and the
    listing file exists after the exit, holding the lines listed before
    the error. *)
Lemma fatal_error_leaves_listing :
  exists w text,
    SpecModel.assemble SpecModel.char_sum 256 (listing_run "prog.asm")
      (file_system (SpecModel.source ["  ORG 0xFFFF"; "  DEFB 1, 2  "])) = Exit 1 w /\
    stdout w = "Error in line 2: Address overflow -> exit" +:+ nl +:+ "DEFB 1, 2  " +:+ nl /\
    "DEFB 1, 2  " <> SpecModel.trim "  DEFB 1, 2  " /\
    disk w = [("prog.lst", Text text)] /\
    text <> "" /\
    disk w <> [].
Proof.
  remember (SpecModel.assemble SpecModel.char_sum 256 (listing_run "prog.asm")
              (file_system (SpecModel.source ["  ORG 0xFFFF"; "  DEFB 1, 2  "]))) as r eqn:E.
  assert (H : match r with
              | Exit c w =>
                  c = 1 /\
                  stdout w = "Error in line 2: Address overflow -> exit" +:+ nl +:+
                             "DEFB 1, 2  " +:+ nl /\
                  match disk w with
                  | [(name, Text (String _ _))] => name = "prog.lst"
                  | _ => False
                  end
              | _ => False
              end) by (subst r; vm_compute; repeat split; reflexivity).
  destruct r as [|c w| |]; try contradiction.
  destruct H as (-> & Hs & Hd).
  destruct (disk w) as [|[name [[|x text]| |]] [|? ?]] eqn:Ed; try contradiction.
  subst name. exists w, (String x text).
  split; [reflexivity|]. split; [exact Hs|].
  split; [vm_compute; discriminate|].
  split; [exact Ed|]. split; [discriminate|].
  rewrite Ed. discriminate.
Qed.

(** * Further properties of the driver *)

(** ** checkPC *)

Lemma touch_comm (a b : Z) (st : AsmState) : touch a (touch b st) = touch b (touch a st).
Proof.
  destruct st; unfold touch, set_maxPC, set_minPC; simpl.
  f_equal; lia.
Qed.

Lemma touch_inside (pc : Z) (st : AsmState) :
  minPC st <= pc <= maxPC st -> touch pc st = st.
Proof.
  intros H. destruct st; unfold touch, set_maxPC, set_minPC; simpl in *.
  f_equal; lia.
Qed.

Lemma checkPCs_Ok_inv (ws : list Z) (st st' : AsmState) :
  checkPCs ws st = Ok st' -> Forall (fun a => a < RAMSIZE) ws.
Proof.
  revert st. induction ws as [|a ws IH]; intros st H; [constructor|].
  simpl in H. apply bind_Ok_inv in H as (st1 & H1 & H2).
  apply checkPC_Ok_inv in H1 as [Ha _]. constructor; [exact Ha | eapply IH; exact H2].
Qed.

Lemma fold_touch_permutation (ws ws' : list Z) :
  Permutation ws ws' ->
  forall st, fold_left (fun s a => touch a s) ws st = fold_left (fun s a => touch a s) ws' st.
Proof.
  induction 1 as [|x l l' _ IH|x y l|l l' l'' _ IH1 _ IH2]; intros st; simpl.
  - reflexivity.
  - apply IH.
  - rewrite touch_comm. reflexivity.
  - rewrite IH1. apply IH2.
Qed.

(** X1. Checking an address a second time changes nothing: after a
    successful [checkPC pc], another [checkPC pc] returns the same
    state. *)
Theorem checkPC_idempotent (pc : Z) (st st1 : AsmState)
    (Hfirst : checkPC pc st = Ok st1) :
  checkPC pc st1 = Ok st1.
Proof.
  apply checkPC_Ok_inv in Hfirst as [Hlt ->].
  rewrite checkPC_ok by exact Hlt. f_equal.
  apply touch_inside. destruct st; simpl. lia.
Qed.

Lemma checkPC_idempotent_witness :
  checkPC 0x4000 (touch 0x4000 init_state) = Ok (touch 0x4000 init_state).
Proof.
  apply (checkPC_idempotent 0x4000 init_state). reflexivity.
Defined.

(** X2. The touched range does not depend on the order of the writes: two
    sequences of addresses that are permutations of each other, checked
    from the same state, end in the same state. *)
Theorem checkPCs_order_irrelevant (ws ws' : list Z) (st st' : AsmState)
    (Hperm : Permutation ws ws')
    (Hrun : checkPCs ws st = Ok st') :
  checkPCs ws' st = Ok st'.
Proof.
  assert (Hall := checkPCs_Ok_inv _ _ _ Hrun).
  rewrite checkPCs_total in Hrun by exact Hall.
  rewrite checkPCs_total.
  - rewrite <- (fold_touch_permutation ws ws' Hperm). exact Hrun.
  - eapply Permutation_Forall; eassumption.
Qed.

Lemma checkPCs_order_irrelevant_witness :
  checkPCs [3; 1; 2] init_state = Ok (fold_left (fun s a => touch a s) [1; 2; 3] init_state).
Proof.
  apply (checkPCs_order_irrelevant [1; 2; 3] [3; 1; 2] init_state).
  - apply Permutation_sym. apply (Permutation_cons_append [1; 2] 3).
  - reflexivity.
Defined.

(** ** Error *)

Lemma skip_space_split (s : string) :
  exists blanks,
    s = blanks +:+ skip_space s /\
    forallb isspace (list_ascii_of_string blanks) = true.
Proof.
  induction s as [|c r IH].
  - exists "". split; reflexivity.
  - simpl. destruct (isspace c) eqn:E.
    + destruct IH as (b & Hb & Hall). exists (String c b). split.
      * rewrite append_cons. congruence.
      * simpl. rewrite E. exact Hall.
    + exists "". split; reflexivity.
Qed.

Lemma skip_space_head (s : string) :
  match skip_space s with
  | String c _ => isspace c = false
  | EmptyString => True
  end.
Proof.
  induction s as [|c r IH]; simpl; [exact I|].
  destruct (isspace c) eqn:E; [exact IH | exact E].
Qed.

(** X3. The line that [Error] prints after the message is the current
    line without its leading whitespace and nothing else removed: the
    line is a run of whitespace followed by the printed text, and the
    printed text is empty or starts with a character that is not
    whitespace. *)
Theorem Error_prints_line_from_first_nonblank (s : string) (st : AsmState) :
  exists blanks shown w,
    LineBuf st = blanks +:+ shown /\
    forallb isspace (list_ascii_of_string blanks) = true /\
    match shown with String c _ => isspace c = false | EmptyString => True end /\
    @Error AsmState s st = Exit 1 w /\
    stdout w = stdout st +:+ "Error in line " +:+ pretty (LineNo st) +:+ ": " +:+ s +:+ nl +:+
               shown +:+ nl.
Proof.
  destruct (skip_space_split (LineBuf st)) as (blanks & Hsplit & Hall).
  exists blanks, (skip_space (LineBuf st)). eexists.
  split; [exact Hsplit|]. split; [exact Hall|]. split; [apply skip_space_head|].
  rewrite Error_exit. split; [reflexivity|].
  unfold fclose_lst, printf. destruct st as [? ? ? ? ? ? [f|] ? ? ? ? ? ? ? ?]; reflexivity.
Qed.

(** ** listOneLine *)

Lemma list__nil (st : AsmState) : list_ "" st = st.
Proof.
  unfold list_. destruct st as [? ? ? ? ? ? [[n d]|] ? ? ? ? ? ? ? ?]; simpl; [|reflexivity].
  unfold set_lstfile; simpl. rewrite append_nil_r. reflexivity.
Qed.

Lemma list__list_ (t1 t2 : string) (st : AsmState) :
  list_ t2 (list_ t1 st) = list_ (t1 +:+ t2) st.
Proof.
  unfold list_. destruct st as [? ? ? ? ? ? [[n d]|] ? ? ? ? ? ? ? ?]; simpl; [|reflexivity].
  unfold set_lstfile; simpl. rewrite append_assoc. reflexivity.
Qed.

Lemma only_listing_refl (st : AsmState) : only_listing st st.
Proof. exists "". symmetry. apply list__nil. Qed.

Lemma only_listing_step (t : string) (st st' : AsmState) :
  only_listing (list_ t st) st' -> only_listing st st'.
Proof. intros [u ->]. exists (t +:+ u). apply list__list_. Qed.

Lemma RAM_list_ (t : string) (st : AsmState) : RAM (list_ t st) = RAM st.
Proof. unfold list_. destruct st as [? ? ? ? ? ? [f|] ? ? ? ? ? ? ? ?]; reflexivity. Qed.

Lemma listLoop_S (fuel : nat) (firstPC lastPC endOp lastRow textLen : Z)
    (oneLine : string) (adr : Z) (st : AsmState) :
  listLoop (S fuel) firstPC lastPC endOp lastRow textLen oneLine adr st =
  if adr <? lastPC then
    let row := u32 (adr - firstPC) / 4 in
    let col := u32 (adr - firstPC) mod 4 in
    if (row <? (if lastRow <? 8 then 8 - 2 else 8 - 3)) || (lastRow - 2 <? row) then
      match RAM st !! Z.to_nat adr with
      | None => Undef
      | Some b =>
          listLoop fuel firstPC lastPC endOp lastRow textLen oneLine (u16 (adr + 1))
            ((if adr =? endOp then
                list_ (fmt_s (5 + 3 * (3 - col) + textLen) oneLine +:+ nl)
              else if (col =? 3) || (adr =? u32 (lastPC - 1)) then list_ nl
              else fun s => s)
               (list_ (" " +:+ fmt_X 2 b)
                  (if col =? 0 then list_ (fmt_X 4 adr +:+ "   ") st else st)))
      end
    else
      listLoop fuel firstPC lastPC endOp lastRow textLen oneLine (u16 (adr + 4))
        (if row =? 8 - 3 then list_ ("..." +:+ nl) st else st)
  else Ok st.
Proof.
  simpl. destruct (adr <? lastPC); [|reflexivity].
  destruct (_ || _); [|reflexivity].
  destruct (RAM st !! Z.to_nat adr); [|reflexivity].
  destruct (adr =? endOp); [reflexivity|].
  destruct (_ || _); reflexivity.
Qed.

Lemma listLoop_only_listing (fuel : nat) (firstPC lastPC endOp lastRow textLen : Z)
    (oneLine : string) (adr : Z) (st st' : AsmState) :
  listLoop fuel firstPC lastPC endOp lastRow textLen oneLine adr st = Ok st' ->
  only_listing st st'.
Proof.
  revert adr st. induction fuel as [|fuel IH]; intros adr st H.
  - simpl in H. destruct (adr <? lastPC); [discriminate|].
    injection H as <-. apply only_listing_refl.
  - rewrite listLoop_S in H. cbv zeta in H.
    destruct (adr <? lastPC); [|injection H as <-; apply only_listing_refl].
    destruct (_ || _).
    + destruct (RAM st !! Z.to_nat adr) as [b|]; [|discriminate].
      apply IH in H.
      assert (H1 : only_listing (list_ (" " +:+ fmt_X 2 b)
                     (if u32 (adr - firstPC) mod 4 =? 0
                      then list_ (fmt_X 4 adr +:+ "   ") st else st)) st').
      { destruct (adr =? endOp); [eapply only_listing_step; exact H|].
        destruct (_ || _); [eapply only_listing_step; exact H | exact H]. }
      apply only_listing_step in H1.
      destruct (_ =? 0); [eapply only_listing_step; exact H1 | exact H1].
    + apply IH in H.
      destruct (_ =? 8 - 3); [eapply only_listing_step; exact H | exact H].
Qed.

(** X4. A call of [listOneLine] that returns has changed nothing but the
    listing file, to which it has appended text: the state after it is
    the state before it with some text added to the open listing (and the
    same state when no listing is open). *)
Theorem listOneLine_only_appends (firstPC lastPC : Z) (oneLine : string)
    (st st' : AsmState)
    (Hret : listOneLine firstPC lastPC oneLine st = Ok st') :
  exists t, st' = list_ t st.
Proof.
  unfold listOneLine in Hret.
  destruct (_ =? 0).
  - destruct (negb _); injection Hret as <-; eexists; reflexivity.
  - apply listLoop_only_listing in Hret. exact Hret.
Qed.

Lemma listOneLine_only_appends_witness :
  exists t,
    list_ (fmt_s (24 + 5) "  NOP" +:+ nl) at_overflow = list_ t at_overflow.
Proof.
  apply (listOneLine_only_appends 7 7 "  NOP" at_overflow). reflexivity.
Defined.

Lemma listLoop_never_returns (fuel : nat) (firstPC lastPC endOp lastRow textLen : Z)
    (oneLine : string) (adr : Z) (st : AsmState) :
  0x10000 <= lastPC ->
  0x10000 <= Z.of_nat (length (RAM st)) ->
  0 <= adr < 0x10000 ->
  listLoop fuel firstPC lastPC endOp lastRow textLen oneLine adr st = Loop.
Proof.
  intros Hlast. revert adr st. induction fuel as [|fuel IH]; intros adr st Hram Hadr.
  - simpl. destruct (Z.ltb_spec adr lastPC); [reflexivity | lia].
  - rewrite listLoop_S. cbv zeta.
    destruct (Z.ltb_spec adr lastPC); [|lia].
    destruct (_ || _).
    + destruct (lookup_lt_is_Some_2 (RAM st) (Z.to_nat adr) ltac:(lia)) as [b Hb].
      rewrite Hb. apply IH.
      * destruct (adr =? endOp); [|destruct (_ || _)];
          rewrite ?RAM_list_; destruct (_ =? 0); rewrite ?RAM_list_; exact Hram.
      * unfold u16. apply Z.mod_pos_bound. lia.
    + apply IH.
      * destruct (_ =? 8 - 3); rewrite ?RAM_list_; exact Hram.
      * unfold u16. apply Z.mod_pos_bound. lia.
Qed.

(** X5. The listing of a line never comes to an end when the line ends at
    address 0x10000 or beyond and has a code length other than zero
    (modulo 0x10000): the 16-bit address of the loop stays below
    [lastPC]. *)
Theorem listOneLine_never_returns (firstPC lastPC : Z) (oneLine : string) (st : AsmState)
    (Hlast : 0x10000 <= lastPC)
    (Hlen : u16 (lastPC - firstPC) <> 0)
    (Hram : 0x10000 <= Z.of_nat (length (RAM st))) :
  listOneLine firstPC lastPC oneLine st = Loop.
Proof.
  unfold listOneLine.
  destruct (Z.eqb_spec (u16 (lastPC - firstPC)) 0) as [E|_]; [contradiction|].
  apply listLoop_never_returns; try assumption.
  unfold u16. apply Z.mod_pos_bound. lia.
Qed.

Lemma listOneLine_never_returns_witness :
  listOneLine 0xFFFF 0x10000 "  NOP" blank_state = Loop.
Proof.
  apply (listOneLine_never_returns 0xFFFF 0x10000 "  NOP" blank_state).
  - lia.
  - vm_compute. discriminate.
  - exact blank_state_RAM.
Defined.

Lemma listLoop_done (fuel : nat) (firstPC lastPC endOp lastRow textLen : Z)
    (oneLine : string) (adr : Z) (st : AsmState) :
  lastPC <= adr ->
  listLoop fuel firstPC lastPC endOp lastRow textLen oneLine adr st = Ok st.
Proof.
  intros H. destruct fuel; simpl; destruct (Z.ltb_spec adr lastPC); try lia; reflexivity.
Qed.

Lemma RAM_if_list_ (c : bool) (t : string) (st : AsmState) :
  RAM (if c then list_ t st else st) = RAM st.
Proof. destruct c; [apply RAM_list_ | reflexivity]. Qed.

Lemma RAM_if_list__fun (c1 c2 : bool) (t1 t2 : string) (st : AsmState) :
  RAM ((if c1 then list_ t1 else if c2 then list_ t2 else fun s => s) st) = RAM st.
Proof. destruct c1; [apply RAM_list_|]. destruct c2; [apply RAM_list_ | reflexivity]. Qed.

Lemma listLoop_returns (fuel : nat) (firstPC lastPC endOp textLen : Z)
    (oneLine : string) (adr : Z) (st : AsmState) :
  0 <= firstPC -> lastPC <= 0xFFFF ->
  firstPC <= adr ->
  lastPC <= Z.of_nat (length (RAM st)) ->
  (Z.to_nat (lastPC - adr) <= fuel)%nat ->
  exists st',
    listLoop fuel firstPC lastPC endOp ((lastPC - firstPC - 1) / 4) textLen oneLine adr st
    = Ok st'.
Proof.
  intros H0 Hlast. revert adr st.
  induction fuel as [|fuel IH]; intros adr st Hadr Hram Hfuel.
  - exists st. apply listLoop_done. lia.
  - rewrite listLoop_S. cbv zeta.
    destruct (Z.ltb_spec adr lastPC) as [Hlt|Hge]; [|eexists; reflexivity].
    assert (E32 : u32 (adr - firstPC) = adr - firstPC)
      by (unfold u32; apply Z.mod_small; lia).
    rewrite E32.
    destruct (_ || _) eqn:Econd.
    + destruct (lookup_lt_is_Some_2 (RAM st) (Z.to_nat adr) ltac:(lia)) as [b Hb].
      rewrite Hb.
      replace (u16 (adr + 1)) with (adr + 1) by (unfold u16; rewrite Z.mod_small; lia).
      apply IH; [lia | | lia].
      rewrite RAM_if_list__fun, RAM_list_, RAM_if_list_. exact Hram.
    + apply orb_false_iff in Econd as [_ Hrow]. apply Z.ltb_ge in Hrow.
      assert (Hskip : adr + 4 <= lastPC) by (Z.div_mod_to_equations; lia).
      replace (u16 (adr + 4)) with (adr + 4) by (unfold u16; rewrite Z.mod_small; lia).
      apply IH; [lia | | lia].
      rewrite RAM_if_list_. exact Hram.
Qed.

(** X6. The listing of a line comes to an end whenever the addresses
    before and after the line are at most 0xFFFF and the bytes up to the
    end of the line exist in [RAM]. *)
Theorem listOneLine_returns (firstPC lastPC : Z) (oneLine : string) (st : AsmState)
    (Hfirst : 0 <= firstPC <= 0xFFFF)
    (Hlast : 0 <= lastPC <= 0xFFFF)
    (Hram : lastPC <= Z.of_nat (length (RAM st))) :
  exists st', listOneLine firstPC lastPC oneLine st = Ok st'.
Proof.
  unfold listOneLine.
  destruct (_ =? 0); [destruct (negb _); eexists; reflexivity|].
  replace (u16 firstPC) with firstPC by (unfold u16; rewrite Z.mod_small; lia).
  destruct (Z.le_gt_cases lastPC firstPC) as [Hback|Hfwd].
  - eexists. apply listLoop_done. exact Hback.
  - replace (u16 (lastPC - firstPC)) with (lastPC - firstPC)
      by (unfold u16; rewrite Z.mod_small; lia).
    apply listLoop_returns; [lia | lia | lia | exact Hram | unfold RAMSIZE; lia].
Qed.

Lemma listOneLine_returns_witness :
  exists st', listOneLine 0 0x8000 "  ORG 0x8000" blank_state = Ok st'.
Proof.
  apply (listOneLine_returns 0 0x8000 "  ORG 0x8000" blank_state).
  - lia.
  - lia.
  - assert (H := blank_state_RAM). unfold RAMSIZE in H. lia.
Defined.

(** *** The format of a listing row *)

Lemma length_pad_left (c : ascii) (w : nat) (s : string) :
  String.length (pad_left c w s) = (w + String.length s)%nat.
Proof. induction w as [|w IH]; simpl; [reflexivity | now rewrite IH]. Qed.

Lemma length_append (a b : string) :
  String.length (a +:+ b) = (String.length a + String.length b)%nat.
Proof.
  induction a as [|x a IH]; [reflexivity|].
  rewrite append_cons. simpl. now rewrite IH.
Qed.

Lemma hexdigits_length (k fuel : nat) (n : Z) (acc : string) :
  (k <= fuel)%nat -> 0 <= n < 16 ^ Z.of_nat k ->
  (String.length (hexdigits fuel n acc) <= k + String.length acc)%nat.
Proof.
  revert fuel n acc. induction k as [|k IH]; intros fuel n acc Hk Hn.
  - assert (n = 0) by (simpl in Hn; lia). subst n.
    destruct fuel; simpl; lia.
  - destruct fuel as [|fuel]; [lia|]. simpl.
    destruct (Z.eqb_spec n 0); [lia|].
    assert (Hq : 0 <= n / 16 < 16 ^ Z.of_nat k).
    { assert (Hpow : 16 ^ Z.of_nat (S k) = 16 * 16 ^ Z.of_nat k)
        by (rewrite Nat2Z.inj_succ, Z.pow_succ_r; lia).
      rewrite Hpow in Hn. generalize dependent (16 ^ Z.of_nat k). intros X _ Hn.
      Z.div_mod_to_equations. lia. }
    specialize (IH fuel (n / 16) (String (hexdigit (n mod 16)) acc) ltac:(lia) Hq).
    simpl in IH. lia.
Qed.

Lemma length_fmt_X (w : nat) (n : Z) :
  (w <= 8)%nat -> 0 <= n < 16 ^ Z.of_nat w -> String.length (fmt_X w n) = w.
Proof.
  intros Hw Hn. unfold fmt_X. cbv zeta. rewrite length_pad_left.
  assert (H := hexdigits_length w 8 n "" Hw Hn).
  change (String.length "") with 0%nat in H.
  set (d := String.length (hexdigits 8 n "")) in *. lia.
Qed.

Lemma fmt_s_blanks (k : nat) (s : string) :
  fmt_s (Z.of_nat k + strlen s) s = pad_left " "%char k "" +:+ s.
Proof.
  unfold fmt_s, strlen.
  replace (Z.to_nat (Z.of_nat k + Z.of_nat (String.length s)) - String.length s)%nat
    with k by lia.
  induction k as [|k IH]; simpl; [reflexivity|].
  rewrite append_cons. now rewrite IH.
Qed.

Lemma listLoop_first_row (fuel : nat) (p lastPC endOp textLen : Z) (oneLine : string)
    (k b : Z) (st : AsmState) :
  0 <= p -> 0 <= k <= 3 -> p + k < lastPC -> lastPC <= 0xFFFF ->
  RAM st !! Z.to_nat (p + k) = Some b ->
  listLoop (S fuel) p lastPC endOp 0 textLen oneLine (p + k) st =
  listLoop fuel p lastPC endOp 0 textLen oneLine (p + (k + 1))
    ((if p + k =? endOp then list_ (fmt_s (5 + 3 * (3 - k) + textLen) oneLine +:+ nl)
      else if (k =? 3) || (p + k =? lastPC - 1) then list_ nl
      else fun s => s)
       (list_ (" " +:+ fmt_X 2 b)
          (if k =? 0 then list_ (fmt_X 4 (p + k) +:+ "   ") st else st))).
Proof.
  intros Hp Hk Hlt Hlast Hb.
  rewrite listLoop_S. cbv zeta.
  destruct (Z.ltb_spec (p + k) lastPC); [|lia].
  replace (u32 (p + k - p)) with k by (unfold u32; rewrite Z.mod_small; lia).
  replace (k / 4) with 0 by (Z.div_mod_to_equations; lia).
  replace (k mod 4) with k by (Z.div_mod_to_equations; lia).
  replace (u32 (lastPC - 1)) with (lastPC - 1) by (unfold u32; rewrite Z.mod_small; lia).
  replace (u16 (p + k + 1)) with (p + (k + 1)) by (unfold u16; rewrite Z.mod_small; lia).
  cbn [Z.ltb Z.compare orb]. rewrite Hb. reflexivity.
Qed.

Lemma listLoop_row (p textLen : Z) (oneLine : string) (rest : list Z) :
  forall (k : Z) (fuel : nat) (st : AsmState),
    rest <> [] -> 0 <= p -> 0 <= k -> k + Z.of_nat (length rest) <= 4 ->
    (length rest <= fuel)%nat ->
    p + k + Z.of_nat (length rest) <= 0xFFFF ->
    (forall i b, rest !! i = Some b -> RAM st !! Z.to_nat (p + k + Z.of_nat i) = Some b) ->
    listLoop fuel p (p + k + Z.of_nat (length rest)) (p + k + Z.of_nat (length rest) - 1)
      0 textLen oneLine (p + k) st =
    Ok (list_ (hex_bytes rest +:+
               fmt_s (5 + 3 * (3 - (k + Z.of_nat (length rest) - 1)) + textLen) oneLine +:+ nl)
          (if k =? 0 then list_ (fmt_X 4 (p + k) +:+ "   ") st else st)).
Proof.
  induction rest as [|b r IH]; intros k fuel st Hne Hp Hk Hn Hfuel Hend Hbytes;
    [contradiction Hne; reflexivity|].
  destruct fuel as [|fuel]; [simpl in Hfuel; lia|].
  assert (Hb : RAM st !! Z.to_nat (p + k) = Some b).
  { specialize (Hbytes 0%nat b eq_refl). rewrite Z.add_0_r in Hbytes. exact Hbytes. }
  cbn [length] in *.
  rewrite listLoop_first_row with (b := b); [| lia | lia | lia | lia | exact Hb].
  destruct r as [|b' r'].
  - cbn [length] in *.
    replace (p + k =? p + k + Z.of_nat 1 - 1) with true by (symmetry; apply Z.eqb_eq; lia).
    rewrite listLoop_done by lia.
    rewrite list__list_. cbn [hex_bytes]. rewrite append_nil_r.
    replace (3 - (k + Z.of_nat 1 - 1)) with (3 - k) by lia.
    rewrite append_assoc. reflexivity.
  - replace (p + k =? p + k + Z.of_nat (S (length (b' :: r'))) - 1) with false
      by (symmetry; apply Z.eqb_neq; cbn [length]; lia).
    replace (k =? 3) with false by (symmetry; apply Z.eqb_neq; cbn [length] in Hn; lia).
    replace (p + k =? p + k + Z.of_nat (S (length (b' :: r'))) - 1) with false
      by (symmetry; apply Z.eqb_neq; cbn [length]; lia).
    cbn [orb].
    replace (p + k + Z.of_nat (S (length (b' :: r'))))
      with (p + (k + 1) + Z.of_nat (length (b' :: r'))) by lia.
    rewrite IH; [| discriminate | lia | lia | lia | lia | lia |].
    + replace (k + 1 =? 0) with false by (symmetry; apply Z.eqb_neq; lia).
      rewrite list__list_.
      replace (k + 1 + Z.of_nat (length (b' :: r')) - 1)
        with (k + Z.of_nat (S (length (b' :: r'))) - 1) by lia.
      cbn [hex_bytes]. rewrite !append_assoc. reflexivity.
    + intros i x Hi. rewrite RAM_list_, RAM_if_list_.
      specialize (Hbytes (S i) x Hi).
      replace (p + (k + 1) + Z.of_nat i) with (p + k + Z.of_nat (S i)) by lia.
      exact Hbytes.
Qed.

Lemma listOneLine_row_text (p : Z) (bs : list Z) (oneLine : string) (st : AsmState)
    (Hn : (1 <= length bs <= 4)%nat)
    (Hp : 0 <= p)
    (Hend : p + Z.of_nat (length bs) <= 0xFFFF)
    (Hbytes : forall k b, bs !! k = Some b -> RAM st !! (Z.to_nat p + k)%nat = Some b) :
  listOneLine p (p + Z.of_nat (length bs)) oneLine st =
  Ok (list_ (fmt_X 4 p +:+ "   " +:+ hex_bytes bs +:+
             pad_left " "%char (5 + 3 * (4 - length bs)) "" +:+ oneLine +:+ nl) st).
Proof.
  unfold listOneLine.
  replace (u16 (p + Z.of_nat (length bs) - p)) with (Z.of_nat (length bs))
    by (unfold u16; rewrite Z.mod_small; lia).
  destruct (Z.eqb_spec (Z.of_nat (length bs)) 0) as [E|_]; [lia|].
  replace (u16 p) with p by (unfold u16; rewrite Z.mod_small; lia).
  replace ((Z.of_nat (length bs) - 1) / 4) with 0 by (Z.div_mod_to_equations; lia).
  replace (u16 (if p + Z.of_nat (length bs) <? u32 (p + 4)
                then u32 (p + Z.of_nat (length bs) - 1) else u32 (p + 3)))
    with (p + Z.of_nat (length bs) - 1).
  2:{ replace (u32 (p + 4)) with (p + 4) by (unfold u32; rewrite Z.mod_small; lia).
      replace (u32 (p + 3)) with (p + 3) by (unfold u32; rewrite Z.mod_small; lia).
      replace (u32 (p + Z.of_nat (length bs) - 1)) with (p + Z.of_nat (length bs) - 1)
        by (unfold u32; rewrite Z.mod_small; lia).
      destruct (Z.ltb_spec (p + Z.of_nat (length bs)) (p + 4));
        unfold u16; rewrite Z.mod_small; lia. }
  assert (Hrow := listLoop_row p (Z.of_nat (String.length oneLine)) oneLine bs 0
                    (Z.to_nat (RAMSIZE + 1)) st).
  rewrite !Z.add_0_r in Hrow. rewrite Z.add_0_l in Hrow.
  rewrite Hrow.
  - cbn [Z.eqb]. rewrite list__list_. f_equal. f_equal.
    replace (5 + 3 * (3 - (Z.of_nat (length bs) - 1)) + Z.of_nat (String.length oneLine))
      with (Z.of_nat (5 + 3 * (4 - length bs)) + strlen oneLine) by (unfold strlen; lia).
    rewrite fmt_s_blanks. rewrite !append_assoc. reflexivity.
  - destruct bs; [simpl in Hn; lia | discriminate].
  - exact Hp.
  - lia.
  - lia.
  - unfold RAMSIZE. lia.
  - lia.
  - intros i b Hi. specialize (Hbytes i b Hi).
    replace (Z.to_nat (p + Z.of_nat i)) with (Z.to_nat p + i)%nat by lia. exact Hbytes.
Qed.


(** X7. The listing row of a line that produces one to four bytes, all
    below address 0xFFFF: the address in four hexadecimal digits, three
    blanks, each byte as a blank and two digits, and the source text set
    to the right after [5 + 3 * (4 - n)] blanks, on one line. *)
Theorem listOneLine_short_line (p : Z) (bs : list Z) (oneLine : string) (st : AsmState)
    (Hn : (1 <= length bs <= 4)%nat)
    (Hp : 0 <= p)
    (Hend : p + Z.of_nat (length bs) <= 0xFFFF)
    (Hbytes : forall k b, bs !! k = Some b -> RAM st !! (Z.to_nat p + k)%nat = Some b) :
  listOneLine p (p + Z.of_nat (length bs)) oneLine st =
  Ok (list_ (fmt_X 4 p +:+ "   " +:+ hex_bytes bs +:+
             pad_left " "%char (5 + 3 * (4 - length bs)) "" +:+ oneLine +:+ nl) st).
Proof. exact (listOneLine_row_text p bs oneLine st Hn Hp Hend Hbytes). Qed.

Lemma listOneLine_short_line_witness :
  exists st',
    listOneLine 3 (3 + Z.of_nat (length [0xC9])) "  RET" listing_open = Ok st' /\
    lstfile st' = Some (mkFILE "prog.lst" ("0003    C9                RET" +:+ nl)).
Proof.
  eexists. split.
  - apply (listOneLine_short_line 3 [0xC9] "  RET" listing_open).
    + simpl. lia.
    + lia.
    + simpl. lia.
    + intros k b Hk. destruct k as [|k]; simpl in Hk; [|discriminate].
      injection Hk as <-. reflexivity.
  - reflexivity.
Defined.

Lemma length_hex_bytes (bs : list Z) :
  Forall (fun b => 0 <= b < 256) bs ->
  String.length (hex_bytes bs) = (3 * length bs)%nat.
Proof.
  induction 1 as [|b bs Hb _ IH]; [reflexivity|].
  cbn [hex_bytes length]. rewrite !length_append, IH.
  rewrite (length_fmt_X 2 b) by (simpl; lia). simpl. lia.
Qed.

(** X8. In the listing row of a line that produces at most four bytes
    (and is not an empty line without bytes), the source text starts in
    column 24: the row is a prefix of 24 characters, the text of the
    line, and a newline. *)
Theorem listing_source_column (p : Z) (bs : list Z) (oneLine : string) (st : AsmState)
    (Hn : (length bs <= 4)%nat)
    (Hne : bs <> [] \/ oneLine <> "")
    (Hp : 0 <= p)
    (Hend : p + Z.of_nat (length bs) <= 0xFFFF)
    (Hbytes : forall k b, bs !! k = Some b -> RAM st !! (Z.to_nat p + k)%nat = Some b)
    (Hrange : Forall (fun b => 0 <= b < 256) bs) :
  exists prefix,
    listOneLine p (p + Z.of_nat (length bs)) oneLine st =
    Ok (list_ (prefix +:+ oneLine +:+ nl) st) /\
    String.length prefix = 24%nat.
Proof.
  destruct bs as [|b0 bs'].
  - destruct Hne as [Hne|Hne]; [contradiction Hne; reflexivity|].
    exists (pad_left " "%char 24 ""). split; [|reflexivity].
    unfold listOneLine. cbn [length]. rewrite Z.add_0_r, Z.sub_diag.
    change (u16 0 =? 0) with true. cbv iota.
    destruct oneLine as [|c r]; [contradiction Hne; reflexivity|].
    replace (negb (Z.of_nat (String.length (String c r)) =? 0)) with true
      by (symmetry; apply negb_true_iff, Z.eqb_neq; simpl; lia).
    change (24 + Z.of_nat (String.length (String c r)))
      with (Z.of_nat 24 + strlen (String c r)).
    rewrite fmt_s_blanks. rewrite append_assoc. reflexivity.
  - exists (fmt_X 4 p +:+ "   " +:+ hex_bytes (b0 :: bs') +:+
            pad_left " "%char (5 + 3 * (4 - length (b0 :: bs'))) "").
    split.
    + rewrite listOneLine_row_text; [| simpl in *; lia | exact Hp | exact Hend | exact Hbytes].
      rewrite !append_assoc. reflexivity.
    + rewrite !length_append, length_pad_left, (length_hex_bytes _ Hrange).
      rewrite (length_fmt_X 4 p) by (simpl; lia).
      cbn [length] in *. simpl String.length. lia.
Qed.

Lemma listing_source_column_witness :
  exists prefix,
    listOneLine 0 (0 + Z.of_nat (length [0x21; 0x34; 0x12])) "  LD HL,0x1234" listing_open =
    Ok (list_ (prefix +:+ "  LD HL,0x1234" +:+ nl) listing_open) /\
    String.length prefix = 24%nat /\
    lstfile (list_ (prefix +:+ "  LD HL,0x1234" +:+ nl) listing_open) =
    Some (mkFILE "prog.lst" ("0000    21 34 12          LD HL,0x1234" +:+ nl)).
Proof.
  destruct (listing_source_column 0 [0x21; 0x34; 0x12] "  LD HL,0x1234" listing_open)
    as (prefix & E & L).
  - simpl. lia.
  - left. discriminate.
  - lia.
  - simpl. lia.
  - intros k b Hk.
    destruct k as [|[|[|k]]]; simpl in Hk; try discriminate;
      injection Hk as <-; reflexivity.
  - repeat constructor; lia.
  - exists prefix. split; [exact E|]. split; [exact L|].
    assert (E2 : listOneLine 0 (0 + Z.of_nat (length [0x21; 0x34; 0x12])) "  LD HL,0x1234"
                   listing_open =
                 Ok (list_ ("0000    21 34 12          LD HL,0x1234" +:+ nl) listing_open))
      by (vm_compute; reflexivity).
    rewrite E in E2.
    apply (f_equal (fun r => match r with Ok s => lstfile s | _ => None end)) in E2.
    exact E2.
Defined.

(** ** Reading the lines *)

Lemma no_newline_cons (c : ascii) (s : string) :
  no_newline (String c s) = true -> is_nl c = false /\ no_newline s = true.
Proof.
  unfold no_newline. simpl. intros H. apply andb_true_iff in H as [H1 H2].
  split; [apply negb_true_iff; exact H1 | exact H2].
Qed.

Lemma fgets_from_line (k : nat) (l rest : string) :
  no_newline l = true -> (String.length l + 1 <= k)%nat ->
  fgets_from k (l +:+ nl +:+ rest) = (l +:+ nl, rest).
Proof.
  revert k. induction l as [|c l IH]; intros k Hnl Hk.
  - destruct k as [|k]; [simpl in Hk; lia|]. reflexivity.
  - destruct k as [|k]; [simpl in Hk; lia|].
    apply no_newline_cons in Hnl as [Hc Hl].
    rewrite !append_cons. cbn [fgets_from]. rewrite Hc.
    rewrite IH; [reflexivity | exact Hl | simpl in Hk; lia].
Qed.

Lemma fgets_from_full (k : nat) (a rest : string) :
  no_newline a = true -> String.length a = k ->
  fgets_from k (a +:+ rest) = (a, rest).
Proof.
  revert k. induction a as [|c a IH]; intros k Hnl Hk.
  - simpl in Hk. subst k. destruct rest; reflexivity.
  - destruct k as [|k]; [simpl in Hk; lia|].
    apply no_newline_cons in Hnl as [Hc Ha].
    rewrite append_cons. cbn [fgets_from]. rewrite Hc.
    rewrite IH; [reflexivity | exact Ha | simpl in Hk; lia].
Qed.

Lemma c_str_line (l : string) : c_str l = l -> c_str (l +:+ nl) = l +:+ nl.
Proof.
  induction l as [|c l IH]; intros H; [reflexivity|].
  rewrite append_cons. simpl in *. destruct (is_nul c); [discriminate|].
  injection H as H. now rewrite IH.
Qed.

(** X9. A source whose lines have no newline or NUL inside, end with a
    newline and fit into the line buffer together with it: the texts that
    the loop of [main] leaves in [LineBuf] for the tokenizer, one per
    turn, are exactly the lines of the source. *)
Theorem source_lines_reach_tokenizer (n : nat) (ls : list string)
    (Hn : (2 <= n)%nat)
    (Hls : Forall (fun l => no_newline l = true /\ c_str l = l /\
                            (String.length l + 2 <= n)%nat) ls) :
  map (fun read => chop (c_str read)) (fgets_all n (n - 1) (SpecModel.source ls)) =
  map Some ls.
Proof.
  induction Hls as [|l ls (Hnl & Hnul & Hlen) _ IH]; [reflexivity|].
  cbn [SpecModel.source]. rewrite fgets_all_room by lia.
  destruct (l +:+ nl +:+ SpecModel.source ls) eqn:E.
  { destruct l; discriminate. }
  rewrite <- E. rewrite fgets_from_line by (assumption || lia).
  cbn [map]. rewrite IH. f_equal.
  rewrite c_str_line by exact Hnul. apply chop_snoc.
Qed.

Lemma source_lines_reach_tokenizer_witness :
  map (fun read => chop (c_str read))
      (fgets_all 256 (256 - 1) (SpecModel.source ["  ORG 0x100"; "L: NOP"; ""])) =
  map Some ["  ORG 0x100"; "L: NOP"; ""].
Proof.
  apply (source_lines_reach_tokenizer 256 ["  ORG 0x100"; "L: NOP"; ""]).
  - lia.
  - repeat constructor; simpl; lia.
Defined.

(** X10. A line that does not fit: when [n - 2] characters of a line are
    followed by a further character [c] that is not a newline, [fgets]
    stops after [c], the loop overwrites [c], so the tokenizer is given
    the [n - 2] characters only, and what follows [c] is read as the next
    line. *)
Theorem long_line_is_split (n : nat) (a : string) (c : ascii) (rest : string)
    (Hn : (2 <= n)%nat)
    (Hlen : String.length a = (n - 2)%nat)
    (Hnl : no_newline (a +:+ String c "") = true)
    (Hnul : c_str (a +:+ String c "") = a +:+ String c "") :
  fgets_all n (n - 1) ((a +:+ String c "") +:+ rest) =
    (a +:+ String c "") :: fgets_all n (n - 1) rest /\
  chop (c_str (a +:+ String c "")) = Some a.
Proof.
  split.
  - rewrite fgets_all_room by lia.
    destruct ((a +:+ String c "") +:+ rest) eqn:E.
    { destruct a; discriminate. }
    rewrite <- E. rewrite fgets_from_full; [reflexivity | exact Hnl |].
    rewrite length_append. simpl. lia.
  - rewrite Hnul. apply chop_snoc.
Qed.

Lemma long_line_is_split_witness :
  fgets_all 8 (8 - 1) (("  LD A" +:+ String "," "") +:+ "5" +:+ nl) =
    ("  LD A" +:+ String "," "") :: fgets_all 8 (8 - 1) ("5" +:+ nl) /\
  chop (c_str ("  LD A" +:+ String "," "")) = Some "  LD A".
Proof.
  apply (long_line_is_split 8 "  LD A" ","%char ("5" +:+ nl)).
  - lia.
  - reflexivity.
  - reflexivity.
  - reflexivity.
Defined.

(** ** The line counter *)

Lemma LineNo_list_ (t : string) (st : AsmState) : LineNo (list_ t st) = LineNo st.
Proof. unfold list_. destruct st as [? ? ? ? ? ? [f|] ? ? ? ? ? ? ? ?]; reflexivity. Qed.

Section LineCounter.

Variable TokenizeLine : string -> AsmState -> outcome AsmState.
Variable CompileLine : AsmState -> outcome AsmState.

(** The tokenizer and the encoder do not write [LineNo]. *)
Hypothesis TokenizeLine_LineNo :
  forall l st st', TokenizeLine l st = Ok st' -> LineNo st' = LineNo st.
Hypothesis CompileLine_LineNo :
  forall st st', CompileLine st = Ok st' -> LineNo st' = LineNo st.

Lemma do_line_LineNo (l : string) (st st' : AsmState) :
  do_line TokenizeLine CompileLine l st = Ok st' -> LineNo st' = LineNo st + 1.
Proof.
  intros H. apply do_line_Ok_inv in H as (t & st1 & st2 & st3 & _ & H1 & H2 & H3 & ->).
  apply TokenizeLine_LineNo in H1. apply CompileLine_LineNo in H2.
  assert (E3 : LineNo st3 = LineNo st2).
  { destruct (is_open (lstfile st2)); [|congruence].
    unfold listOneLine in H3. destruct (_ =? 0).
    - destruct (negb _); injection H3 as <-; apply LineNo_list_.
    - apply listLoop_only_listing in H3 as [u ->]. apply LineNo_list_. }
  replace (LineNo (set_LineNo (LineNo st3 + 1) st3)) with (LineNo st3 + 1)
    by (destruct st3; reflexivity).
  replace (LineNo (set_LineBuf t st)) with (LineNo st) in H1 by (destruct st; reflexivity).
  lia.
Qed.

(** X11. [LineNo] counts the lines: when the loop of [main] returns,
    [LineNo] has grown by at most the number of lines in the file, and by
    exactly that number when the end was not signalled (each line read,
    none skipped, none counted twice). *)
Theorem line_number_counts_lines (lines : list string) (st st' : AsmState)
    (Hrun : main_loop TokenizeLine CompileLine lines st = Ok st') :
  LineNo st <= LineNo st' <= LineNo st + Z.of_nat (length lines) /\
  (reachedEnd st' = false -> LineNo st' = LineNo st + Z.of_nat (length lines)).
Proof.
  revert st Hrun. induction lines as [|l ls IH]; intros st Hrun.
  - rewrite main_loop_nil in Hrun. injection Hrun as <-. simpl. split; lia.
  - destruct (reachedEnd st) eqn:E.
    + rewrite main_loop_signalled in Hrun by exact E. injection Hrun as <-.
      split; [cbn [length]; lia | congruence].
    + rewrite main_loop_cons in Hrun by exact E.
      apply bind_Ok_inv in Hrun as (st1 & H1 & H2).
      apply do_line_LineNo in H1. destruct (IH _ H2) as [Hle Heq].
      cbn [length]. split; [lia|]. intros Hend. specialize (Heq Hend). lia.
Qed.

End LineCounter.

Lemma line_number_counts_lines_witness :
  exists st',
    main_loop SpecModel.TokenizeLine (fun st => Ok st)
      ["  NOP" +:+ nl; "L:" +:+ nl; nl] blank_state = Ok st' /\
    LineNo st' = LineNo blank_state + Z.of_nat (length ["  NOP" +:+ nl; "L:" +:+ nl; nl]).
Proof.
  remember (main_loop SpecModel.TokenizeLine (fun st => Ok st)
              ["  NOP" +:+ nl; "L:" +:+ nl; nl] blank_state) as r eqn:E.
  assert (H : match r with Ok s => reachedEnd s = false | _ => False end)
    by (subst r; vm_compute; reflexivity).
  symmetry in E. destruct r as [s| | |]; try contradiction.
  exists s. split; [reflexivity|].
  refine (proj2 (line_number_counts_lines SpecModel.TokenizeLine (fun st => Ok st)
                   _ _ _ blank_state s E) H).
  - intros l st st'. unfold SpecModel.TokenizeLine.
    destruct (SpecModel.tokenize l); [|rewrite Error_exit; discriminate].
    intros Hok. injection Hok as <-. destruct st; reflexivity.
  - intros st st' Hok. injection Hok as <-. reflexivity.
Defined.

(** ** The output files *)



Lemma set_ext_own_length (name ext : string) :
  (4 <= String.length name)%nat ->
  set_ext name (String.length name) ext =
  Ok (String.substring 0 (String.length name - 4) name +:+ ext).
Proof.
  intros H. unfold set_ext.
  destruct (Nat.ltb_spec (String.length name) 4); [lia|].
  destruct (Nat.leb_spec (String.length name - 4) (String.length name)); [reflexivity | lia].
Qed.


Lemma ram_range_wraps (start size : Z) (st : AsmState) :
  Z.of_nat (length (RAM st)) < start + size -> @ram_range start size st = Undef.
Proof.
  intros H. unfold ram_range.
  destruct (Z.leb_spec (start + size) (Z.of_nat (length (RAM st)))); [lia | reflexivity].
Qed.



Lemma emit_bin_out_of_bounds (o : Options) (e : Env) (name : string) (st : AsmState) :
  bin o = true ->
  (4 <= String.length name)%nat ->
  0 <= maxPC st ->
  maxPC st + 1 < (range_start o st) ->
  (range_start o st) < 0x100000000 ->
  Z.of_nat (length (RAM st)) <= 0x100000000 ->
  fopen_w e (binary_name o name st) = true ->
  emit_files o e name st = Undef.
Proof.
  intros Hbin Hname Hmax Hstart Hbig Hram Hopen.
  unfold emit_files, binary_name, range_start in *. rewrite Hbin.
  set (start := if offset o <? 0 then minPC st else offset o) in *.
  assert (Esize : (if offset o <? 0 then u32 (maxPC st + 1 - minPC st)
                   else u32 (maxPC st + 1 - offset o)) =
                  0x100000000 + (maxPC st + 1 - start)).
  { subst start. revert Hstart Hbig. destruct (offset o <? 0); intros Hstart Hbig;
      unfold u32; symmetry; apply Z.mod_unique_pos with (q := -1); lia. }
  rewrite Esize.
  rewrite set_ext_own_length by exact Hname. rewrite bind_Ok. rewrite Hopen.
  rewrite ram_range_wraps by lia. reflexivity.
Qed.

(** X13. An offset above the last address written plus one makes the size
    of the output range wrap around: with the binary file asked for, the
    write reads [RAM] far outside its allocation. *)
Theorem offset_beyond_image_out_of_bounds (o : Options) (e : Env) (name : string)
    (st : AsmState)
    (Hbin : bin o = true)
    (Hname : (4 <= String.length name)%nat)
    (Hoff : maxPC st + 1 < offset o /\ offset o < 0x100000000)
    (Hmax : 0 <= maxPC st)
    (Hram : Z.of_nat (length (RAM st)) <= 0x100000000)
    (Hopen : fopen_w e (String.substring 0 (String.length name - 4) name +:+
                        (if offset o =? 0x100 then ".com" else ".bin")) = true) :
  emit_files o e name st = Undef.
Proof.
  assert (E : (offset o <? 0) = false) by (apply Z.ltb_ge; lia).
  apply emit_bin_out_of_bounds; try assumption; unfold binary_name, range_start;
    rewrite E; try lia. exact Hopen.
Qed.

Lemma offset_beyond_image_out_of_bounds_witness :
  emit_files (set_offset 0x200 (binary_run "prog.asm")) (file_system "") "prog.asm"
    (touch 0x102 (touch 0x100 blank_state)) = Undef.
Proof.
  apply (offset_beyond_image_out_of_bounds
           (set_offset 0x200 (binary_run "prog.asm")) (file_system "") "prog.asm"
           (touch 0x102 (touch 0x100 blank_state)) eq_refl).
  - simpl. lia.
  - simpl. lia.
  - simpl. lia.
  - assert (H : Z.of_nat (length (RAM blank_state)) = RAMSIZE).
    { change (RAM blank_state) with (replicate (Z.to_nat RAMSIZE) 0).
      rewrite length_replicate. unfold RAMSIZE. lia. }
    change (RAM (touch 0x102 (touch 0x100 blank_state))) with (RAM blank_state).
    rewrite H. unfold RAMSIZE. lia.
  - reflexivity.
Defined.

(** X14. A source that produces no byte, assembled with the binary file
    asked for and neither listing nor verbose mode: no "No data created"
    check is made, the output range is taken from minPC = 0x10000 and
    maxPC = 0, its size wraps around, and the write reads [RAM] outside
    its allocation. *)
Theorem empty_image_binary_out_of_bounds (n : nat)
    (init : AsmState -> outcome AsmState)
    (tok : string -> AsmState -> outcome AsmState)
    (comp : AsmState -> outcome AsmState)
    (o : Options) (e : Env) (name : string) (st : AsmState)
    (Hasm : assembly n init tok comp o e = Ok (name, st))
    (Hquiet : listing st = false /\ verboseMode st = 0)
    (Hempty : minPC st = RAMSIZE /\ maxPC st = 0)
    (Hbin : bin o = true) (Hoff : offset o < 0)
    (Hname : (4 <= String.length name)%nat)
    (Hram : Z.of_nat (length (RAM st)) <= 0x100000000)
    (Hopen : fopen_w e (String.substring 0 (String.length name - 4) name +:+ ".bin") = true) :
  main n init tok comp o e = Undef.
Proof.
  destruct Hquiet as [Hl Hv]. destruct Hempty as [Hmin Hmax].
  unfold main. rewrite Hasm, bind_Ok.
  unfold report_range. rewrite Hl, Hv. cbn [Z.eqb negb orb]. rewrite bind_Ok.
  assert (Hne : negb (String.eqb name "") = true).
  { destruct name; [simpl in Hname; lia | reflexivity]. }
  rewrite Hne.
  assert (E : (offset o <? 0) = true) by (apply Z.ltb_lt; lia).
  rewrite emit_bin_out_of_bounds; [reflexivity | exact Hbin | exact Hname | lia | | | exact Hram |].
  - unfold range_start. rewrite E, Hmin, Hmax. unfold RAMSIZE. lia.
  - unfold range_start. rewrite E, Hmin. unfold RAMSIZE. lia.
  - unfold binary_name, range_start. rewrite E, Hmin. exact Hopen.
Qed.

Lemma empty_image_binary_out_of_bounds_witness :
  SpecModel.assemble SpecModel.char_sum 256 (binary_run "prog.asm")
    (file_system (SpecModel.source ["; nothing to assemble"])) = Undef.
Proof.
  assert (Hthm := empty_image_binary_out_of_bounds 256 SpecModel.InitSymTab
              SpecModel.TokenizeLine (SpecModel.CompileLine SpecModel.char_sum)
              (binary_run "prog.asm")
              (file_system (SpecModel.source ["; nothing to assemble"]))).
  remember (assembly 256 SpecModel.InitSymTab SpecModel.TokenizeLine
              (SpecModel.CompileLine SpecModel.char_sum) (binary_run "prog.asm")
              (file_system (SpecModel.source ["; nothing to assemble"]))) as r eqn:E.
  assert (H : match r with
              | Ok (name, s) =>
                  name = "prog.asm" /\ (listing s = false /\ verboseMode s = 0) /\
                  (minPC s = RAMSIZE /\ maxPC s = 0) /\
                  Z.of_nat (length (RAM s)) <= 0x100000000
              | _ => False
              end).
  { subst r. vm_compute. repeat split; try reflexivity. discriminate. }
  destruct r as [[name s]| | |]; try contradiction.
  destruct H as (-> & Hq & He & Hr).
  apply (Hthm "prog.asm" s eq_refl Hq He eq_refl).
  - simpl. lia.
  - simpl. lia.
  - exact Hr.
  - reflexivity.
Defined.



(** ** The name of the output files *)

Lemma output_name_empty (a b c : bool) (x : string) :
  b && c = false -> (if a && b && c then x else "") = "".
Proof. destruct a, b, c; simpl; intros H; try discriminate; reflexivity. Qed.



Lemma assembly_name_empty (n : nat)
    (init : AsmState -> outcome AsmState)
    (tok : string -> AsmState -> outcome AsmState)
    (comp : AsmState -> outcome AsmState)
    (o : Options) (e : Env) (name : string) (st : AsmState) :
  (4 <? strlen (basename (inputfilename o))) && has_src_ext (inputfilename o) = false ->
  String.length (inputfilename o) <> 4%nat ->
  assembly n init tok comp o e = Ok (name, st) ->
  name = "".
Proof.
  intros Hext Hlen. unfold assembly.
  destruct (infile e) as [text|]; [|discriminate].
  intros H. apply bind_Ok_inv in H. destruct H as (st0 & _ & H). cbv zeta in H.
  rewrite (output_name_empty _ _ _ _ Hext) in H.
  apply bind_Ok_inv in H. destruct H as ([name1 st1] & H1 & H).
  apply bind_Ok_inv in H. destruct H as (st2 & _ & H).
  injection H as <- _.
  destruct (_ && negb _) in H1.
  - apply bind_Ok_inv in H1. destruct H1 as (nm & Hset & H1).
    unfold set_ext in Hset.
    destruct (Nat.ltb_spec (String.length (inputfilename o)) 4); [discriminate|].
    destruct (Nat.leb_spec (String.length (inputfilename o) - 4) (String.length ""))
      as [Hle|Hle]; [change (String.length "") with 0%nat in Hle; lia|].
    assert (Hnm : nm = "") by congruence. rewrite Hnm in H1.
    change (fopen_w e "") with false in H1. cbv iota in H1. discriminate H1.
  - apply (f_equal (fun x => match x with Ok (a, _) => a | _ => "" end)) in H1.
    symmetry. exact H1.
Qed.

(** X17. Without a recognised source extension no output file is written,
    whatever options ask for one: when the first part of [main] returns
    for such an input name, the name buffer is empty and [main] ends
    without entering the block that writes the files; the files on disk
    are those of the assembly. *)
Theorem unrecognised_name_no_output (n : nat)
    (init : AsmState -> outcome AsmState)
    (tok : string -> AsmState -> outcome AsmState)
    (comp : AsmState -> outcome AsmState)
    (o : Options) (e : Env) (name : string) (st : AsmState)
    (Hext : (4 <? strlen (basename (inputfilename o))) &&
            has_src_ext (inputfilename o) = false)
    (Hlen : String.length (inputfilename o) <> 4%nat)
    (Hasm : assembly n init tok comp o e = Ok (name, st)) :
  name = "" /\
  exists c w, main n init tok comp o e = Exit c w /\
              (c = 0 \/ c = 1) /\ disk w = disk (fclose_lst st).
Proof.
  assert (Hn : name = "") by exact (assembly_name_empty _ _ _ _ _ _ _ _ Hext Hlen Hasm).
  split; [exact Hn|]. subst name.
  unfold main. rewrite Hasm, bind_Ok. unfold report_range.
  destruct (listing st || negb (verboseMode st =? 0)).
  - destruct (minPC st <=? maxPC st).
    + rewrite bind_Ok. cbn [String.eqb negb].
      eexists 0, _. split; [reflexivity|]. split; [left; reflexivity|].
      unfold fclose_lst, printf. destruct st as [? ? ? ? ? ? [f|] ? ? ? ? ? ? ? ?]; reflexivity.
    + unfold exit. rewrite bind_Exit.
      eexists 1, _. split; [reflexivity|]. split; [right; reflexivity|].
      unfold fclose_lst, printf. destruct st as [? ? ? ? ? ? [f|] ? ? ? ? ? ? ? ?]; reflexivity.
  - rewrite bind_Ok. cbn [String.eqb negb].
    eexists 0, _. split; [reflexivity|]. split; [left; reflexivity|]. reflexivity.
Qed.

Lemma unrecognised_name_no_output_witness :
  exists c w,
    SpecModel.assemble SpecModel.char_sum 256
      (mkOptions true true true false 0 (-1) 0 "prog.txt")
      (file_system (SpecModel.source ["  NOP"])) = Exit c w /\
    (c = 0 \/ c = 1) /\ disk w = [].
Proof.
  remember (assembly 256 SpecModel.InitSymTab SpecModel.TokenizeLine
              (SpecModel.CompileLine SpecModel.char_sum)
              (mkOptions true true true false 0 (-1) 0 "prog.txt")
              (file_system (SpecModel.source ["  NOP"]))) as r eqn:E.
  assert (H : match r with
              | Ok (name, s) => disk s = [] /\ lstfile s = None
              | _ => False
              end).
  { subst r. vm_compute. split; reflexivity. }
  destruct r as [[name s]| | |]; try contradiction.
  destruct H as [Hd Hf].
  destruct (unrecognised_name_no_output 256 SpecModel.InitSymTab SpecModel.TokenizeLine
              (SpecModel.CompileLine SpecModel.char_sum)
              (mkOptions true true true false 0 (-1) 0 "prog.txt")
              (file_system (SpecModel.source ["  NOP"])) name s eq_refl)
    as (_ & c & w & Hm & Hc & Hw).
  - simpl. lia.
  - symmetry. exact E.
  - exists c, w. split; [exact Hm|]. split; [exact Hc|].
    rewrite Hw. unfold fclose_lst. rewrite Hf. exact Hd.
Defined.

(** ** The C array file *)

Lemma c_array_body_closes (bytes : list Z) (i size : Z) :
  bytes <> [] ->
  i + Z.of_nat (length bytes) = size ->
  exists body,
    c_array_body i size bytes =
    body +:+ (nl +:+ "};" +:+ nl +:+ nl +:+ "#endif" +:+ nl).
Proof.
  revert i. induction bytes as [|b r IH]; intros i Hne Hlen; [congruence|].
  cbn [c_array_body]. destruct r as [|b' r'].
  - cbn [length] in Hlen.
    assert (E : (i =? size - 1) = true) by (apply Z.eqb_eq; lia).
    rewrite E. exists ("0x" +:+ fmt_X 2 b).
    cbn [c_array_body]. rewrite append_nil_r, !append_assoc. reflexivity.
  - destruct (IH (i + 1)) as (body & Hb); [discriminate | cbn [length] in *; lia |].
    rewrite Hb.
    exists ("0x" +:+ fmt_X 2 b +:+
            (if i =? size - 1 then nl +:+ "};" +:+ nl +:+ nl +:+ "#endif" +:+ nl
             else if Z.land i (16 - 1) =? 16 - 1 then "," +:+ nl +:+ "  " else ", ") +:+
            body).
    rewrite !append_assoc. reflexivity.
Qed.

(** X18. The text of the C array file is closed: whenever at least one
    byte is written, the text ends with the closing brace of the array and
    the [#endif] of the include guard, which the loop prints after the
    last byte. *)
Theorem c_array_is_closed (bn : string) (start size : Z) (bytes : list Z)
    (Hsize : 0 < size)
    (Hlen : Z.of_nat (length bytes) = size) :
  exists body,
    c_array_text bn start size bytes =
    body +:+ (nl +:+ "};" +:+ nl +:+ nl +:+ "#endif" +:+ nl).
Proof.
  destruct (c_array_body_closes bytes 0 size) as (body & Hb).
  - destruct bytes; [simpl in Hlen; lia | discriminate].
  - lia.
  - unfold c_array_text. rewrite Hb.
    exists ("#ifndef INCLUDE_" +:+ bn +:+ "_H" +:+ nl +:+ "#define INCLUDE_" +:+ bn +:+
            "_H" +:+ nl +:+ nl +:+
            "const uint16_t " +:+ bn +:+ "Addr = 0x" +:+ fmt_X 4 start +:+ ";" +:+ nl +:+
            "const uint8_t " +:+ bn +:+ "[] = {" +:+ nl +:+ "  " +:+ body).
    rewrite !append_assoc. reflexivity.
Qed.

Lemma c_array_is_closed_witness :
  exists body,
    c_array_text "prog" 0x100 3 [0x3E; 0x01; 0xC9] =
    body +:+ (nl +:+ "};" +:+ nl +:+ nl +:+ "#endif" +:+ nl).
Proof.
  apply (c_array_is_closed "prog" 0x100 3 [0x3E; 0x01; 0xC9]); [lia | reflexivity].
Defined.

(** ** The command line *)

Section CommandLineProperties.

Variable sscanf_x : string -> Z * option Z.

Lemma land_byte (v : Z) : 0 <= Z.land v 0x00FF <= 0xFF.
Proof.
  change 0x00FF with (Z.ones 8). rewrite Z.land_ones by lia.
  assert (H := Z.mod_pos_bound v (2 ^ 8) eq_refl). change (2 ^ 8) with 256 in *.
  change (Z.ones 8) with 255. lia.
Qed.

Lemma land_word (v : Z) : 0 <= Z.land v 0xFFFF <= 0xFFFF.
Proof.
  change 0xFFFF with (Z.ones 16). rewrite Z.land_ones by lia.
  assert (H := Z.mod_pos_bound v (2 ^ 16) eq_refl). change (2 ^ 16) with 65536 in *.
  change (Z.ones 16) with 65535. lia.
Qed.

Lemma option_value_used (tail : string) (next : option string) (r : option Z) (old : Z)
    (res : option Z) (v : Z) :
  option_value sscanf_x tail next r old = (res, v, true) -> next <> None.
Proof.
  unfold option_value. destruct tail.
  - destruct next; [discriminate|]. intros H. discriminate.
  - destruct (sscanf_x _). intros H. discriminate.
Qed.

Lemma option_group_inv (argv0 : string) (group : string) (next : option string) :
  forall (l : Locals) (st : AsmState) (l' : Locals) (st' : AsmState) (used : bool),
  option_group sscanf_x argv0 group next l st = Ok (l', st', used) ->
  (in_range l -> in_range l') /\
  l_inputfilename l' = l_inputfilename l /\
  (0 <= verboseMode st -> 0 <= verboseMode st') /\
  (used = true -> next <> None).
Proof.
  induction group as [|c tail IH]; intros l st l' st' used H; [discriminate|].
  cbn [option_group] in H. cbv zeta in H.
  assert (Hmore : forall l0 st0,
             match tail with
             | EmptyString => Ok (l0, st0, false)
             | String _ _ => option_group sscanf_x argv0 tail next l0 st0
             end = Ok (l', st', used) ->
             (in_range l0 -> in_range l') /\
             l_inputfilename l' = l_inputfilename l0 /\
             (0 <= verboseMode st0 -> 0 <= verboseMode st') /\
             (used = true -> next <> None)).
  { intros l0 st0 Hm. destruct tail.
    - injection Hm as <- <- <-.
      split; [tauto | split; [reflexivity | split; [tauto | discriminate]]].
    - exact (IH _ _ _ _ _ Hm). }
  destruct (c =? "b")%char; [exact (Hmore _ _ H)|].
  destruct (c =? "c")%char; [exact (Hmore _ _ H)|].
  destruct (c =? "i")%char; [exact (Hmore _ _ H)|].
  destruct (c =? "f")%char.
  { destruct (option_value sscanf_x tail next (l_result l) (l_fill l))
      as [[[r|] v] u] eqn:E; [|discriminate].
    destruct (r =? 0); [discriminate|]. injection H as <- <- <-.
    unfold in_range. cbn [l_fill l_offset l_inputfilename set_l_fill].
    split; [intros [_ Ho]; split; [apply land_byte | exact Ho] |].
    split; [reflexivity | split; [tauto|]].
    intros ->. exact (option_value_used _ _ _ _ _ _ E). }
  destruct (c =? "l")%char; [exact (Hmore _ _ H)|].
  destruct (c =? "o")%char.
  { destruct (option_value sscanf_x tail next (l_result l) (l_offset l))
      as [[[r|] v] u] eqn:E; [|discriminate].
    destruct (r =? 0); [discriminate|]. injection H as <- <- <-.
    unfold in_range. cbn [l_fill l_offset l_inputfilename set_l_offset].
    split; [intros [Hf _]; split; [exact Hf | right; apply land_word] |].
    split; [reflexivity | split; [tauto|]].
    intros ->. exact (option_value_used _ _ _ _ _ _ E). }
  destruct (c =? "v")%char; [|discriminate].
  destruct (Hmore _ _ H) as (A & B & C & D).
  split; [exact A | split; [exact B | split; [|exact D]]].
  intros Hv. apply C. cbn. lia.
Qed.

Lemma parse_args_inv (argv0 : string) (n : nat) :
  forall (args : list string) (l : Locals) (st : AsmState) (l' : Locals) (st' : AsmState),
  (length args <= n)%nat ->
  parse_args sscanf_x argv0 args l st = Ok (l', st') ->
  (in_range l -> in_range l') /\
  (0 <= verboseMode st -> 0 <= verboseMode st') /\
  (forall name, l_inputfilename l' = Some name ->
                l_inputfilename l = Some name \/ In name args).
Proof.
  induction n as [|n IH]; intros args l st l' st' Hn H.
  - destruct args; [|simpl in Hn; lia]. injection H as <- <-.
    split; [tauto | split; [tauto | intros name Hname; left; exact Hname]].
  - destruct args as [|a rest].
    { injection H as <- <-.
      split; [tauto | split; [tauto | intros name Hname; left; exact Hname]]. }
    cbn [length] in Hn. cbn [parse_args] in H. cbv zeta in H.
    assert (Hplain :
              match l_inputfilename l with
              | Some _ => exit 1 (usage argv0 st)
              | None => parse_args sscanf_x argv0 rest (set_l_inputfilename a l) st
              end = Ok (l', st') ->
              (in_range l -> in_range l') /\
              (0 <= verboseMode st -> 0 <= verboseMode st') /\
              (forall name, l_inputfilename l' = Some name ->
                            l_inputfilename l = Some name \/ In name (a :: rest))).
    { intros Hp. destruct (l_inputfilename l) eqn:El; [discriminate|].
      apply IH in Hp; [|lia]. destruct Hp as (A & B & C).
      split; [exact A | split; [exact B|]].
      intros name Hname. right. destruct (C name Hname) as [Hc|Hc].
      - cbn in Hc. injection Hc as <-. left. reflexivity.
      - right. exact Hc. }
    destruct a as [|c group]; [exact (Hplain H)|].
    destruct (c =? "-")%char; [|exact (Hplain H)].
    destruct (option_group sscanf_x argv0 group (head rest) l st)
      as [[[l1 st1] used]| | |] eqn:Eg; try discriminate.
    apply option_group_inv in Eg. destruct Eg as (A1 & B1 & C1 & D1).
    assert (Hrest : forall args', (length args' <= n)%nat ->
               (forall name, In name args' -> In name (String c group :: rest)) ->
               parse_args sscanf_x argv0 args' l1 st1 = Ok (l', st') ->
               (in_range l -> in_range l') /\
               (0 <= verboseMode st -> 0 <= verboseMode st') /\
               (forall name, l_inputfilename l' = Some name ->
                  l_inputfilename l = Some name \/ In name (String c group :: rest))).
    { intros args' Hlen Hsub Hp. apply IH in Hp; [|exact Hlen].
      destruct Hp as (A & B & C).
      split; [tauto | split; [tauto|]].
      intros name Hname. destruct (C name Hname) as [Hc|Hc].
      - left. rewrite <- B1. exact Hc.
      - right. apply Hsub. exact Hc. }
    destruct rest as [|b rest'].
    + injection H as <- <-.
      split; [exact A1 | split; [exact C1|]].
      intros name Hname. left. rewrite <- B1. exact Hname.
    + destruct used.
      * apply (Hrest rest'); [cbn [length] in Hn; lia | | exact H].
        intros name Hin. right. right. exact Hin.
      * apply (Hrest (b :: rest')); [cbn [length] in Hn |- *; lia | | exact H].
        intros name Hin. right. exact Hin.
Qed.

(** X19. Whatever the arguments are, options that are accepted leave the
    fill byte between 0 and 0xFF and the offset either at -1 (no [-o]) or
    between 0 and 0xFFFF; the verbosity is not negative and the input
    file name is one of the arguments. *)
Theorem read_options_ranges (argv0 : string) (args : list string) (o : Options)
    (Hread : read_options sscanf_x argv0 args = Ok o) :
  0 <= fill o <= 0xFF /\
  (offset o = -1 \/ 0 <= offset o <= 0xFFFF) /\
  0 <= opt_verbose o /\
  In (inputfilename o) args.
Proof.
  unfold read_options in Hread.
  apply bind_Ok_inv in Hread. destruct Hread as ([l st] & Hp & Hread).
  destruct (l_inputfilename l) as [name|] eqn:En; [|discriminate].
  injection Hread as <-. cbn [fill offset opt_verbose inputfilename].
  apply (parse_args_inv argv0 (length args)) in Hp; [|lia].
  destruct Hp as (A & B & C).
  destruct A as [Hf Ho]; [unfold in_range; cbn; lia|].
  split; [exact Hf | split; [exact Ho | split]].
  - apply B. cbn. lia.
  - destruct (C name En) as [Hc|Hc]; [discriminate | exact Hc].
Qed.

Lemma simple_flag_cases (c : ascii) :
  simple_flag c = true ->
  (c = "b" \/ c = "c" \/ c = "i" \/ c = "l" \/ c = "v")%char.
Proof.
  unfold simple_flag. intros H.
  repeat (apply orb_true_iff in H; destruct H as [H|H]);
    apply Ascii.eqb_eq in H; tauto.
Qed.

Lemma simple_group (argv0 : string) (g1 : string) :
  g1 <> "" -> simple_flags g1 = true ->
  forall (l : Locals) (st : AsmState),
  exists l1 st1,
    (forall next, option_group sscanf_x argv0 g1 next l st = Ok (l1, st1, false)) /\
    (forall g2 next, g2 <> "" ->
       option_group sscanf_x argv0 (g1 +:+ g2) next l st =
       option_group sscanf_x argv0 g2 next l1 st1) /\
    l_result l1 = l_result l /\ l_offset l1 = l_offset l /\ l_fill l1 = l_fill l.
Proof.
  induction g1 as [|c t IH]; intros Hne Hs l st; [congruence|].
  cbn [simple_flags] in Hs. apply andb_true_iff in Hs. destruct Hs as [Hc Ht].
  assert (Hstep : exists l0 st0,
            (forall g next,
               option_group sscanf_x argv0 (String c g) next l st =
               match g with
               | EmptyString => Ok (l0, st0, false)
               | String _ _ => option_group sscanf_x argv0 g next l0 st0
               end) /\
            l_result l0 = l_result l /\ l_offset l0 = l_offset l /\ l_fill l0 = l_fill l).
  { destruct (simple_flag_cases c Hc) as [-> | [-> | [-> | [-> | ->]]]].
    - exists (set_l_bin l), st. repeat split.
    - exists (set_l_cArray l), st. repeat split.
    - exists (set_l_hex l), st. repeat split.
    - exists l, (set_listing true st). repeat split.
    - exists l, (set_verboseMode (verboseMode st + 1) st). repeat split. }
  destruct Hstep as (l0 & st0 & Hstep & Hr0 & Ho0 & Hf0).
  destruct t as [|c' t'].
  - exists l0, st0. split; [|split; [|tauto]].
    + intros next. rewrite Hstep. reflexivity.
    + intros g2 next Hg2. rewrite append_cons. change ("" +:+ g2) with g2.
      rewrite Hstep. destruct g2; [congruence | reflexivity].
  - destruct (IH ltac:(discriminate) Ht l0 st0) as (l1 & st1 & H1 & H2 & Hr1 & Ho1 & Hf1).
    exists l1, st1. split; [|split; [|split; [|split]]]; try congruence.
    + intros next. rewrite Hstep. apply H1.
    + intros g2 next Hg2. rewrite append_cons, Hstep.
      rewrite (append_cons c' t' g2). rewrite <- (append_cons c' t' g2).
      apply H2. exact Hg2.
Qed.

(** X20. Option characters without a value can be grouped: an argument
    that begins with such characters is read like two arguments, the
    characters and, behind their own dash, what follows them. *)
Theorem flag_groups_split (argv0 : string) (g1 g2 : string) (rest : list string)
    (l : Locals) (st : AsmState)
    (Hg1 : g1 <> "") (Hflags : simple_flags g1 = true) (Hg2 : g2 <> "") :
  parse_args sscanf_x argv0 (("-" +:+ g1 +:+ g2) :: rest) l st =
  parse_args sscanf_x argv0 (("-" +:+ g1) :: ("-" +:+ g2) :: rest) l st.
Proof.
  destruct (simple_group argv0 g1 Hg1 Hflags l st) as (l1 & st1 & H1 & H2 & _).
  rewrite !(append_cons "-" "" _). change ("" +:+ g1 +:+ g2) with (g1 +:+ g2).
  change ("" +:+ g1) with g1. change ("" +:+ g2) with g2.
  cbn [parse_args]. cbv zeta.
  change ("-" =? "-")%char with true. cbv iota.
  rewrite H1, H2 by exact Hg2.
  cbn [parse_args]. cbv zeta. change ("-" =? "-")%char with true. cbv iota.
  reflexivity.
Qed.

(** X21. [-f] or [-o] as the last characters of the last argument, with
    no value behind and no value scanned before: no [sscanf] is called
    and the variable [result], which has no initialiser, is read. *)
Theorem missing_option_value_undefined (argv0 : string) (g : string) (c : ascii)
    (l : Locals) (st : AsmState)
    (Hflags : simple_flags g = true)
    (Hc : c = "f"%char \/ c = "o"%char)
    (Hresult : l_result l = None) :
  parse_args sscanf_x argv0 ["-" +:+ g +:+ String c ""] l st = Undef.
Proof.
  rewrite (append_cons "-" "" _). change ("" +:+ g +:+ String c "") with (g +:+ String c "").
  cbn [parse_args]. cbv zeta. change ("-" =? "-")%char with true. cbv iota.
  assert (Hlast : forall l1 st1, l_result l1 = None ->
            option_group sscanf_x argv0 (String c "") None l1 st1 = Undef).
  { intros l1 st1 Hr. destruct Hc as [-> | ->]; cbn; rewrite Hr; reflexivity. }
  destruct g as [|c' t'].
  - change ("" +:+ String c "") with (String c ""). cbn [head]. rewrite Hlast by exact Hresult.
    reflexivity.
  - destruct (simple_group argv0 (String c' t') ltac:(discriminate) Hflags l st)
      as (l1 & st1 & _ & H2 & Hr & _).
    cbn [head]. rewrite H2 by discriminate. rewrite Hlast by congruence. reflexivity.
Qed.

(** X22. The same missing value after an earlier [-f] or [-o] that was
    scanned with success: [result] still holds the value of that call and
    [-o] is accepted, the offset being what it was, masked with 0xFFFF
    (0xFFFF when no offset had been given). *)
Theorem stale_result_accepts_missing_value (argv0 : string) (g : string) (r : Z)
    (l : Locals) (st : AsmState)
    (Hflags : simple_flags g = true)
    (Hresult : l_result l = Some r) (Hr : r <> 0) :
  exists l' st',
    parse_args sscanf_x argv0 ["-" +:+ g +:+ "o"] l st = Ok (l', st') /\
    l_offset l' = Z.land (l_offset l) 0xFFFF.
Proof.
  rewrite (append_cons "-" "" _). change ("" +:+ g +:+ "o") with (g +:+ "o").
  cbn [parse_args]. cbv zeta. change ("-" =? "-")%char with true. cbv iota.
  assert (Hlast : forall l1 st1, l_result l1 = Some r ->
            option_group sscanf_x argv0 "o" None l1 st1 =
            Ok (set_l_offset (Some r) (Z.land (l_offset l1) 0xFFFF) l1, st1, false)).
  { intros l1 st1 Hr1. cbn. rewrite Hr1.
    destruct (Z.eqb_spec r 0); [contradiction | reflexivity]. }
  destruct g as [|c' t'].
  - change ("" +:+ "o") with "o". cbn [head]. rewrite Hlast by exact Hresult.
    eexists _, _. split; reflexivity.
  - destruct (simple_group argv0 (String c' t') ltac:(discriminate) Hflags l st)
      as (l1 & st1 & _ & H2 & Hr1 & Ho1 & _).
    cbn [head]. rewrite H2 by discriminate. rewrite Hlast by congruence.
    eexists _, _. split; [reflexivity|]. cbn. rewrite Ho1. reflexivity.
Qed.

Lemma globals_refl (st : AsmState) :
  st = set_verboseMode (verboseMode st) (set_listing (listing st) st).
Proof. destruct st; reflexivity. Qed.

Lemma option_group_globals (argv0 : string) (group : string) (next : option string) :
  forall (l : Locals) (st : AsmState) (l' : Locals) (st' : AsmState) (used : bool),
  option_group sscanf_x argv0 group next l st = Ok (l', st', used) ->
  st' = set_verboseMode (verboseMode st') (set_listing (listing st') st).
Proof.
  induction group as [|c tail IH]; intros l st l' st' used H; [discriminate|].
  cbn [option_group] in H. cbv zeta in H.
  assert (Hmore : forall l0 st0,
             match tail with
             | EmptyString => Ok (l0, st0, false)
             | String _ _ => option_group sscanf_x argv0 tail next l0 st0
             end = Ok (l', st', used) ->
             st' = set_verboseMode (verboseMode st') (set_listing (listing st') st0)).
  { intros l0 st0 Hm. destruct tail.
    - injection Hm as <- <- <-. apply globals_refl.
    - exact (IH _ _ _ _ _ Hm). }
  destruct (c =? "b")%char; [exact (Hmore _ _ H)|].
  destruct (c =? "c")%char; [exact (Hmore _ _ H)|].
  destruct (c =? "i")%char; [exact (Hmore _ _ H)|].
  destruct (c =? "f")%char.
  { destruct (option_value sscanf_x tail next (l_result l) (l_fill l))
      as [[[r|] v] u]; [|discriminate].
    destruct (r =? 0); [discriminate|]. injection H as <- <- <-. apply globals_refl. }
  destruct (c =? "l")%char; [rewrite (Hmore _ _ H) at 1; reflexivity|].
  destruct (c =? "o")%char.
  { destruct (option_value sscanf_x tail next (l_result l) (l_offset l))
      as [[[r|] v] u]; [|discriminate].
    destruct (r =? 0); [discriminate|]. injection H as <- <- <-. apply globals_refl. }
  destruct (c =? "v")%char; [|discriminate].
  rewrite (Hmore _ _ H) at 1. reflexivity.
Qed.

Lemma parse_args_globals (argv0 : string) (n : nat) :
  forall (args : list string) (l : Locals) (st : AsmState) (l' : Locals) (st' : AsmState),
  (length args <= n)%nat ->
  parse_args sscanf_x argv0 args l st = Ok (l', st') ->
  st' = set_verboseMode (verboseMode st') (set_listing (listing st') st).
Proof.
  induction n as [|n IH]; intros args l st l' st' Hn H.
  - destruct args; [|simpl in Hn; lia]. injection H as <- <-. apply globals_refl.
  - destruct args as [|a rest]; [injection H as <- <-; apply globals_refl|].
    cbn [length] in Hn. cbn [parse_args] in H. cbv zeta in H.
    assert (Hplain :
              match l_inputfilename l with
              | Some _ => exit 1 (usage argv0 st)
              | None => parse_args sscanf_x argv0 rest (set_l_inputfilename a l) st
              end = Ok (l', st') ->
              st' = set_verboseMode (verboseMode st') (set_listing (listing st') st)).
    { intros Hp. destruct (l_inputfilename l); [discriminate|].
      apply IH in Hp; [exact Hp | lia]. }
    destruct a as [|c group]; [exact (Hplain H)|].
    destruct (c =? "-")%char; [|exact (Hplain H)].
    destruct (option_group sscanf_x argv0 group (head rest) l st)
      as [[[l1 st1] used]| | |] eqn:Eg; try discriminate.
    apply option_group_globals in Eg.
    assert (Hrest : forall args', (length args' <= n)%nat ->
               parse_args sscanf_x argv0 args' l1 st1 = Ok (l', st') ->
               st' = set_verboseMode (verboseMode st') (set_listing (listing st') st)).
    { intros args' Hlen Hp. apply IH in Hp; [|exact Hlen].
      rewrite Hp at 1. rewrite Eg. reflexivity. }
    destruct rest as [|b rest'].
    + injection H as <- <-. exact Eg.
    + destruct used.
      * apply (Hrest rest'); [cbn [length] in Hn; lia | exact H].
      * apply (Hrest (b :: rest')); [cbn [length] in Hn |- *; lia | exact H].
Qed.

(** X23. Reading the options prints nothing and changes no global but
    [listing] and [verboseMode]: when the loop over the arguments
    returns, the globals are the ones it started with, these two
    apart. *)
Theorem options_touch_two_globals (argv0 : string) (args : list string)
    (l : Locals) (st : AsmState) (l' : Locals) (st' : AsmState)
    (Hparse : parse_args sscanf_x argv0 args l st = Ok (l', st')) :
  st' = set_verboseMode (verboseMode st') (set_listing (listing st') st).
Proof.
  exact (parse_args_globals argv0 (length args) args l st l' st' (le_n _) Hparse).
Qed.

End CommandLineProperties.

Lemma read_options_ranges_witness :
  read_options scan_hex "z80asm" ["-bl"; "-o"; "1F00"; "-f7F"; "prog.asm"] =
  Ok (mkOptions true false false true 0 0x1F00 0x7F "prog.asm") /\
  0 <= 0x7F <= 0xFF /\ (0x1F00 = -1 \/ 0 <= 0x1F00 <= 0xFFFF) /\ 0 <= 0 /\
  In "prog.asm" ["-bl"; "-o"; "1F00"; "-f7F"; "prog.asm"].
Proof.
  split; [reflexivity|].
  exact (read_options_ranges scan_hex "z80asm" ["-bl"; "-o"; "1F00"; "-f7F"; "prog.asm"]
           (mkOptions true false false true 0 0x1F00 0x7F "prog.asm") eq_refl).
Defined.

Lemma flag_groups_split_witness :
  parse_args scan_hex "z80asm" ["-blo100"; "prog.asm"] init_locals init_state =
  parse_args scan_hex "z80asm" ["-bl"; "-o100"; "prog.asm"] init_locals init_state.
Proof.
  apply (flag_groups_split scan_hex "z80asm" "bl" "o100" ["prog.asm"] init_locals init_state);
    [discriminate | reflexivity | discriminate].
Defined.

Lemma missing_option_value_undefined_witness :
  parse_args scan_hex "z80asm" ["-bf"] init_locals init_state = Undef.
Proof.
  apply (missing_option_value_undefined scan_hex "z80asm" "b" "f" init_locals init_state);
    [reflexivity | left; reflexivity | reflexivity].
Defined.

Lemma stale_result_accepts_missing_value_witness :
  exists l' st',
    parse_args scan_hex "z80asm" ["-lo"] (set_l_fill (Some 1) 0x7F init_locals) init_state =
    Ok (l', st') /\
    l_offset l' = 0xFFFF.
Proof.
  apply (stale_result_accepts_missing_value scan_hex "z80asm" "l" 1
           (set_l_fill (Some 1) 0x7F init_locals) init_state);
    [reflexivity | reflexivity | discriminate].
Defined.

Lemma options_touch_two_globals_witness :
  exists l' st',
    parse_args scan_hex "z80asm" ["-vl"; "-v"; "prog.asm"] init_locals init_state =
    Ok (l', st') /\
    st' = set_verboseMode 2 (set_listing true init_state).
Proof.
  exists (set_l_inputfilename "prog.asm" init_locals),
         (set_verboseMode 2 (set_listing true init_state)).
  split; [reflexivity|].
  exact (options_touch_two_globals scan_hex "z80asm" ["-vl"; "-v"; "prog.asm"]
           init_locals init_state (set_l_inputfilename "prog.asm" init_locals)
           (set_verboseMode 2 (set_listing true init_state)) eq_refl).
Defined.

Example stale_result_example :
  read_options scan_hex "z80asm" ["-f"; "7F"; "prog.asm"; "-o"] =
  Ok (mkOptions false false false false 0 0xFFFF 0x7F "prog.asm").
Proof. reflexivity. Qed.

Example second_name_example :
  exists w, read_options scan_hex "bin/z80asm" ["a.asm"; "b.asm"] = Exit 1 w /\
            String.substring 0 14 (stdout w) = "Usage: z80asm ".
Proof. eexists. split; reflexivity. Qed.

Lemma no_slash_snoc (q : string) (c : ascii) :
  no_slash q = true -> is_slash c = false -> no_slash (q +:+ String c "") = true.
Proof.
  intros Hq Hc. induction q as [|x q IH].
  - change ("" +:+ String c "") with (String c ""). cbn. rewrite Hc. reflexivity.
  - rewrite append_cons. cbn [no_slash] in *.
    apply andb_true_iff in Hq. destruct Hq as [Hx Hq]. rewrite Hx, (IH Hq). reflexivity.
Qed.

Lemma progname_from_spec (s : string) :
  forall a q : string,
  no_slash q = true ->
  (a = "" \/ exists d c, a = d +:+ String c "" /\ is_slash c = true) ->
  exists a',
    a +:+ q +:+ s = a' +:+ progname_from (q +:+ s) s /\
    no_slash (progname_from (q +:+ s) s) = true /\
    (a' = "" \/ exists d c, a' = d +:+ String c "" /\ is_slash c = true).
Proof.
  induction s as [|c s IH]; intros a q Hq Ha.
  - exists a. cbn [progname_from]. rewrite append_nil_r. auto.
  - cbn [progname_from]. destruct (is_slash c) eqn:Ec.
    + destruct (IH (a +:+ q +:+ String c "") "" eq_refl) as (a' & H1 & H2 & H3).
      { right. exists (a +:+ q), c. rewrite append_assoc. auto. }
      change ("" +:+ s) with s in *.
      exists a'. split; [|auto].
      rewrite <- H1. rewrite !append_assoc. reflexivity.
    + destruct (IH a (q +:+ String c "") (no_slash_snoc q c Hq Ec) Ha) as (a' & H1 & H2 & H3).
      rewrite !append_assoc in *. change (String c "" +:+ s) with (String c s) in *.
      exists a'. auto.
Qed.

(** X24. The name that [usage] prints is the end of [argv[0]] that
    follows its last slash or backslash: it has neither inside, and what
    stands before it in [argv[0]] is empty or ends with one. *)
Theorem usage_names_program (fullpath : string) :
  exists dir,
    fullpath = dir +:+ progname_from fullpath fullpath /\
    no_slash (progname_from fullpath fullpath) = true /\
    (dir = "" \/ exists d c, dir = d +:+ String c "" /\ is_slash c = true).
Proof.
  destruct (progname_from_spec fullpath "" "" eq_refl (or_introl eq_refl))
    as (a' & H1 & H2 & H3).
  change ("" +:+ fullpath) with fullpath in *.
  exists a'. auto.
Qed.
